(** * mo-commit: a verification model of [src/bin/cli.js]

    The command-line tool is embedded shallowly: JavaScript strings are
    sequences of UTF-16 code units, JSON values are a tagged union, and the
    asynchronous commands are computations in a small state-and-exception
    monad whose state carries the file store and the trace of observable
    actions (console output, file accesses, child processes, prompts and
    calls of the generation service). *)

From Stdlib Require Import List NArith ZArith Arith Lia Bool String Ascii.
Import ListNotations.

Set Implicit Arguments.

(** ** JavaScript strings *)

(** A JavaScript string is a sequence of UTF-16 code units. *)
Definition jsstring := list N.

(** [str "abc"] is the JavaScript string with the code units of the literal. *)
Definition str (s : string) : jsstring :=
  List.map N_of_ascii (list_ascii_of_string s).
Arguments str : simpl never.

Definition LF : N := 10.
Definition DQUOTE : N := 34.
Definition COMMA : N := 44.
Definition COLON : N := 58.
Definition BACKSLASH : N := 92.

Fixpoint jseq (a b : jsstring) : bool :=
  match a, b with
  | [], [] => true
  | x :: a', y :: b' => N.eqb x y && jseq a' b'
  | _, _ => false
  end.

(** Truthiness of a string: every string but the empty one. *)
Definition truthy (s : jsstring) : bool :=
  match s with [] => false | _ :: _ => true end.

(** Truthiness of a value that is a string or [undefined]. *)
Definition truthy_opt (s : option jsstring) : bool :=
  match s with None => false | Some s => truthy s end.

(** [String.prototype.split] with a separator of one code unit, which is
    how the program calls it (['\n'], [','] and [':']). *)
Fixpoint split (sep : N) (s : jsstring) : list jsstring :=
  match s with
  | [] => [[]]
  | c :: r =>
      if N.eqb c sep then [] :: split sep r
      else match split sep r with
           | [] => [[c]]
           | w :: ws => (c :: w) :: ws
           end
  end.

(** [Array.prototype.join]. *)
Fixpoint join (sep : jsstring) (l : list jsstring) : jsstring :=
  match l with
  | [] => []
  | [x] => x
  | x :: r => x ++ sep ++ join sep r
  end.

(** White space and line terminators, the code units that
    [String.prototype.trim] strips. *)
Definition isWhiteSpace (c : N) : bool :=
  existsb (N.eqb c)
    [9; 10; 11; 12; 13; 32; 160; 5760; 8192; 8193; 8194; 8195; 8196; 8197;
     8198; 8199; 8200; 8201; 8202; 8232; 8233; 8239; 8287; 12288; 65279]%N.

Fixpoint trimStart (s : jsstring) : jsstring :=
  match s with
  | [] => []
  | c :: r => if isWhiteSpace c then trimStart r else s
  end.

Definition trimEnd (s : jsstring) : jsstring := rev (trimStart (rev s)).

Definition trim (s : jsstring) : jsstring := trimEnd (trimStart s).

(** ** Numbers *)

Definition isDigit (c : N) : bool := (48 <=? c)%N && (c <=? 57)%N.

Definition digitsValue (s : jsstring) : N :=
  fold_left (fun acc c => (10 * acc + (c - 48))%N) s 0%N.

Module Number.

(** The Number values that a JSON text can denote: a zero, an infinity
    (a literal beyond the range of a double) or [m * 2^e], with
    [m < 2^53] and [-1074 <= e <= 971] ([2^52 <= m] unless [e = -1074]). *)
Inductive t : Type :=
| Zero (negative : bool)
| Infinite (negative : bool)
| Finite (negative : bool) (m : positive) (e : Z).

Local Open Scope Z_scope.

(** The Number value for the rational [p / q], [p] and [q] positive: the
    double nearest to it, a tie going to the even significand. *)
Definition round (negative : bool) (p q : Z) : t :=
  let floorAt (e : Z) := (p * 2 ^ Z.max 0 (- e)) / (q * 2 ^ Z.max 0 e) in
  let e0 := Z.log2 p - Z.log2 q - 53 in
  let e1 := if 2 ^ 53 <=? floorAt e0 then e0 + 1 else e0 in
  let e := Z.max e1 (-1074) in
  let den := q * 2 ^ Z.max 0 e in
  let (quo, rem) := Z.div_eucl (p * 2 ^ Z.max 0 (- e)) den in
  let m := match 2 * rem ?= den with
           | Lt => quo
           | Gt => quo + 1
           | Eq => if Z.even quo then quo else quo + 1
           end in
  let (m, e) := if m =? 2 ^ 53 then (2 ^ 52, e + 1) else (m, e) in
  match m with
  | Zpos m => if 971 <? e then Infinite negative else Finite negative m e
  | _ => Zero negative
  end.

Fixpoint leadingDigits (s : jsstring) : jsstring * jsstring :=
  match s with
  | c :: r =>
      if isDigit c then let (d, rest) := leadingDigits r in (c :: d, rest)
      else ([], s)
  | [] => ([], [])
  end.

Fixpoint dropZeros (s : jsstring) : jsstring :=
  match s with
  | c :: r => if (c =? 48)%N then dropZeros r else s
  | [] => []
  end.

(** The Number value of a JSON number literal
    [-? int (. frac)? ((e|E) (+|-)? digits)?]: the double nearest to the
    decimal it writes.  A literal whose value is above [10^310] or below
    [10^-331] is settled without the power of ten being computed. *)
Definition ofLiteral (lit : jsstring) : t :=
  let (negative, s) :=
    match lit with
    | c :: r => if (c =? 45)%N then (true, r) else (false, lit)
    | [] => (false, lit)
    end in
  let (int, s1) := leadingDigits s in
  let (frac, s2) :=
    match s1 with
    | c :: r => if (c =? 46)%N then leadingDigits r else ([], s1)
    | [] => ([], s1)
    end in
  let exponent :=
    match s2 with
    | c :: r =>
        if (c =? 101)%N || (c =? 69)%N then
          match r with
          | x :: r' =>
              if (x =? 45)%N
              then - Z.of_N (digitsValue (fst (leadingDigits r')))
              else if (x =? 43)%N
              then Z.of_N (digitsValue (fst (leadingDigits r')))
              else Z.of_N (digitsValue (fst (leadingDigits r)))
          | [] => 0
          end
        else 0
    | [] => 0
    end in
  let digits := dropZeros (int ++ frac) in
  let M := Z.of_N (digitsValue digits) in
  let e10 := exponent - Z.of_nat (List.length frac) in
  let size := e10 + Z.of_nat (List.length digits) in
  if M =? 0 then Zero negative
  else if 310 <? size then Infinite negative
  else if size <? -330 then Zero negative
  else if 0 <=? e10 then round negative (M * 10 ^ e10) 1
  else round negative M (10 ^ (- e10)).

Fixpoint decimalFrom (fuel : nat) (n : Z) (acc : jsstring) : jsstring :=
  match fuel with
  | O => acc
  | S fuel =>
      if n <? 10 then Z.to_N (48 + n) :: acc
      else decimalFrom fuel (n / 10) (Z.to_N (48 + n mod 10) :: acc)
  end.

(** The decimal digits of a natural number; it has no more of them than
    binary digits. *)
Definition decimal (n : Z) : jsstring :=
  decimalFrom (S (Z.to_nat (Z.log2 n))) n [].

(** The [n] with [10^(n-1) <= p / q < 10^n]. *)
Definition decimalExponent (p q : Z) : Z :=
  if q <=? p then Z.of_nat (List.length (decimal (p / q)))
  else
    let d := Z.of_nat (List.length (decimal (q / p))) in
    if q =? p * 10 ^ (d - 1) then 2 - d else 1 - d.

(** The digits [s] and the exponent [n] of [Number::toString] for the
    double [m * 2^e = p / q]: the least number [k] of digits, from [k] on,
    for which some [s * 10^(n-k)] has [m * 2^e] as its Number value; of
    two such [s] the one nearer to the double, the even one at a tie. *)
Fixpoint shortestFrom (steps : nat) (k : Z) (m : positive) (e p q n0 : Z) :
    jsstring * Z :=
  let up := 10 ^ Z.max 0 (k - n0) in
  let down := 10 ^ Z.max 0 (n0 - k) in
  let (lo, rem) := Z.div_eucl (p * up) (q * down) in
  let hi := lo + 1 in
  let reads (s : Z) :=
    match round false (s * down) up with
    | Finite _ m' e' => Pos.eqb m m' && (e =? e')
    | _ => false
    end in
  let result (s : Z) :=
    let ds := decimal s in
    (rev (dropZeros (rev ds)), n0 + (Z.of_nat (List.length ds) - k)) in
  match steps with
  | O => result lo
  | S steps =>
      match reads lo, reads hi with
      | true, true =>
          match 2 * rem ?= q * down with
          | Lt => result lo
          | Gt => result hi
          | Eq => if Z.even lo then result lo else result hi
          end
      | true, false => result lo
      | false, true => result hi
      | false, false => shortestFrom steps (k + 1) m e p q n0
      end
  end.

(** The last step of [Number::toString]: plain digits when
    [-6 < n <= 21], the exponent form otherwise. *)
Definition format (ds : jsstring) (n : Z) : jsstring :=
  let k := Z.of_nat (List.length ds) in
  if (k <=? n) && (n <=? 21) then ds ++ repeat 48%N (Z.to_nat (n - k))
  else if (0 <? n) && (n <=? 21)
  then firstn (Z.to_nat n) ds ++ str "." ++ skipn (Z.to_nat n) ds
  else if (-6 <? n) && (n <=? 0)
  then str "0." ++ repeat 48%N (Z.to_nat (- n)) ++ ds
  else
    let exponent :=
      (if n - 1 <? 0 then str "-" else str "+") ++ decimal (Z.abs (n - 1)) in
    match ds with
    | [] => []
    | [d] => [d] ++ str "e" ++ exponent
    | d :: r => [d] ++ str "." ++ r ++ str "e" ++ exponent
    end.

Definition ratio (m : positive) (e : Z) : Z * Z :=
  if 0 <=? e then (Zpos m * 2 ^ e, 1) else (Zpos m, 2 ^ (- e)).

(** [Number::toString(x)] in radix ten. *)
Definition toString (x : t) : jsstring :=
  match x with
  | Zero _ => str "0"
  | Infinite negative => (if negative then str "-" else []) ++ str "Infinity"
  | Finite negative m e =>
      match (let (p, q) := ratio m e in round negative p q) with
      | Zero _ => str "0"
      | Infinite _ => (if negative then str "-" else []) ++ str "Infinity"
      | Finite _ m e =>
          let (p, q) := ratio m e in
          let (ds, n) := shortestFrom 17 1 m e p q (decimalExponent p q) in
          (if negative then str "-" else []) ++ format ds n
      end
  end.

End Number.

(** ** JavaScript values *)

(** The values that flow through the program: [undefined] and the values
    of JSON.  An object is its list of own properties in property
    order. *)
#[warnings="-register-all"]
Inductive jsval : Type :=
| VUndefined
| VNull
| VBool (b : bool)
| VNum (x : Number.t)
| VStr (s : jsstring)
| VArr (elems : list jsval)
| VObj (props : list (jsstring * jsval)).

(** Own property lookup; a missing property reads as [undefined]. *)
Fixpoint obj_get (k : jsstring) (props : list (jsstring * jsval)) : jsval :=
  match props with
  | [] => VUndefined
  | (k', v) :: r => if jseq k k' then v else obj_get k r
  end.

Fixpoint obj_has (k : jsstring) (props : list (jsstring * jsval)) : bool :=
  match props with
  | [] => false
  | (k', _) :: r => jseq k k' || obj_has k r
  end.

Fixpoint obj_replace (k : jsstring) (v : jsval)
    (props : list (jsstring * jsval)) : list (jsstring * jsval) :=
  match props with
  | [] => []
  | (k', v') :: r =>
      if jseq k k' then (k, v) :: r else (k', v') :: obj_replace k v r
  end.

(** A property key is an array index when it is the canonical decimal
    form of an integer below 2^32 - 1; such keys come first in property
    order, in ascending order. *)
Definition arrayIndex (k : jsstring) : option N :=
  match k with
  | [] => None
  | c :: r =>
      if forallb isDigit k && (negb (N.eqb c 48) || negb (truthy r))
      then if (digitsValue k <? 4294967295)%N then Some (digitsValue k) else None
      else None
  end.

Fixpoint obj_insert_index (n : N) (k : jsstring) (v : jsval)
    (props : list (jsstring * jsval)) : list (jsstring * jsval) :=
  match props with
  | [] => [(k, v)]
  | (k', v') :: r =>
      match arrayIndex k' with
      | Some m =>
          if (m <? n)%N then (k', v') :: obj_insert_index n k v r
          else (k, v) :: props
      | None => (k, v) :: props
      end
  end.

(** [CreateDataProperty]: an existing property keeps its place and takes
    the new value; a new one goes among the array indices or to the end. *)
Definition obj_define (k : jsstring) (v : jsval)
    (props : list (jsstring * jsval)) : list (jsstring * jsval) :=
  if obj_has k props then obj_replace k v props
  else match arrayIndex k with
       | Some n => obj_insert_index n k v props
       | None => props ++ [(k, v)]
       end.

(** Property read [v.k] for the keys the program uses, none of which is
    a property of a built-in prototype: reading from [undefined] or
    [null] is a TypeError (here [None]); a primitive or an array has no
    such property. *)
Definition get_prop (v : jsval) (k : jsstring) : option jsval :=
  match v with
  | VUndefined | VNull => None
  | VObj props => Some (obj_get k props)
  | _ => Some VUndefined
  end.

(** ** JSON *)

Module JSON.

Inductive result (A : Type) : Type :=
| Parsed (a : A)
| SyntaxError.
Arguments SyntaxError {A}.

(** *** Serialization: [JSON.stringify(value, null, gap)] *)

Definition hexDigit (n : N) : N :=
  if (n <? 10)%N then (48 + n)%N else (87 + n)%N.

(** Four lower-case hexadecimal digits. *)
Definition hex4 (c : N) : jsstring :=
  [hexDigit ((c / 4096) mod 16); hexDigit ((c / 256) mod 16);
   hexDigit ((c / 16) mod 16); hexDigit (c mod 16)]%N.

Definition unicodeEscape (c : N) : jsstring := [BACKSLASH; 117%N] ++ hex4 c.

Definition isHighSurrogate (c : N) : bool := (55296 <=? c)%N && (c <=? 56319)%N.
Definition isLowSurrogate (c : N) : bool := (56320 <=? c)%N && (c <=? 57343)%N.

(** The escape of one code unit that is not a surrogate. *)
Definition escapeUnit (c : N) : jsstring :=
  if (c =? 8)%N then [BACKSLASH; 98%N]
  else if (c =? 9)%N then [BACKSLASH; 116%N]
  else if (c =? 10)%N then [BACKSLASH; 110%N]
  else if (c =? 12)%N then [BACKSLASH; 102%N]
  else if (c =? 13)%N then [BACKSLASH; 114%N]
  else if (c =? 34)%N then [BACKSLASH; DQUOTE]
  else if (c =? 92)%N then [BACKSLASH; BACKSLASH]
  else if (c <? 32)%N then unicodeEscape c
  else [c].

(** The body of [QuoteJSONString]: a surrogate pair is kept, a lone
    surrogate is escaped. *)
Fixpoint quoteChars (s : jsstring) : jsstring :=
  match s with
  | [] => []
  | c :: r =>
      if isHighSurrogate c then
        match r with
        | d :: r' =>
            if isLowSurrogate d then c :: d :: quoteChars r'
            else unicodeEscape c ++ quoteChars r
        | [] => unicodeEscape c
        end
      else if isLowSurrogate c then unicodeEscape c ++ quoteChars r
      else escapeUnit c ++ quoteChars r
  end.

Definition quote (s : jsstring) : jsstring :=
  [DQUOTE] ++ quoteChars s ++ [DQUOTE].

Section Serialize.

(** The gap: [JSON.stringify(v, null, 2)] indents by two spaces. *)
Variable gap : jsstring.

(** [SerializeJSONProperty]; [None] is the result [undefined]. *)
Fixpoint serialize (indent : jsstring) (v : jsval) : option jsstring :=
  match v with
  | VUndefined => None
  | VNull => Some (str "null")
  | VBool true => Some (str "true")
  | VBool false => Some (str "false")
  | VNum x =>
      match x with
      | Number.Infinite _ => Some (str "null")
      | _ => Some (Number.toString x)
      end
  | VStr s => Some (quote s)
  | VArr elems =>
      let stepback := indent in
      let indent := indent ++ gap in
      let partial :=
        List.map (fun e => match serialize indent e with
                           | None => str "null"
                           | Some t => t
                           end) elems in
      match partial with
      | [] => Some (str "[]")
      | _ =>
          if truthy gap then
            let separator := [COMMA; LF] ++ indent in
            Some (str "[" ++ [LF] ++ indent ++ join separator partial
                    ++ [LF] ++ stepback ++ str "]")
          else Some (str "[" ++ join [COMMA] partial ++ str "]")
      end
  | VObj props =>
      let stepback := indent in
      let indent := indent ++ gap in
      let partial :=
        List.flat_map
          (fun kv => match serialize indent (snd kv) with
                     | None => []
                     | Some t =>
                         [quote (fst kv) ++ [COLON]
                            ++ (if truthy gap then str " " else []) ++ t]
                     end) props in
      match partial with
      | [] => Some (str "{}")
      | _ =>
          if truthy gap then
            let separator := [COMMA; LF] ++ indent in
            Some (str "{" ++ [LF] ++ indent ++ join separator partial
                    ++ [LF] ++ stepback ++ str "}")
          else Some (str "{" ++ join [COMMA] partial ++ str "}")
      end
  end.

End Serialize.

(** [JSON.stringify(value, null, 2)]. *)
Definition stringify (v : jsval) : option jsstring :=
  serialize (str "  ") [] v.

(** *** Parsing: [JSON.parse(text)] *)

(** JSON white space: tab, line feed, carriage return and space. *)
Definition isJSONWhiteSpace (c : N) : bool :=
  (c =? 9)%N || (c =? 10)%N || (c =? 13)%N || (c =? 32)%N.

Fixpoint skipWS (s : jsstring) : jsstring :=
  match s with
  | [] => []
  | c :: r => if isJSONWhiteSpace c then skipWS r else s
  end.

Definition hexValue (c : N) : option N :=
  if (48 <=? c)%N && (c <=? 57)%N then Some (c - 48)%N
  else if (97 <=? c)%N && (c <=? 102)%N then Some (c - 87)%N
  else if (65 <=? c)%N && (c <=? 70)%N then Some (c - 55)%N
  else None.

Definition unhex4 (a b c d : N) : option N :=
  match hexValue a, hexValue b, hexValue c, hexValue d with
  | Some x, Some y, Some z, Some w => Some (4096 * x + 256 * y + 16 * z + w)%N
  | _, _, _, _ => None
  end.

(** The code unit a one-letter escape stands for. *)
Definition unescape (e : N) : option N :=
  if (e =? 34)%N then Some 34%N
  else if (e =? 47)%N then Some 47%N
  else if (e =? 92)%N then Some 92%N
  else if (e =? 98)%N then Some 8%N
  else if (e =? 102)%N then Some 12%N
  else if (e =? 110)%N then Some 10%N
  else if (e =? 114)%N then Some 13%N
  else if (e =? 116)%N then Some 9%N
  else None.

Definition consTo (c : N) (r : option (jsstring * jsstring)) :
    option (jsstring * jsstring) :=
  match r with
  | Some (s, rest) => Some (c :: s, rest)
  | None => None
  end.

(** The characters of a string literal after its opening quote, up to and
    including the closing quote; the result is the string and the rest of
    the text. *)
Fixpoint parseString (s : jsstring) : option (jsstring * jsstring) :=
  match s with
  | [] => None
  | c :: r =>
      if (c =? 34)%N then Some ([], r)
      else if (c =? 92)%N then
        match r with
        | [] => None
        | e :: r1 =>
            if (e =? 117)%N then
              match r1 with
              | h1 :: h2 :: h3 :: h4 :: r2 =>
                  match unhex4 h1 h2 h3 h4 with
                  | Some u => consTo u (parseString r2)
                  | None => None
                  end
              | _ => None
              end
            else
              match unescape e with
              | Some u => consTo u (parseString r1)
              | None => None
              end
        end
      else if (c <? 32)%N then None
      else consTo c (parseString r)
  end.

(** The longest prefix of decimal digits. *)
Fixpoint spanDigits (s : jsstring) : jsstring * jsstring :=
  match s with
  | c :: r =>
      if isDigit c then let (d, rest) := spanDigits r in (c :: d, rest)
      else ([], s)
  | [] => ([], [])
  end.

(** The parts of a number literal: an optional minus sign, an integer
    part without superfluous leading zero, an optional fraction and an
    optional exponent.  Each gives its text and the rest. *)
Definition lexSign (s : jsstring) : jsstring * jsstring :=
  match s with
  | c :: r => if (c =? 45)%N then ([c], r) else ([], s)
  | [] => ([], s)
  end.

Definition lexInteger (s : jsstring) : option (jsstring * jsstring) :=
  let (digits, rest) := spanDigits s in
  match digits with
  | [] => None
  | c :: more =>
      if (c =? 48)%N && truthy more then Some ([c], tl s)
      else Some (digits, rest)
  end.

Definition lexFraction (s : jsstring) : option (jsstring * jsstring) :=
  match s with
  | c :: r =>
      if (c =? 46)%N then
        match spanDigits r with
        | ([], _) => None
        | (d, rest) => Some (c :: d, rest)
        end
      else Some ([], s)
  | [] => Some ([], s)
  end.

Definition lexExponent (s : jsstring) : option (jsstring * jsstring) :=
  match s with
  | c :: r =>
      if (c =? 101)%N || (c =? 69)%N then
        let (esign, r1) :=
          match r with
          | x :: r' =>
              if (x =? 43)%N || (x =? 45)%N then ([x], r') else ([], r)
          | [] => ([], r)
          end in
        match spanDigits r1 with
        | ([], _) => None
        | (d, rest) => Some (c :: esign ++ d, rest)
        end
      else Some ([], s)
  | [] => Some ([], s)
  end.

(** A number literal; the result is the literal and the rest of the
    text. *)
Definition lexNumber (s : jsstring) : option (jsstring * jsstring) :=
  let (sign, s1) := lexSign s in
  match lexInteger s1 with
  | None => None
  | Some (int, s2) =>
      match lexFraction s2 with
      | None => None
      | Some (fr, s3) =>
          match lexExponent s3 with
          | None => None
          | Some (ex, s4) => Some (sign ++ int ++ fr ++ ex, s4)
          end
      end
  end.

(** [stripPrefix p s] is the rest of [s] after the prefix [p]. *)
Fixpoint stripPrefix (p s : jsstring) : option jsstring :=
  match p, s with
  | [], _ => Some s
  | x :: p', y :: s' => if N.eqb x y then stripPrefix p' s' else None
  | _ :: _, [] => None
  end.

(** A value, the elements of an array after the first bracket and the
    members of an object after the first brace.  Every call consumes fuel;
    a text never needs more than its length allows (see [parse]). *)
Fixpoint parseValue (fuel : nat) (s : jsstring) : option (jsval * jsstring) :=
  match fuel with
  | O => None
  | S fuel =>
      match skipWS s with
      | [] => None
      | c :: r =>
          if (c =? 123)%N then
            match skipWS r with
            | d :: r' =>
                if (d =? 125)%N then Some (VObj [], r')
                else
                  match parseMembers fuel [] r with
                  | Some (props, rest) => Some (VObj props, rest)
                  | None => None
                  end
            | [] => None
            end
          else if (c =? 91)%N then
            match skipWS r with
            | d :: r' =>
                if (d =? 93)%N then Some (VArr [], r')
                else
                  match parseElements fuel r with
                  | Some (elems, rest) => Some (VArr elems, rest)
                  | None => None
                  end
            | [] => None
            end
          else if (c =? 34)%N then
            match parseString r with
            | Some (t, rest) => Some (VStr t, rest)
            | None => None
            end
          else if (c =? 116)%N then
            match stripPrefix (str "true") (c :: r) with
            | Some rest => Some (VBool true, rest)
            | None => None
            end
          else if (c =? 102)%N then
            match stripPrefix (str "false") (c :: r) with
            | Some rest => Some (VBool false, rest)
            | None => None
            end
          else if (c =? 110)%N then
            match stripPrefix (str "null") (c :: r) with
            | Some rest => Some (VNull, rest)
            | None => None
            end
          else
            match lexNumber (c :: r) with
            | Some (lit, rest) => Some (VNum (Number.ofLiteral lit), rest)
            | None => None
            end
      end
  end

with parseElements (fuel : nat) (s : jsstring) :
    option (list jsval * jsstring) :=
  match fuel with
  | O => None
  | S fuel =>
      match parseValue fuel s with
      | None => None
      | Some (v, r) =>
          match skipWS r with
          | c :: r' =>
              if (c =? 44)%N then
                match parseElements fuel r' with
                | Some (vs, rest) => Some (v :: vs, rest)
                | None => None
                end
              else if (c =? 93)%N then Some ([v], r')
              else None
          | [] => None
          end
      end
  end

with parseMembers (fuel : nat) (acc : list (jsstring * jsval)) (s : jsstring) :
    option (list (jsstring * jsval) * jsstring) :=
  match fuel with
  | O => None
  | S fuel =>
      match skipWS s with
      | q :: r =>
          if (q =? 34)%N then
            match parseString r with
            | None => None
            | Some (k, r1) =>
                match skipWS r1 with
                | c :: r2 =>
                    if (c =? 58)%N then
                      match parseValue fuel r2 with
                      | None => None
                      | Some (v, r3) =>
                          match skipWS r3 with
                          | d :: r4 =>
                              if (d =? 44)%N then
                                parseMembers fuel (obj_define k v acc) r4
                              else if (d =? 125)%N then
                                Some (obj_define k v acc, r4)
                              else None
                          | [] => None
                          end
                      end
                    else None
                | [] => None
                end
            end
          else None
      | [] => None
      end
  end.

(** [JSON.parse(text)]: one value, white space around it, nothing else. *)
Definition parse (text : jsstring) : result jsval :=
  match parseValue (2 * List.length text + 2) text with
  | Some (v, rest) =>
      match skipWS rest with
      | [] => Parsed v
      | _ :: _ => SyntaxError
      end
  | None => SyntaxError
  end.

End JSON.

(** ** The world of a run *)

(** Text styled by chalk: the style that is asked for and the text.  What
    reaches the terminal is the text, with the colour codes of the style
    around it when colours are on: without colours two lines of the same
    text are the same line, whatever their styles. *)
Inductive style : Type :=
| Blue | Red | Yellow | Green | Cyan | White | GreenBold.

Definition styled : Type := style * jsstring.

Definition chalk (c : style) (s : jsstring) : styled := (c, s).

(** What a promise is rejected with: the string the program passes to
    [reject], or the error a built-in or a collaborator throws. *)
Inductive jserror : Type :=
| Reason (message : jsstring)
| TypeError
| JSONSyntaxError
| FsError (path : jsstring)
| PromptError
| ApiError (message : jsstring).

(** What [child_process.exec] hands to its callback: the message of the
    error (if any), the standard output and the diagnostic output. *)
Record ExecResult : Type := {
  error : option jsstring;
  stdout : jsstring;
  stderr : jsstring
}.

(** A content block of a response of the generation service: a text
    block, or a block of another kind, whose [text] is [undefined]. *)
Inductive block : Type :=
| TextBlock (text : jsstring)
| OtherBlock.

(** The command-line flags as yargs returns them; a flag that was not
    given is [undefined]. *)
Record Argv : Type := {
  argv_S : option bool;
  argv_setup : option bool
}.

(** The user at the terminal.  A question with a validator is asked again
    until an entry passes, so the user is a list of successive entries;
    running out of entries, or no entry at all, is the user leaving the
    prompt. *)
Record User : Type := {
  tokens : list jsstring;
  selections : list (list bool);
  customTypes : option jsstring;
  confirm : option bool
}.

Record World : Type := {
  argv : Argv;
  os_homedir : jsstring;
  path_join : jsstring -> jsstring -> jsstring;
  child_process : jsstring -> ExecResult;
  user : User;
  (** [new Anthropic({apiKey})] and its [messages.create], by the text of
      the single user message *)
  anthropic : jsval -> option (jsstring -> jserror + list block)
}.

(** A path of the file store. *)
Inductive fnode : Type :=
| Absent
| Denied
| File (content : jsstring).

(** The observable actions of a run, in the order they happen. *)
Inductive event : Type :=
| ConsoleLog (line : styled)
| ConsoleWarn (line : styled)
| FsAccess (path : jsstring)
| FsReadFile (path : jsstring)
| FsWriteFile (path : jsstring) (data : jsstring)
| Exec (command : jsstring)
| PromptSetup
| PromptConfirm (message : jsstring) (answer : option bool)
| MessagesCreate (apiKey : jsval) (model : jsstring) (max_tokens : N)
    (content : jsstring).

Record State : Type := {
  fs : jsstring -> fnode;
  trace : list event
}.

(** ** The monad of asynchronous commands *)

Inductive outcome (A : Type) : Type :=
| Fulfilled (a : A)
| Rejected (e : jserror).
Arguments Rejected {A}.

Definition M (A : Type) : Type := State -> outcome A * State.

Definition ret {A : Type} (a : A) : M A := fun st => (Fulfilled a, st).

Definition throw {A : Type} (e : jserror) : M A := fun st => (Rejected e, st).

Definition bind {A B : Type} (m : M A) (k : A -> M B) : M B :=
  fun st =>
    match m st with
    | (Fulfilled a, st') => k a st'
    | (Rejected e, st') => (Rejected e, st')
    end.

(** [try { m } catch (error) { handler }]. *)
Definition try_catch {A : Type} (m : M A) (handler : jserror -> M A) : M A :=
  fun st =>
    match m st with
    | (Fulfilled a, st') => (Fulfilled a, st')
    | (Rejected e, st') => handler e st'
    end.

Declare Scope js_scope.
Delimit Scope js_scope with js.
Notation "x <- m ;; k" := (bind m (fun x => k))
  (at level 61, m at next level, right associativity) : js_scope.
Notation "m ;; k" := (bind m (fun _ => k))
  (at level 61, right associativity) : js_scope.
Notation "' p <- m ;; k" := (bind m (fun x => match x with p => k end))
  (at level 61, p pattern, m at next level, right associativity) : js_scope.
Open Scope js_scope.

Definition emit (e : event) : M unit :=
  fun st => (Fulfilled tt, {| fs := fs st; trace := trace st ++ [e] |}).

Definition console_log (line : styled) : M unit := emit (ConsoleLog line).
Definition console_warn (line : styled) : M unit := emit (ConsoleWarn line).

(** Lifting of a partial operation that throws a TypeError. *)
Definition orTypeError {A : Type} (o : option A) : M A :=
  match o with
  | Some a => ret a
  | None => throw TypeError
  end.

(** [fs.access(path)]: fails when nothing is at the path. *)
Definition fs_access (path : jsstring) : M unit :=
  emit (FsAccess path) ;;
  fun st =>
    match fs st path with
    | Absent => (Rejected (FsError path), st)
    | _ => (Fulfilled tt, st)
    end.

(** [fs.readFile(path, 'utf8')]. *)
Definition fs_readFile (path : jsstring) : M jsstring :=
  emit (FsReadFile path) ;;
  fun st =>
    match fs st path with
    | File content => (Fulfilled content, st)
    | _ => (Rejected (FsError path), st)
    end.

(** [String.prototype.toWellFormed]: what is left of a string once it has
    been encoded as UTF-8 and decoded again; a lone surrogate has become
    U+FFFD. *)
Fixpoint toWellFormed (s : jsstring) : jsstring :=
  match s with
  | [] => []
  | c :: r =>
      if JSON.isHighSurrogate c then
        match r with
        | d :: r' =>
            if JSON.isLowSurrogate d then c :: d :: toWellFormed r'
            else 65533%N :: toWellFormed r
        | [] => [65533%N]
        end
      else if JSON.isLowSurrogate c then 65533%N :: toWellFormed r
      else c :: toWellFormed r
  end.

(** [fs.writeFile(path, data)]: creates or overwrites the file, whose
    content is the UTF-8 encoding of the data.  The write fails when the
    file cannot be opened for writing, and nothing has changed then; a
    failure after the file has been opened, which leaves it cut short, is
    not part of the model. *)
Definition fs_writeFile (path : jsstring) (data : jsstring) : M unit :=
  emit (FsWriteFile path data) ;;
  fun st =>
    match fs st path with
    | Denied => (Rejected (FsError path), st)
    | _ =>
        (Fulfilled tt,
         {| fs := fun p => if jseq p path then File (toWellFormed data)
                           else fs st p;
            trace := trace st |})
    end.

(** [JSON.parse(text)], throwing a SyntaxError. *)
Definition JSON_parse (text : jsstring) : M jsval :=
  match JSON.parse text with
  | JSON.Parsed v => ret v
  | JSON.SyntaxError => throw JSONSyntaxError
  end.

(** [ToString] of a value, as a template literal applies it; [None] is a
    TypeError (an object whose own [toString] is not callable). *)
Fixpoint toString (v : jsval) : option jsstring :=
  match v with
  | VUndefined => Some (str "undefined")
  | VNull => Some (str "null")
  | VBool true => Some (str "true")
  | VBool false => Some (str "false")
  | VNum x => Some (Number.toString x)
  | VStr s => Some s
  | VArr elems =>
      option_map (join [COMMA])
        ((fix items (l : list jsval) : option (list jsstring) :=
            match l with
            | [] => Some []
            | e :: r =>
                match (match e with
                       | VUndefined | VNull => Some []
                       | _ => toString e
                       end), items r with
                | Some t, Some ts => Some (t :: ts)
                | _, _ => None
                end
            end) elems)
  | VObj props =>
      if obj_has (str "toString") props then None
      else Some (str "[object Object]")
  end.

(** ** The program *)

(** The eight built-in commit types: name, description and whether the
    box is checked when the question is first shown. *)
Record CommitType : Type := {
  name : jsstring;
  description : option jsstring;
  checked : option bool
}.

Definition defaultType (n d : string) (c : bool) : CommitType :=
  {| name := str n; description := Some (str d); checked := Some c |}.

Definition defaultCommitTypes : list CommitType :=
  [ defaultType "feat" "A new feature" true;
    defaultType "fix" "A bug fix" true;
    defaultType "docs" "Documentation only changes" false;
    defaultType "style" "Changes that do not affect the meaning of the code" false;
    defaultType "refactor" "A code change that neither fixes a bug nor adds a feature" false;
    defaultType "perf" "A code change that improves performance" false;
    defaultType "test" "Adding missing tests or correcting existing tests" false;
    defaultType "chore" "Changes to the build process or auxiliary tools" true ].

Definition validateToken (input : jsstring) : bool :=
  (0 <? List.length input)%nat.

Definition validateTypes (answer : list CommitType) : bool :=
  negb (List.length answer <? 1)%nat.

(** The filter of the custom-types question: the input is cut at the
    commas, each piece at the colons; the first two parts, trimmed, are
    the name and the description, and [description] is [undefined] when
    there is no second part ([split] never returns an empty array, so the
    first part is always there). *)
Definition customFilter (input : jsstring) : list CommitType :=
  List.filter (fun type => truthy (name type) && truthy_opt (description type))
    (List.map
       (fun type =>
          let parts := List.map trim (split COLON type) in
          {| name := nth 0 parts []; description := nth_error parts 1;
             checked := None |})
       (split COMMA input)).

(** A choice of the check-box question. *)
Record Choice : Type := {
  choice_name : jsstring;
  choice_value : CommitType;
  choice_checked : bool
}.

Definition optToString (s : option jsstring) : jsstring :=
  match s with Some t => t | None => str "undefined" end.

Definition typeChoices : list Choice :=
  List.map
    (fun type =>
       {| choice_name := name type ++ str " - " ++ optToString (description type);
          choice_value := type;
          choice_checked := match checked type with Some b => b | None => false end |})
    defaultCommitTypes.

(** The answer of a check-box question: the values of the choices that
    are checked when the user submits, in the order of the choices.  An
    entry of the user says which boxes were toggled. *)
Fixpoint checkbox (choices : list Choice) (toggled : list bool) : list CommitType :=
  match choices with
  | [] => []
  | c :: cs =>
      let rest := checkbox cs (tl toggled) in
      if xorb (choice_checked c) (hd false toggled) then choice_value c :: rest
      else rest
  end.

(** The answers of the four setup questions. *)
Record Answers : Type := {
  ans_aiProvider : jsstring;
  ans_apiToken : jsstring;
  ans_commitTypes : list CommitType;
  ans_customCommitTypes : list CommitType
}.

(** The answers once the custom types have been merged in and
    [customCommitTypes] deleted: the configuration record. *)
Record Configuration : Type := {
  aiProvider : jsstring;
  apiToken : jsstring;
  commitTypes : list CommitType
}.

Definition optValue (s : option jsstring) : jsval :=
  match s with Some t => VStr t | None => VUndefined end.

(** The objects as JavaScript values, properties in creation order. *)
Definition jsCommitType (t : CommitType) : jsval :=
  VObj ([(str "name", VStr (name t));
         (str "description", optValue (description t))]
        ++ match checked t with
           | Some b => [(str "checked", VBool b)]
           | None => []
           end).

Definition jsConfiguration (c : Configuration) : jsval :=
  VObj [(str "aiProvider", VStr (aiProvider c));
        (str "apiToken", VStr (apiToken c));
        (str "commitTypes", VArr (List.map jsCommitType (commitTypes c)))].

(** The test [stagedFiles.length === 0 || stagedFiles[0] === '']. *)
Definition nothingStaged (stagedFiles : list jsstring) : bool :=
  (List.length stagedFiles =? 0)%nat
  || match nth_error stagedFiles 0 with
     | Some file => jseq file []
     | None => false
     end.

(** [`- ${type.name}: ${type.description}`]. *)
Definition renderType (type : jsval) : option jsstring :=
  match get_prop type (str "name") with
  | None => None
  | Some n =>
      match toString n with
      | None => None
      | Some ns =>
          match get_prop type (str "description") with
          | None => None
          | Some d =>
              match toString d with
              | None => None
              | Some ds => Some (str "- " ++ ns ++ str ": " ++ ds)
              end
          end
      end
  end.

Fixpoint mapM {A B : Type} (f : A -> option B) (l : list A) : option (list B) :=
  match l with
  | [] => Some []
  | a :: r =>
      match f a with
      | None => None
      | Some b =>
          match mapM f r with
          | None => None
          | Some bs => Some (b :: bs)
          end
      end
  end.

(** [commitTypes.map(type => ...).join(...)]; only an array has [map]. *)
Definition renderTypes (commitTypes : jsval) : option jsstring :=
  match commitTypes with
  | VArr elems =>
      option_map (join ([LF] ++ str "                    "))
        (mapM renderType elems)
  | _ => None
  end.

(** The text of the request, around the rendered types, the file contents
    and the diff. *)
Definition promptText (types filesContent diff : jsstring) : jsstring :=
  str "
                Analyze the following Git diff and file contents to generate a concise, informative commit message following these best practices:

                1. Start with a commit type prefix followed by a colon and space. Use one of these types:
                    "
  ++ types ++
  str "

                2. After the type, use the imperative mood (e.g., 'add feature' not 'added feature')
                3. Keep the first line (subject) under 50 characters, including the type
                4. The whole commit message and title must be on lower case always
                5. Do not end the subject line with a period
                6. Separate subject from body with a blank line
                7. Wrap the body at 72 characters
                8. Use the body to explain what and why, not how

                If multiple files or significant changes are involved, use a multi-line commit message with a brief subject line followed by a more detailed explanation in the body.

                <filescontent>
                "
  ++ filesContent ++
  str "
                </filescontent>


                <diff>
                "
  ++ diff ++
  str "
                </diff>

                Generate the commit message now using the provided information and return only the commit message without explanations.:
                ".

Definition model : jsstring := str "claude-3-5-sonnet-20240620".
Definition max_tokens : N := 1024.

Section Program.

Variable w : World.

Definition getGlobalConfigPath : jsstring :=
  path_join w (os_homedir w) (str ".mo-commit-config.json").

(** [child_process.exec(command, callback)]: the result is what the
    callback receives. *)
Definition exec (command : jsstring) : M ExecResult :=
  emit (Exec command) ;;
  ret (child_process w command).

(** The setup questions. *)
Definition promptSetup : M Answers :=
  emit PromptSetup ;;
  match find validateToken (tokens (user w)) with
  | None => throw PromptError
  | Some token =>
      match find validateTypes
              (List.map (checkbox typeChoices) (selections (user w))) with
      | None => throw PromptError
      | Some types =>
          match customTypes (user w) with
          | None => throw PromptError
          | Some input =>
              ret {| ans_aiProvider := str "Anthropic";
                     ans_apiToken := token;
                     ans_commitTypes := types;
                     ans_customCommitTypes := customFilter input |}
          end
      end
  end.

(** The confirmation question. *)
Definition promptConfirm (message : jsstring) : M bool :=
  emit (PromptConfirm message (confirm (user w))) ;;
  match confirm (user w) with
  | None => throw PromptError
  | Some b => ret b
  end.

(** Lines 93-99 of [setup]: the configuration is serialized and
    written. *)
Definition saveConfig (answers : Configuration) : M unit :=
  config <- orTypeError (JSON.stringify (jsConfiguration answers)) ;;
  let configPath := getGlobalConfigPath in
  fs_writeFile configPath config ;;
  console_log (chalk Green (str "Configuration saved in " ++ configPath)).

Definition setup : M unit :=
  console_log (chalk Blue (str "Running setup...")) ;;
  answers <- promptSetup ;;
  (* Combine selected types with custom types *)
  let answers :=
    {| aiProvider := ans_aiProvider answers;
       apiToken := ans_apiToken answers;
       commitTypes := ans_commitTypes answers ++ ans_customCommitTypes answers |} in
  (* Save configuration *)
  saveConfig answers.

(** Line 114 of [defaultCommand]: the configuration is read and
    parsed. *)
Definition loadConfig : M jsval :=
  text <- fs_readFile getGlobalConfigPath ;;
  JSON_parse text.

Definition getStagedFilesAndDiff : M (list jsstring * jsstring) :=
  r <- exec (str "git diff --cached --name-only") ;;
  match error r with
  | Some message => throw (Reason (str "Error getting staged files: " ++ message))
  | None =>
      if truthy (stderr r) then
        throw (Reason (str "Error getting staged files: " ++ stderr r))
      else
        let files := split LF (trim (stdout r)) in
        (* Get the diff for staged files *)
        d <- exec (str "git diff --cached") ;;
        match error d with
        | Some message => throw (Reason (str "Error getting diff: " ++ message))
        | None =>
            if truthy (stderr d) then
              throw (Reason (str "Error getting diff: " ++ stderr d))
            else ret (files, stdout d)
        end
  end.

(** The loop of [getFilesContent], [content] being what has been
    collected so far. *)
Fixpoint getFilesContent_from (content : jsstring) (files : list jsstring) :
    M jsstring :=
  match files with
  | [] => ret content
  | file :: rest =>
      let content := content ++ (str "File: " ++ file ++ [LF]) in
      text <- fs_readFile file ;;
      let content := content ++ text in
      let content := content ++ [LF; LF] in
      getFilesContent_from content rest
  end.

Definition getFilesContent (files : list jsstring) : M jsstring :=
  getFilesContent_from [] files.

(** The result is [response.content[0].text]: a string, or [undefined]
    when the first block is not a text block. *)
Definition generateCommitMessage (apiToken : jsval)
    (filesContent diff : jsstring) (commitTypes : jsval) :
    M (option jsstring) :=
  match anthropic w apiToken with
  | None => throw (ApiError [])
  | Some messages_create =>
      types <- orTypeError (renderTypes commitTypes) ;;
      let content := promptText types filesContent diff in
      emit (MessagesCreate apiToken model max_tokens content) ;;
      match messages_create content with
      | inl e => throw e
      | inr response =>
          match response with
          | [] => throw TypeError
          | TextBlock text :: _ => ret (Some text)
          | OtherBlock :: _ => ret None
          end
      end
  end.

Definition makeCommit (message : jsstring) (sign : option bool) :
    M jsstring :=
  let sign := match sign with Some b => b | None => false end in
  let signFlag := if sign then str "-S " else [] in
  r <- exec (str "git commit " ++ signFlag ++ str "-m " ++ [DQUOTE]
               ++ message ++ [DQUOTE]) ;;
  match error r with
  | Some message => throw (Reason (str "Error making commit: " ++ message))
  | None =>
      (if truthy (stderr r) then
         console_warn
           (chalk Yellow (str "Warning while making commit: " ++ stderr r))
       else ret tt) ;;
      ret (stdout r)
  end.

Definition rule : jsstring := str "----------------------------------".

Definition defaultCommand : M unit :=
  console_log (chalk Blue (str "Executing commit...")) ;;
  let configPath := getGlobalConfigPath in
  found <- try_catch (fs_access configPath ;; ret true)
             (fun _ =>
                console_log
                  (chalk Red (str "Configuration not found. Please run "
                                ++ [DQUOTE] ++ str "commit --setup"
                                ++ [DQUOTE] ++ str " first.")) ;;
                ret false) ;;
  if negb found then ret tt else
  config <- loadConfig ;;
  provider <- orTypeError (get_prop config (str "aiProvider")) ;;
  if negb (match provider with
           | VStr s => jseq s (str "Anthropic")
           | _ => false
           end)
  then
    console_log
      (chalk Yellow (str "This command only works with Anthropic for now."))
  else
  (* Read files in staging and get diff *)
  ' (stagedFiles, diff) <- getStagedFilesAndDiff ;;
  if nothingStaged stagedFiles then
    console_log
      (chalk Yellow (str "No files in staging. Add files before committing."))
  else
  (* Read the content of staged files *)
  filesContent <- getFilesContent stagedFiles ;;
  (* Generate commit message *)
  token <- orTypeError (get_prop config (str "apiToken")) ;;
  types <- orTypeError (get_prop config (str "commitTypes")) ;;
  commitMessage <- generateCommitMessage token filesContent diff types ;;
  console_log (chalk Cyan ([LF] ++ str "=== Generated Commit Message ===")) ;;
  console_log (chalk White rule) ;;
  (* Split the commit message into subject and body *)
  commitMessage <- orTypeError commitMessage ;;
  let lines := split LF commitMessage in
  let subject := hd [] lines in
  let body := tl lines in
  console_log (chalk GreenBold subject) ;;
  (if (0 <? List.length body)%nat then
     console_log (chalk White rule) ;;
     console_log (chalk White (join [LF] body))
   else ret tt) ;;
  console_log (chalk White (rule ++ [LF])) ;;
  (* Ask for confirmation *)
  confirmCommit <- promptConfirm (str "Do you want to use this message?") ;;
  if confirmCommit then
    makeCommit commitMessage (argv_S (argv w)) ;;
    console_log (chalk Green (str "Commit successfully made."))
  else
    console_log (chalk Yellow (str "Commit cancelled.")).

(** The entry: [if (argv.setup) setup() else defaultCommand()]. *)
Definition cli : M unit :=
  if match argv_setup (argv w) with Some b => b | None => false end
  then setup
  else defaultCommand.

End Program.

(** ** Runs *)

(** A run starts from a file store, with nothing observed yet. *)
Definition init (files : jsstring -> fnode) : State :=
  {| fs := files; trace := [] |}.

Definition startsWith (p s : jsstring) : bool :=
  match JSON.stripPrefix p s with Some _ => true | None => false end.

(** The invocations of the commit operation of the version-control tool. *)
Definition isCommit (command : jsstring) : bool :=
  startsWith (str "git commit ") command.

Definition commitEvent (e : event) : bool :=
  match e with
  | Exec command => isCommit command
  | _ => false
  end.

(** The two queries of the change collector. *)
Definition stagedQuery : jsstring := str "git diff --cached --name-only".
Definition diffQuery : jsstring := str "git diff --cached".

(** The command line [makeCommit] runs. *)
Definition commitCommand (message : jsstring) (sign : option bool) : jsstring :=
  str "git commit "
  ++ (if match sign with Some b => b | None => false end then str "-S " else [])
  ++ str "-m " ++ [DQUOTE] ++ message ++ [DQUOTE].

(** A query of the version-control tool fails when the tool reports an
    error or writes diagnostic output. *)
Definition failed (r : ExecResult) : bool :=
  match error r with
  | Some _ => true
  | None => truthy (stderr r)
  end.

(** The labeled block of one staged file. *)
Definition labeledBlock (path content : jsstring) : jsstring :=
  str "File: " ++ path ++ [LF] ++ content ++ [LF; LF].

(** A list of events without an invocation of the commit operation. *)
Definition quiet (evs : list event) : Prop :=
  forallb (fun e => negb (commitEvent e)) evs = true.

(** [appends P m]: from every state, [m] extends the trace by events
    that satisfy [P], however it settles. *)
Definition appends {A : Type} (P : list event -> Prop) (m : M A) : Prop :=
  forall st, exists evs, trace (snd (m st)) = trace st ++ evs /\ P evs.

(** The events of a run in which the commit operation, if it is invoked
    at all, is invoked once, right after the confirmation question has
    been answered with yes. *)
Definition approved (w : World) (evs : list event) : Prop :=
  quiet evs \/
  exists pre question message tail,
    evs = pre ++ PromptConfirm question (Some true)
                 :: Exec (commitCommand message (argv_S (argv w))) :: tail
    /\ confirm (user w) = Some true /\ quiet pre /\ quiet tail.

(** ** The stages of the commit flow *)

(** The configuration file is there, parses to [config], and names the
    supported provider. *)
Definition configured (w : World) (files : jsstring -> fnode) (config : jsval) :
    Prop :=
  exists text,
    files (getGlobalConfigPath w) = File text
    /\ JSON.parse text = JSON.Parsed config
    /\ get_prop config (str "aiProvider") = Some (VStr (str "Anthropic")).

(** Both queries of the version-control tool succeed, with these paths
    and this diff. *)
Definition staged (w : World) (paths : list jsstring) (diff : jsstring) : Prop :=
  failed (child_process w stagedQuery) = false
  /\ failed (child_process w diffQuery) = false
  /\ paths = split LF (trim (stdout (child_process w stagedQuery)))
  /\ diff = stdout (child_process w diffQuery).

(** Every path is a readable file, [content] giving what is in it. *)
Definition readable (files : jsstring -> fnode) (paths : list jsstring)
    (content : jsstring -> jsstring) : Prop :=
  forall p, In p paths -> files p = File (content p).

(** The generation service answers the request built from the
    configuration, the file contents and the diff with [message]. *)
Definition generates (w : World) (config : jsval) (filesContent diff : jsstring)
    (request : event) (message : jsstring) : Prop :=
  exists token types create rendered rest,
    get_prop config (str "apiToken") = Some token
    /\ get_prop config (str "commitTypes") = Some types
    /\ anthropic w token = Some create
    /\ renderTypes types = Some rendered
    /\ request = MessagesCreate token model max_tokens
                   (promptText rendered filesContent diff)
    /\ create (promptText rendered filesContent diff)
       = inr (TextBlock message :: rest).

(** What is shown of a generated message (lines 135-146). *)
Definition displayEvents (commitMessage : jsstring) : list event :=
  let lines := split LF commitMessage in
  let subject := hd [] lines in
  let body := tl lines in
  [ConsoleLog (chalk Cyan ([LF] ++ str "=== Generated Commit Message ==="));
   ConsoleLog (chalk White rule);
   ConsoleLog (chalk GreenBold subject)]
  ++ (if (0 <? List.length body)%nat
      then [ConsoleLog (chalk White rule);
            ConsoleLog (chalk White (join [LF] body))]
      else [])
  ++ [ConsoleLog (chalk White (rule ++ [LF]))].

(** The end of [defaultCommand] (lines 148-162). *)
Definition review (w : World) (commitMessage : jsstring) : M unit :=
  confirmCommit <- promptConfirm w (str "Do you want to use this message?") ;;
  if confirmCommit then
    makeCommit w commitMessage (argv_S (argv w)) ;;
    console_log (chalk Green (str "Commit successfully made."))
  else
    console_log (chalk Yellow (str "Commit cancelled.")).

(** The events up to the two queries. *)
Definition queryEvents (w : World) : list event :=
  [ConsoleLog (chalk Blue (str "Executing commit..."));
   FsAccess (getGlobalConfigPath w);
   FsReadFile (getGlobalConfigPath w);
   Exec stagedQuery;
   Exec diffQuery].

(** ** The custom types, in the words of the specification *)

(** The text before the first [sep] and the text after it, when [sep]
    occurs. *)
Fixpoint breakAt (sep : N) (s : jsstring) : option (jsstring * jsstring) :=
  match s with
  | [] => None
  | c :: r =>
      if N.eqb c sep then Some ([], r)
      else match breakAt sep r with
           | Some (a, b) => Some (c :: a, b)
           | None => None
           end
  end.

(** The specification's reading of one pair: the pair is trimmed and
    split on its first colon into name and description; a pair without a
    non-empty name or a non-empty description is dropped. *)
Definition specCustomType (pair : jsstring) : list CommitType :=
  match breakAt COLON (trim pair) with
  | Some (n, d) =>
      if truthy n && truthy d
      then [{| name := n; description := Some d; checked := None |}]
      else []
  | None => []
  end.

Definition specCustomTypes (input : jsstring) : list CommitType :=
  flat_map specCustomType (split COMMA input).

(** The reading that the program implements: the name is what stands
    before the first colon, the description what stands between the
    first colon and the second (or the end of the pair), both trimmed. *)
Definition colonCustomType (pair : jsstring) : list CommitType :=
  match breakAt COLON pair with
  | None => []
  | Some (n, rest) =>
      let d := match breakAt COLON rest with
               | Some (d, _) => d
               | None => rest
               end in
      if truthy (trim n) && truthy (trim d)
      then [{| name := trim n; description := Some (trim d); checked := None |}]
      else []
  end.

Definition colonCustomTypes (input : jsstring) : list CommitType :=
  flat_map colonCustomType (split COMMA input).

(** An error is handled when the command is fulfilled all the same and
    its last action is a message on the console. *)
Definition handled (r : outcome unit * State) : Prop :=
  fst r = Fulfilled tt
  /\ exists before line, trace (snd r) = before ++ [ConsoleLog line].

(** ** A scenario *)

(** One staged file [a.js], the diff [+console.log(1)], the commit type
    [feat], and a generation service that answers
    ["feat: add logging\n\nadds a debug log line"]. *)
Definition scenario_message : jsstring :=
  str "feat: add logging" ++ [LF; LF] ++ str "adds a debug log line".

Definition scenario_config : Configuration :=
  {| aiProvider := str "Anthropic";
     apiToken := str "sk-test";
     commitTypes := [defaultType "feat" "A new feature" true] |}.

Definition scenario_user (answer : option bool) : User :=
  {| tokens := [[]; str "sk-test"];
     selections := [[true; true; false; false; false; false; false; true];
                    [false; false; false; false; false; false; false; true]];
     customTypes := Some (str "build:ci tweaks");
     confirm := answer |}.

Definition scenario_process (command : jsstring) : ExecResult :=
  if jseq command stagedQuery
  then {| error := None; stdout := str "a.js" ++ [LF]; stderr := [] |}
  else if jseq command diffQuery
  then {| error := None; stdout := str "+console.log(1)"; stderr := [] |}
  else {| error := None; stdout := str "[main 1a2b3c4] feat: add logging";
          stderr := str "hint: hooks ran" |}.

Definition scenario_world (setupFlag answer : option bool) : World :=
  {| argv := {| argv_S := None; argv_setup := setupFlag |};
     os_homedir := str "/home/dev";
     path_join := fun a b => a ++ str "/" ++ b;
     child_process := scenario_process;
     user := scenario_user answer;
     anthropic := fun _ => Some (fun _ => inr [TextBlock scenario_message]) |}.

Definition scenario_path : jsstring := str "/home/dev/.mo-commit-config.json".

Definition scenario_store (configText : jsstring) : jsstring -> fnode :=
  fun p =>
    if jseq p scenario_path then File configText
    else if jseq p (str "a.js") then File (str "console.log(1)" ++ [LF])
    else Absent.

Definition scenario_text : jsstring :=
  match JSON.stringify (jsConfiguration scenario_config) with
  | Some text => text
  | None => []
  end.

(** The scenario with another version-control tool. *)
Definition tool_world (process : jsstring -> ExecResult) : World :=
  {| argv := {| argv_S := None; argv_setup := None |};
     os_homedir := str "/home/dev";
     path_join := fun a b => a ++ str "/" ++ b;
     child_process := process;
     user := scenario_user (Some true);
     anthropic := fun _ => Some (fun _ => inr [TextBlock scenario_message]) |}.

(** A tool that writes diagnostic output on every command. *)
Definition failing_world : World :=
  tool_world (fun _ => {| error := None; stdout := [];
                          stderr := str "fatal: not a git repository" |}).

(** A tool whose diff query ends with an error. *)
Definition diff_failing_world : World :=
  tool_world (fun command =>
                if jseq command diffQuery
                then {| error := Some (str "Command failed: git diff --cached");
                        stdout := []; stderr := [] |}
                else scenario_process command).

(** A tool whose commit ends with an error. *)
Definition commit_failing_world : World :=
  tool_world (fun command =>
                if isCommit command
                then {| error := Some (str "Command failed: git commit");
                        stdout := []; stderr := str "error: gpg failed" |}
                else scenario_process command).

Definition scenario_request : event :=
  MessagesCreate (VStr (str "sk-test")) model max_tokens
    (promptText (str "- feat: A new feature")
       (labeledBlock (str "a.js") (str "console.log(1)" ++ [LF]))
       (str "+console.log(1)")).


(** The scenario with nothing staged: the tool prints nothing. *)
Definition idle_world : World :=
  tool_world (fun _ => {| error := None; stdout := []; stderr := [] |}).

(** The message of the review example of the specification. *)
Definition review_message : jsstring :=
  str "feat: add x" ++ [LF; LF] ++ str "body line".

(** A configuration file that is not JSON. *)
Definition corrupt_text : jsstring := str "{ aiProvider: Anthropic".

(** ** The values JSON keeps *)

(** [insertable acc props]: defining the properties [props] one after the
    other on an object that has the properties [acc] appends them in
    order: no key is there already and no key is an array index. *)
Fixpoint insertable (acc props : list (jsstring * jsval)) : bool :=
  match props with
  | [] => true
  | (k, v) :: r =>
      negb (obj_has k acc)
      && match arrayIndex k with None => true | Some _ => false end
      && insertable (acc ++ [(k, v)]) r
  end.

(** The values that JSON text represents exactly in this model: no
    [undefined], no number, and objects whose keys are distinct and not
    array indices. *)
Fixpoint plain (v : jsval) : bool :=
  match v with
  | VUndefined | VNum _ => false
  | VNull | VBool _ | VStr _ => true
  | VArr elems => forallb plain elems
  | VObj props => forallb (fun kv => plain (snd kv)) props && insertable [] props
  end.

(** The fuel that reading a value back takes. *)
Fixpoint cost (v : jsval) : nat :=
  match v with
  | VArr elems => S (list_sum (List.map (fun e => S (cost e)) elems))
  | VObj props => S (list_sum (List.map (fun kv => S (cost (snd kv))) props))
  | _ => 1
  end.

(** A text that starts a value: its first code unit is neither white
    space nor a closing bracket. *)
Definition startsValue (t : jsstring) : bool :=
  match t with
  | c :: _ =>
      negb (JSON.isJSONWhiteSpace c) && negb (c =? 93)%N && negb (c =? 125)%N
  | [] => false
  end.

(** A configuration record is valid when each of its commit types has a
    description. *)
Definition validConfiguration (c : Configuration) : Prop :=
  Forall (fun t => description t <> None) (commitTypes c).

(** Induction on values, through the lists of elements and properties. *)
Section jsval_induction.

Variable P : jsval -> Prop.
Hypothesis HUndefined : P VUndefined.
Hypothesis HNull : P VNull.
Hypothesis HBool : forall b, P (VBool b).
Hypothesis HNum : forall x, P (VNum x).
Hypothesis HStr : forall s, P (VStr s).
Hypothesis HArr : forall elems, Forall P elems -> P (VArr elems).
Hypothesis HObj :
  forall props, Forall (fun kv => P (snd kv)) props -> P (VObj props).

Fixpoint jsval_nested_ind (v : jsval) : P v :=
  match v with
  | VUndefined => HUndefined
  | VNull => HNull
  | VBool b => HBool b
  | VNum x => HNum x
  | VStr s => HStr s
  | VArr elems =>
      HArr ((fix all (l : list jsval) : Forall P l :=
               match l with
               | [] => Forall_nil P
               | e :: r => Forall_cons e (jsval_nested_ind e) (all r)
               end) elems)
  | VObj props =>
      HObj ((fix all (l : list (jsstring * jsval)) :
                 Forall (fun kv => P (snd kv)) l :=
               match l with
               | [] => Forall_nil _
               | kv :: r => Forall_cons kv (jsval_nested_ind (snd kv)) (all r)
               end) props)
  end.

End jsval_induction.

(** A string is well formed when encoding and decoding leave it as it is. *)
Definition wellFormed (s : jsstring) : Prop := toWellFormed s = s.

Definition isSurrogate (c : N) : bool :=
  JSON.isHighSurrogate c || JSON.isLowSurrogate c.

(** ** The texts of the serializer *)

Section Texts.

Variable gap : jsstring.

(** The text of an element of an array. *)
Definition elementText (indent : jsstring) (e : jsval) : jsstring :=
  match JSON.serialize gap indent e with
  | None => str "null"
  | Some t => t
  end.

(** The text of a member of an object. *)
Definition memberText (indent : jsstring) (kv : jsstring * jsval) : jsstring :=
  JSON.quote (fst kv) ++ [COLON] ++ str " " ++ elementText indent (snd kv).

(** What the induction carries for a value at an indentation: its text
    starts a value, is at least as long as the fuel the value takes, and
    is read back as the value, after any white space and before any
    rest. *)
Definition readBack (indent : jsstring) (v : jsval) : Prop :=
  exists t,
    JSON.serialize gap indent v = Some t
    /\ startsValue t = true
    /\ cost v <= List.length t
    /\ forall pre rest fuel,
         forallb JSON.isJSONWhiteSpace pre = true ->
         cost v <= fuel ->
         JSON.parseValue fuel (pre ++ t ++ rest) = Some (v, rest).

End Texts.

(** ** More of the commit flow *)

(** The generation service is asked with the request built from the
    configuration, the file contents and the diff, and gives
    [response]. *)
Definition asks (w : World) (config : jsval) (filesContent diff : jsstring)
    (request : event) (response : jserror + list block) : Prop :=
  exists token types create rendered,
    get_prop config (str "apiToken") = Some token
    /\ get_prop config (str "commitTypes") = Some types
    /\ anthropic w token = Some create
    /\ renderTypes types = Some rendered
    /\ request = MessagesCreate token model max_tokens
                   (promptText rendered filesContent diff)
    /\ create (promptText rendered filesContent diff) = response.

(** The line of the request for one commit type. *)
Definition typeLine (t : CommitType) : jsstring :=
  str "- " ++ name t ++ str ": " ++ optToString (description t).

(** The configuration that setup assembles from the token, the selected
    types and the custom-types input. *)
Definition assembled (token : jsstring) (types : list CommitType)
    (input : jsstring) : Configuration :=
  {| aiProvider := str "Anthropic";
     apiToken := token;
     commitTypes := types ++ customFilter input |}.

(** A string that [trim] leaves as it is. *)
Definition trimmed (s : jsstring) : Prop := trim s = s.


Definition setupEvent (path : jsstring) (e : event) : Prop :=
  match e with
  | ConsoleLog _ | PromptSetup => True
  | FsWriteFile p _ => p = path
  | _ => False
  end.



(** ** The line that announces the commit *)


Definition successText : jsstring := str "Commit successfully made.".



(** The subject of a generated message, or its body as it is shown, is
    the text of line 159. *)
Definition mimics (message : jsstring) : Prop :=
  hd [] (split LF message) = successText
  \/ join [LF] (tl (split LF message)) = successText.

(** The generation service has answered a request of the run with a
    message that mimics line 159. *)
Definition echoed (w : World) (evs : list event) : Prop :=
  exists token create content message rest,
    In (MessagesCreate token model max_tokens content) evs
    /\ anthropic w token = Some create
    /\ create content = inr (TextBlock message :: rest)
    /\ mimics message.



(** ** More scenarios *)

(** A store without a configuration file, and configuration files that
    name no provider, hold [null], or name the provider and nothing
    else. *)
Definition empty_store : jsstring -> fnode := fun _ => Absent.

Definition provider_only_text : jsstring :=
  str "{" ++ [DQUOTE] ++ str "aiProvider" ++ [DQUOTE] ++ str ":"
    ++ [DQUOTE] ++ str "Anthropic" ++ [DQUOTE] ++ str "}".

(** The scenario with another generation service. *)
Definition service_world (service : jsstring -> jserror + list block) : World :=
  {| argv := {| argv_S := None; argv_setup := None |};
     os_homedir := str "/home/dev";
     path_join := fun a b => a ++ str "/" ++ b;
     child_process := scenario_process;
     user := scenario_user (Some true);
     anthropic := fun _ => Some service |}.

(** The scenario with a second staged file, which has been deleted. *)
Definition deleted_process (command : jsstring) : ExecResult :=
  if jseq command stagedQuery
  then {| error := None; stdout := str "a.js" ++ [LF] ++ str "gone.js" ++ [LF];
          stderr := [] |}
  else scenario_process command.

(** Whether [makeCommit] is asked to sign (line 250): the flag, false when
    it is absent. *)
Definition signs (sign : option bool) : bool :=
  match sign with Some b => b | None => false end.

(** ** The shell *)

(** [child_process.exec] hands its command line to a shell, [/bin/sh -c]
    where there is one.  [Sh.words] is the part of the shell's reading
    that a command line of plain words and double-quoted text needs: the
    line is cut into words at blanks; a backslash outside quotes makes the
    next character plain; between double quotes every character stands
    for itself, except the quote that ends them, the backslash before a
    dollar sign, a backquote, a double quote, a backslash or a line break,
    and the dollar sign and the backquote, which start an expansion.  A
    line with an expansion, or with any other character that means
    something to the shell outside quotes, is outside this model, and a
    line whose quotes do not match is refused by the shell: [None]. *)
Module Sh.

Definition isBlank (c : N) : bool := (c =? 32)%N || (c =? 9)%N.

Definition isSpecial (c : N) : bool :=
  existsb (N.eqb c) (LF :: str "|&;<>()$`'*?[#~=%!{}").

(** Between double quotes a backslash quotes these and the line break. *)
Definition isEscapable (c : N) : bool :=
  existsb (N.eqb c) (DQUOTE :: BACKSLASH :: str "$`").

Definition isExpansion (c : N) : bool :=
  existsb (N.eqb c) (str "$`").

Definition push (c : N) (word : option jsstring) : option jsstring :=
  Some (match word with Some w => w ++ [c] | None => [c] end).

(** [word] is the word that is being read, if any; [quoted] says whether
    the reading is between double quotes. *)
Fixpoint read (quoted : bool) (word : option jsstring) (s : jsstring) :
    option (list jsstring) :=
  match s with
  | [] =>
      if quoted then None
      else Some (match word with Some w => [w] | None => [] end)
  | c :: r =>
      if quoted then
        if (c =? DQUOTE)%N then read false word r
        else if (c =? BACKSLASH)%N then
          match r with
          | d :: r' =>
              if isEscapable d then read true (push d word) r'
              else if (d =? LF)%N then read true word r'
              else read true (push c word) r
          | [] => None
          end
        else if isExpansion c then None
        else read true (push c word) r
      else
        if isBlank c then
          match word with
          | Some w => option_map (cons w) (read false None r)
          | None => read false None r
          end
        else if (c =? DQUOTE)%N then
          read true (Some (match word with Some w => w | None => [] end)) r
        else if (c =? BACKSLASH)%N then
          match r with
          | d :: r' =>
              if (d =? LF)%N then read false word r'
              else read false (push d word) r'
          | [] => None
          end
        else if isSpecial c then None
        else read false (push c word) r
  end.

(** The words of a command line: the program and its arguments.  The
    line reaches the shell as bytes: the UTF-8 encoding has turned a lone
    surrogate into U+FFFD, and a line with a NUL does not get there
    whole. *)
Definition words (command : jsstring) : option (list jsstring) :=
  if existsb (fun c => (c =? 0)%N) command then None
  else read false None (toWellFormed command).

End Sh.

(** A message that double quotes leave as it is: it has no double quote,
    no backslash, no dollar sign and no backquote, and no NUL either. *)
Definition shellPlain (message : jsstring) : bool :=
  forallb (fun c => negb ((c =? DQUOTE)%N || (c =? BACKSLASH)%N
                          || Sh.isExpansion c || (c =? 0)%N))
    message.

(** A generated message with a quotation, and what the shell makes of it
    between the quotes of the command line. *)
Definition quoted_message : jsstring :=
  str "fix: handle " ++ [DQUOTE] ++ str "quoted" ++ [DQUOTE] ++ str " names".

Definition unquoted_message : jsstring := str "fix: handle quoted names".

(** A generated message that is the text of line 159. *)
Definition echo_world (answer : option bool) : World :=
  {| argv := {| argv_S := None; argv_setup := None |};
     os_homedir := str "/home/dev";
     path_join := fun a b => a ++ str "/" ++ b;
     child_process := scenario_process;
     user := scenario_user answer;
     anthropic := fun _ => Some (fun _ => inr [TextBlock successText]) |}.

(** ** Basic facts on strings *)

Lemma jseq_spec (a b : jsstring) : jseq a b = true <-> a = b.
Proof.
  revert b; induction a as [|x a IH]; intros [|y b]; simpl;
    try (split; [discriminate | congruence]); try tauto.
  rewrite andb_true_iff, N.eqb_eq, IH. split.
  - intros [-> ->]; reflexivity.
  - intros H; injection H; auto.
Qed.

Lemma jseq_refl (a : jsstring) : jseq a a = true.
Proof. apply jseq_spec; reflexivity. Qed.

Lemma split_nonempty (sep : N) (s : jsstring) : split sep s <> [].
Proof.
  destruct s as [|c r]; simpl; [discriminate|].
  destruct (N.eqb c sep); [discriminate|].
  destruct (split sep r); discriminate.
Qed.

Lemma split_cons_inv (sep : N) (s : jsstring) :
  exists w ws, split sep s = w :: ws.
Proof.
  destruct (split sep s) as [|w ws] eqn:E.
  - exfalso; exact (split_nonempty _ _ E).
  - eauto.
Qed.

(** The first piece is empty only when the string is empty or starts with
    the separator. *)
Lemma split_head_empty (sep : N) (s : jsstring) (ws : list jsstring) :
  split sep s = [] :: ws ->
  s = [] \/ exists r, s = sep :: r.
Proof.
  destruct s as [|c r]; simpl; [auto|].
  destruct (N.eqb c sep) eqn:E.
  - apply N.eqb_eq in E; subst; eauto.
  - destruct (split sep r); discriminate.
Qed.

Lemma trimStart_head (s : jsstring) (c : N) (r : jsstring) :
  trimStart s = c :: r -> isWhiteSpace c = false.
Proof.
  induction s as [|x s IH]; simpl; [discriminate|].
  destruct (isWhiteSpace x) eqn:E; [exact IH|].
  intros H; injection H as -> _; exact E.
Qed.

Lemma trimStart_app_keep (a b : jsstring) (c : N) (r : jsstring) :
  trimStart a = c :: r -> trimStart (a ++ b) = c :: r ++ b.
Proof.
  induction a as [|x a IH]; simpl; [discriminate|].
  destruct (isWhiteSpace x); [exact IH|].
  intros H; injection H as -> ->; reflexivity.
Qed.

Lemma trimStart_all_ws (a : jsstring) :
  trimStart a = [] -> forall b, trimStart (a ++ b) = trimStart b.
Proof.
  induction a as [|x a IH]; simpl; [reflexivity|].
  destruct (isWhiteSpace x); [exact IH | discriminate].
Qed.

(** A trimmed string never starts with a white-space code unit. *)
Lemma trim_head (s : jsstring) (c : N) (r : jsstring) :
  trim s = c :: r -> isWhiteSpace c = false.
Proof.
  unfold trim, trimEnd. intros H.
  destruct (trimStart s) as [|x t] eqn:Es; [discriminate H|].
  pose proof (trimStart_head _ Es) as Hx.
  destruct (trimStart (rev (x :: t))) as [|y u] eqn:Er.
  - discriminate H.
  - (* the reversed string keeps its last unit [x], which is not white *)
    simpl in Er.
    destruct (trimStart (rev t)) as [|z v] eqn:Et.
    + rewrite (trimStart_all_ws _ Et) in Er. simpl in Er. rewrite Hx in Er.
      injection Er as <- <-. simpl in H. injection H as <- _. exact Hx.
    + rewrite (trimStart_app_keep _ _ Et) in Er. injection Er as <- <-.
      simpl in H. rewrite rev_app_distr in H. simpl in H.
      injection H as <- _. exact Hx.
Qed.

(** ** The staged-path list *)

Lemma split_trim_head_empty (out : jsstring) (rest : list jsstring) :
  split LF (trim out) = [] :: rest -> trim out = [] /\ rest = [].
Proof.
  intros H. destruct (split_head_empty _ _ H) as [E | [r E]].
  - rewrite E in H. simpl in H. injection H as <-. auto.
  - apply trim_head in E. discriminate E.
Qed.

Lemma nothingStaged_split (out : jsstring) :
  nothingStaged (split LF (trim out)) = jseq (hd [] (split LF (trim out))) [].
Proof.
  destruct (split_cons_inv LF (trim out)) as (x & xs & E). rewrite E.
  reflexivity.
Qed.

(** Only an empty trimmed output makes the first path empty, and then the
    list is the single empty string. *)
Lemma nothingStaged_iff (out : jsstring) :
  nothingStaged (split LF (trim out)) = true <-> split LF (trim out) = [[]].
Proof.
  rewrite nothingStaged_split. split.
  - destruct (split_cons_inv LF (trim out)) as (x & xs & E). rewrite E. simpl.
    intros H. apply jseq_spec in H. subst x.
    destruct (split_trim_head_empty _ E) as [_ ->]. reflexivity.
  - intros ->. reflexivity.
Qed.

Lemma getStagedFilesAndDiff_files (w : World) (st st' : State)
    (files : list jsstring) (diff : jsstring) :
  getStagedFilesAndDiff w st = (Fulfilled (files, diff), st') ->
  files = split LF (trim (stdout (child_process w stagedQuery)))
  /\ diff = stdout (child_process w diffQuery).
Proof.
  unfold getStagedFilesAndDiff, exec, bind, emit, ret, throw. simpl.
  fold stagedQuery diffQuery.
  destruct (error (child_process w stagedQuery)); [discriminate|].
  destruct (truthy (stderr (child_process w stagedQuery))); [discriminate|].
  simpl.
  destruct (error (child_process w diffQuery)); [discriminate|].
  destruct (truthy (stderr (child_process w diffQuery))); [discriminate|].
  intros H; injection H as <- <- _. auto.
Qed.

(** ** The collected file contents *)

Lemma getFilesContent_from_readable (content : jsstring -> jsstring)
    (files : list jsstring) :
  forall (acc : jsstring) (st : State),
    (forall p, In p files -> fs st p = File (content p)) ->
    getFilesContent_from acc files st
    = (Fulfilled
         (acc ++ List.concat (List.map (fun p => labeledBlock p (content p)) files)),
       {| fs := fs st; trace := trace st ++ List.map FsReadFile files |}).
Proof.
  induction files as [|file rest IH]; intros acc st Hread.
  - simpl. unfold ret. rewrite !app_nil_r. destruct st; reflexivity.
  - cbn [getFilesContent_from]. unfold bind at 1.
    unfold fs_readFile, bind, emit. cbn [fs trace].
    rewrite (Hread file (or_introl eq_refl)).
    rewrite IH by (intros p Hp; cbn [fs]; apply Hread; right; exact Hp).
    cbn [fs trace List.map List.concat]. unfold labeledBlock.
    repeat rewrite <- app_assoc. reflexivity.
Qed.

(** Whatever the files are, the loop only reads files. *)
Lemma getFilesContent_from_trace (files : list jsstring) :
  forall (acc : jsstring) (st : State),
    exists read,
      snd (getFilesContent_from acc files st)
      = {| fs := fs st; trace := trace st ++ List.map FsReadFile read |}.
Proof.
  induction files as [|file rest IH]; intros acc st.
  - exists []. simpl. rewrite app_nil_r. destruct st; reflexivity.
  - cbn [getFilesContent_from]. unfold bind at 1.
    unfold fs_readFile, bind, emit. cbn [fs trace].
    destruct (fs st file) as [| |text].
    + exists [file]. reflexivity.
    + exists [file]. reflexivity.
    + match goal with
      | |- context [getFilesContent_from ?a rest ?s] =>
          destruct (IH a s) as [read E]
      end.
      exists (file :: read). rewrite E. cbn [fs trace List.map].
      rewrite <- app_assoc. reflexivity.
Qed.

(** ** What a command adds to the trace *)

Lemma quiet_nil : quiet [].
Proof. reflexivity. Qed.

Lemma quiet_app (a b : list event) : quiet a -> quiet b -> quiet (a ++ b).
Proof. unfold quiet. intros Ha Hb. rewrite forallb_app, Ha, Hb. reflexivity. Qed.

Lemma quiet_app_inv (a b : list event) : quiet (a ++ b) -> quiet a /\ quiet b.
Proof. unfold quiet. rewrite forallb_app. apply andb_true_iff. Qed.

Lemma quiet_cons_inv (e : event) (b : list event) :
  quiet (e :: b) -> commitEvent e = false /\ quiet b.
Proof.
  unfold quiet. simpl. rewrite andb_true_iff, negb_true_iff. auto.
Qed.

Lemma quiet_reads (files : list jsstring) : quiet (List.map FsReadFile files).
Proof. induction files; [reflexivity | exact IHfiles]. Qed.

Lemma appends_weaken {A : Type} (P Q : list event -> Prop) (m : M A) :
  (forall evs, P evs -> Q evs) -> appends P m -> appends Q m.
Proof.
  intros HPQ Hm st. destruct (Hm st) as (evs & E & HP). eauto.
Qed.

Lemma appends_ret {A : Type} (a : A) : appends quiet (ret a).
Proof. intros st. exists []. simpl. rewrite app_nil_r. split; reflexivity. Qed.

Lemma appends_throw {A : Type} (e : jserror) : appends quiet (@throw A e).
Proof. intros st. exists []. simpl. rewrite app_nil_r. split; reflexivity. Qed.

Lemma appends_emit (e : event) :
  commitEvent e = false -> appends quiet (emit e).
Proof.
  intros He st. exists [e]. split; [reflexivity|].
  unfold quiet. simpl. rewrite He. reflexivity.
Qed.

(** Sequencing: the events of [m], then those of the continuation when
    [m] is fulfilled. *)
Lemma appends_bind {A B : Type} (P Q R : list event -> Prop)
    (m : M A) (k : A -> M B) :
  (forall a b, P a -> Q b -> R (a ++ b)) ->
  (forall a, P a -> R a) ->
  appends P m -> (forall a, appends Q (k a)) -> appends R (bind m k).
Proof.
  intros Hseq Hstop Hm Hk st. unfold bind.
  destruct (Hm st) as (e1 & E1 & H1).
  destruct (m st) as [[a|err] st1]; simpl in E1.
  - destruct (Hk a st1) as (e2 & E2 & H2).
    exists (e1 ++ e2). rewrite E2, E1, app_assoc. auto.
  - exists e1. simpl. auto.
Qed.

Lemma appends_bind_quiet {A B : Type} (m : M A) (k : A -> M B) :
  appends quiet m -> (forall a, appends quiet (k a)) -> appends quiet (bind m k).
Proof.
  apply appends_bind; [intros a b; apply quiet_app | auto].
Qed.

Lemma appends_try_catch {A : Type} (m : M A) (handler : jserror -> M A) :
  appends quiet m -> (forall e, appends quiet (handler e)) ->
  appends quiet (try_catch m handler).
Proof.
  intros Hm Hh st. unfold try_catch.
  destruct (Hm st) as (e1 & E1 & H1).
  destruct (m st) as [[a|err] st1]; simpl in E1.
  - exists e1. auto.
  - destruct (Hh err st1) as (e2 & E2 & H2).
    exists (e1 ++ e2). rewrite E2, E1, app_assoc. auto using quiet_app.
Qed.

Create HintDb quiet.
#[export] Hint Resolve appends_ret appends_throw appends_bind_quiet
  appends_try_catch : quiet.
#[export] Hint Extern 2 (appends quiet (emit _)) =>
  apply appends_emit; reflexivity : quiet.
#[export] Hint Extern 2 (appends quiet (console_log _)) =>
  apply appends_emit; reflexivity : quiet.
#[export] Hint Extern 2 (appends quiet (console_warn _)) =>
  apply appends_emit; reflexivity : quiet.

Lemma quiet_orTypeError {A : Type} (o : option A) : appends quiet (orTypeError o).
Proof. destruct o; simpl; auto with quiet. Qed.

Lemma quiet_fs_access (path : jsstring) : appends quiet (fs_access path).
Proof.
  intros st. exists [FsAccess path]. unfold fs_access, bind, emit. simpl.
  destruct (fs st path); split; reflexivity.
Qed.

Lemma quiet_fs_readFile (path : jsstring) : appends quiet (fs_readFile path).
Proof.
  intros st. exists [FsReadFile path]. unfold fs_readFile, bind, emit. simpl.
  destruct (fs st path); split; reflexivity.
Qed.

Lemma quiet_fs_writeFile (path data : jsstring) :
  appends quiet (fs_writeFile path data).
Proof.
  intros st. exists [FsWriteFile path data]. unfold fs_writeFile, bind, emit.
  simpl. destruct (fs st path); split; reflexivity.
Qed.

Lemma quiet_JSON_parse (text : jsstring) : appends quiet (JSON_parse text).
Proof. unfold JSON_parse. destruct (JSON.parse text); auto with quiet. Qed.

Lemma quiet_exec (w : World) (command : jsstring) :
  isCommit command = false -> appends quiet (exec w command).
Proof.
  intros H. unfold exec. apply appends_bind_quiet; [|auto with quiet].
  apply appends_emit. exact H.
Qed.

#[export] Hint Resolve quiet_orTypeError quiet_fs_access quiet_fs_readFile
  quiet_fs_writeFile quiet_JSON_parse : quiet.
#[export] Hint Extern 2 (appends quiet (exec _ _)) =>
  apply quiet_exec; reflexivity : quiet.

Lemma quiet_promptSetup (w : World) : appends quiet (promptSetup w).
Proof.
  unfold promptSetup. apply appends_bind_quiet; [auto with quiet|]. intros _.
  destruct (find validateToken _); [|auto with quiet].
  destruct (find validateTypes _); [|auto with quiet].
  destruct (customTypes _); auto with quiet.
Qed.

Lemma quiet_promptConfirm (w : World) (message : jsstring) :
  appends quiet (promptConfirm w message).
Proof.
  unfold promptConfirm. apply appends_bind_quiet; [auto with quiet|]. intros _.
  destruct (confirm _); auto with quiet.
Qed.

Lemma quiet_loadConfig (w : World) : appends quiet (loadConfig w).
Proof. unfold loadConfig. auto with quiet. Qed.

Lemma quiet_saveConfig (w : World) (answers : Configuration) :
  appends quiet (saveConfig w answers).
Proof. unfold saveConfig. auto 6 with quiet. Qed.

Lemma quiet_setup (w : World) : appends quiet (setup w).
Proof.
  unfold setup. apply appends_bind_quiet; [auto with quiet|]. intros _.
  apply appends_bind_quiet; [apply quiet_promptSetup|]. intros answers.
  apply quiet_saveConfig.
Qed.

Lemma quiet_getStagedFilesAndDiff (w : World) :
  appends quiet (getStagedFilesAndDiff w).
Proof.
  unfold getStagedFilesAndDiff.
  apply appends_bind_quiet; [auto with quiet|]. intros r.
  destruct (error r); [auto with quiet|].
  destruct (truthy (stderr r)); [auto with quiet|].
  apply appends_bind_quiet; [auto with quiet|]. intros d.
  destruct (error d); [auto with quiet|].
  destruct (truthy (stderr d)); auto with quiet.
Qed.

Lemma quiet_getFilesContent (files : list jsstring) :
  appends quiet (getFilesContent files).
Proof.
  intros st. unfold getFilesContent.
  destruct (getFilesContent_from_trace files [] st) as [read E].
  exists (List.map FsReadFile read). rewrite E. split; [reflexivity|].
  apply quiet_reads.
Qed.

Lemma quiet_generateCommitMessage (w : World) (token : jsval)
    (filesContent diff : jsstring) (types : jsval) :
  appends quiet (generateCommitMessage w token filesContent diff types).
Proof.
  unfold generateCommitMessage.
  destruct (anthropic w token) as [create|]; [|auto with quiet].
  apply appends_bind_quiet; [auto with quiet|]. intros t.
  apply appends_bind_quiet; [auto with quiet|]. intros _.
  destruct (create _) as [e|[|[text|] rest]]; auto with quiet.
Qed.

#[export] Hint Resolve quiet_promptSetup quiet_promptConfirm quiet_loadConfig
  quiet_saveConfig quiet_setup quiet_getStagedFilesAndDiff
  quiet_getFilesContent quiet_generateCommitMessage : quiet.

Lemma approved_after_quiet (w : World) (a b : list event) :
  quiet a -> approved w b -> approved w (a ++ b).
Proof.
  intros Ha [Hb | (pre & q & msg & tail & -> & Hc & Hpre & Htail)].
  - left. apply quiet_app; assumption.
  - right. exists (a ++ pre), q, msg, tail. rewrite <- app_assoc.
    auto using quiet_app.
Qed.

Lemma appends_bind_approved {A B : Type} (w : World) (m : M A) (k : A -> M B) :
  appends quiet m -> (forall a, appends (approved w) (k a)) ->
  appends (approved w) (bind m k).
Proof.
  apply appends_bind.
  - intros a b; apply approved_after_quiet.
  - intros a Ha; left; exact Ha.
Qed.

Lemma appends_quiet_approved {A : Type} (w : World) (m : M A) :
  appends quiet m -> appends (approved w) m.
Proof. apply appends_weaken. intros evs H; left; exact H. Qed.

Lemma makeCommit_unfold (w : World) (message : jsstring) (sign : option bool) :
  makeCommit w message sign
  = (r <- exec w (commitCommand message sign) ;;
     match error r with
     | Some message => throw (Reason (str "Error making commit: " ++ message))
     | None =>
         (if truthy (stderr r) then
            console_warn
              (chalk Yellow (str "Warning while making commit: " ++ stderr r))
          else ret tt) ;;
         ret (stdout r)
     end).
Proof. reflexivity. Qed.

Lemma makeCommit_events (w : World) (message : jsstring) (sign : option bool)
    (st : State) :
  exists tail,
    trace (snd (makeCommit w message sign st))
    = trace st ++ Exec (commitCommand message sign) :: tail
    /\ quiet tail.
Proof.
  rewrite makeCommit_unfold. generalize (commitCommand message sign) as c.
  intros c. unfold exec, bind, emit, ret, throw, console_warn. simpl.
  destruct (error (child_process w c)).
  - exists []. split; reflexivity.
  - destruct (truthy (stderr (child_process w c))).
    + eexists [_]. simpl. rewrite <- app_assoc. split; reflexivity.
    + exists []. split; reflexivity.
Qed.

(** The end of [defaultCommand], from the confirmation question on. *)
Lemma review_approved (w : World) (question message : jsstring) :
  appends (approved w)
    (confirmCommit <- promptConfirm w question ;;
     if confirmCommit then
       makeCommit w message (argv_S (argv w)) ;;
       console_log (chalk Green (str "Commit successfully made."))
     else
       console_log (chalk Yellow (str "Commit cancelled."))).
Proof.
  intros st. unfold promptConfirm.
  unfold bind at 1. unfold bind at 1. unfold emit at 1.
  destruct (confirm (user w)) as [[|]|] eqn:Ec.
  - (* yes *)
    cbn [ret]. unfold bind at 1.
    match goal with
    | |- context [makeCommit w message ?s ?st1] =>
        destruct (makeCommit_events w message s st1) as (tail & E & Ht);
        destruct (makeCommit w message s st1) as [[out|err] st2]
    end; cbn [snd trace] in E.
    + eexists. split.
      * unfold console_log, emit. cbn [snd trace]. rewrite E.
        rewrite <- !app_assoc. reflexivity.
      * right. exists [], question, message, (tail ++ [ConsoleLog (chalk Green (str "Commit successfully made."))]).
        repeat split; auto using quiet_nil.
        apply quiet_app; [exact Ht | reflexivity].
    + eexists. split.
      * cbn [snd trace]. rewrite E. rewrite <- !app_assoc. reflexivity.
      * right. exists [], question, message, tail.
        repeat split; auto using quiet_nil.
  - (* no *)
    eexists. split.
    + unfold ret, console_log, emit. cbn [snd trace].
      rewrite <- app_assoc. reflexivity.
    + left. reflexivity.
  - (* the prompt is left *)
    eexists. split; [reflexivity|]. left. reflexivity.
Qed.

Lemma defaultCommand_approved (w : World) : appends (approved w) (defaultCommand w).
Proof.
  unfold defaultCommand.
  apply appends_bind_approved; [auto with quiet|]. intros _.
  apply appends_bind_approved; [auto 6 with quiet|]. intros found.
  destruct found; cbn [negb]; [|apply appends_quiet_approved; auto with quiet].
  apply appends_bind_approved; [auto with quiet|]. intros config.
  apply appends_bind_approved; [auto with quiet|]. intros provider.
  destruct (negb _); [apply appends_quiet_approved; auto with quiet|].
  apply appends_bind_approved; [auto with quiet|]. intros [stagedFiles diff].
  destruct (nothingStaged stagedFiles);
    [apply appends_quiet_approved; auto with quiet|].
  apply appends_bind_approved; [auto with quiet|]. intros filesContent.
  apply appends_bind_approved; [auto with quiet|]. intros token.
  apply appends_bind_approved; [auto with quiet|]. intros types.
  apply appends_bind_approved; [auto with quiet|]. intros generated.
  apply appends_bind_approved; [auto with quiet|]. intros _.
  apply appends_bind_approved; [auto with quiet|]. intros _.
  apply appends_bind_approved; [auto with quiet|]. intros commitMessage.
  apply appends_bind_approved; [auto with quiet|]. intros _.
  apply appends_bind_approved.
  { destruct (0 <? _)%nat; auto with quiet. }
  intros _.
  apply appends_bind_approved; [auto with quiet|]. intros _.
  apply review_approved.
Qed.

Lemma cli_approved (w : World) : appends (approved w) (cli w).
Proof.
  unfold cli. destruct (match argv_setup (argv w) with Some b => b | None => false end).
  - apply appends_quiet_approved. apply quiet_setup.
  - apply defaultCommand_approved.
Qed.

(** In a list with one invocation of the commit operation, that
    invocation is found at one place only. *)
Lemma commit_event_unique (a b a' b' : list event) (e e' : event) :
  quiet a -> quiet b -> commitEvent e' = true ->
  a ++ e :: b = a' ++ e' :: b' ->
  a = a' /\ e = e' /\ b = b'.
Proof.
  revert a'. induction a as [|x a IH]; intros [|y a'] Ha Hb He' E; simpl in E.
  - injection E as -> ->. auto.
  - injection E as -> ->. apply quiet_app_inv in Hb. destruct Hb as [_ Hb].
    apply quiet_cons_inv in Hb. destruct Hb as [Hb _]. congruence.
  - injection E as -> _. apply quiet_cons_inv in Ha. destruct Ha as [Ha _].
    congruence.
  - injection E as -> E. apply quiet_cons_inv in Ha. destruct Ha as [_ Ha].
    destruct (IH a' Ha Hb He' E) as (-> & -> & ->). auto.
Qed.

Ltac run :=
  cbv beta iota zeta delta
    [bind try_catch loadConfig fs_access fs_readFile fs_writeFile emit ret
     throw console_log console_warn exec JSON_parse orTypeError fs trace init
     fst snd negb promptConfirm promptSetup saveConfig];
  cbn [app].

Ltac step H := rewrite H; run.

Lemma failed_false (r : ExecResult) :
  failed r = false -> error r = None /\ truthy (stderr r) = false.
Proof. unfold failed. destruct (error r); [discriminate | auto]. Qed.

(** The flow up to the nothing-staged test. *)
Lemma defaultCommand_queries (w : World) (files : jsstring -> fnode)
    (config : jsval) (paths : list jsstring) (diff : jsstring) :
  configured w files config -> staged w paths diff ->
  nothingStaged paths = true ->
  defaultCommand w (init files)
  = (Fulfilled tt,
     {| fs := files;
        trace := queryEvents w
                 ++ [ConsoleLog
                       (chalk Yellow
                          (str "No files in staging. Add files before committing."))] |}).
Proof.
  intros (text & Hfile & Hparse & Hprov) (Hq1 & Hq2 & Hpaths & Hdiff) Hnone.
  apply failed_false in Hq1, Hq2. destruct Hq1 as [He1 Hs1], Hq2 as [He2 Hs2].
  unfold defaultCommand, getStagedFilesAndDiff. run.
  step Hfile. step Hfile. step Hparse. step Hprov. step jseq_refl.
  fold stagedQuery diffQuery. step He1. step Hs1. step He2. step Hs2.
  rewrite <- Hpaths, Hnone.
  reflexivity.
Qed.

(** The flow up to the confirmation question. *)
Lemma defaultCommand_review (w : World) (files : jsstring -> fnode)
    (config : jsval) (paths : list jsstring) (diff : jsstring)
    (content : jsstring -> jsstring) (request : event) (message : jsstring) :
  configured w files config -> staged w paths diff ->
  nothingStaged paths = false -> readable files paths content ->
  generates w config
    (List.concat (List.map (fun p => labeledBlock p (content p)) paths))
    diff request message ->
  defaultCommand w (init files)
  = review w message
      {| fs := files;
         trace := queryEvents w ++ List.map FsReadFile paths
                  ++ [request] ++ displayEvents message |}.
Proof.
  intros (text & Hfile & Hparse & Hprov) (Hq1 & Hq2 & Hpaths & Hdiff) Hsome
    Hread (token & types & create & rendered & rest & Htoken & Htypes & Hnew
           & Hrender & -> & Hcreate).
  apply failed_false in Hq1, Hq2. destruct Hq1 as [He1 Hs1], Hq2 as [He2 Hs2].
  unfold defaultCommand, getStagedFilesAndDiff. run.
  step Hfile. step Hfile. step Hparse. step Hprov. step jseq_refl.
  fold stagedQuery diffQuery. step He1. step Hs1. step He2. step Hs2.
  rewrite <- Hpaths, <- Hdiff. step Hsome.
  unfold getFilesContent. rewrite (getFilesContent_from_readable content).
  2: exact Hread.
  run. step Htoken. step Htypes.
  unfold generateCommitMessage. step Hnew. step Hrender. step Hcreate.
  unfold review, displayEvents, queryEvents.
  destruct (0 <? _)%nat; run; repeat rewrite <- app_assoc; reflexivity.
Qed.

(** ** The commit is approved *)

(** C1.  In every run of the command-line tool, whatever the flags, the
    files, the tools and the user, an invocation of the commit operation
    comes right after the confirmation question, answered with yes; it is
    the only invocation of the run. *)
Theorem commit_only_after_approval (w : World) (files : jsstring -> fnode)
    (before after : list event) (command : jsstring) :
  trace (snd (cli w (init files))) = before ++ Exec command :: after ->
  isCommit command = true ->
  confirm (user w) = Some true
  /\ exists earlier question,
       before = earlier ++ [PromptConfirm question (Some true)]
       /\ quiet earlier /\ quiet after.
Proof.
  intros Htrace Hcommit.
  destruct (cli_approved w (init files)) as (evs & E & Hshape).
  cbn [init trace app] in E. rewrite E in Htrace. clear E.
  destruct Hshape as [Hq | (pre & q & msg & tail & -> & Hc & Hpre & Htail)].
  - rewrite Htrace in Hq. apply quiet_app_inv in Hq. destruct Hq as [_ Hq].
    apply quiet_cons_inv in Hq. destruct Hq as [Hq _]. simpl in Hq. congruence.
  - split; [exact Hc|].
    change (pre ++ PromptConfirm q (Some true)
              :: Exec (commitCommand msg (argv_S (argv w))) :: tail)
      with (pre ++ [PromptConfirm q (Some true)]
              ++ Exec (commitCommand msg (argv_S (argv w))) :: tail) in Htrace.
    rewrite app_assoc in Htrace.
    apply commit_event_unique in Htrace; auto.
    + destruct Htrace as (<- & _ & <-). eauto.
    + apply quiet_app; [exact Hpre | reflexivity].
Qed.

Lemma commit_only_after_approval_witness :
  let w := scenario_world None (Some true) in
  let t := trace (snd (cli w (init (scenario_store scenario_text)))) in
  let command := commitCommand scenario_message None in
  (t = firstn 14 t ++ Exec command :: skipn 15 t /\ isCommit command = true)
  /\ (confirm (user w) = Some true
      /\ exists earlier question,
           firstn 14 t = earlier ++ [PromptConfirm question (Some true)]
           /\ quiet earlier /\ quiet (skipn 15 t)).
Proof.
  intros w t command.
  assert (H1 : t = firstn 14 t ++ Exec command :: skipn 15 t)
    by (vm_compute; reflexivity).
  assert (H2 : isCommit command = true) by (vm_compute; reflexivity).
  split; [split; assumption|].
  exact (commit_only_after_approval w (scenario_store scenario_text)
           (firstn 14 t) (skipn 15 t) command H1 H2).
Defined.

(** ** The review *)

Lemma makeCommit_run (w : World) (message : jsstring) (sign : option bool)
    (st : State) :
  makeCommit w message sign st
  = let r := child_process w (commitCommand message sign) in
    let asked := trace st ++ [Exec (commitCommand message sign)] in
    match error r with
    | Some m =>
        (Rejected (Reason (str "Error making commit: " ++ m)),
         {| fs := fs st; trace := asked |})
    | None =>
        (Fulfilled (stdout r),
         {| fs := fs st;
            trace := asked
                     ++ (if truthy (stderr r)
                         then [ConsoleWarn
                                 (chalk Yellow
                                    (str "Warning while making commit: "
                                       ++ stderr r))]
                         else []) |})
    end.
Proof.
  rewrite makeCommit_unfold. generalize (commitCommand message sign) as c.
  intros c. run.
  destruct (error (child_process w c)); [reflexivity|].
  destruct (truthy (stderr (child_process w c))); run.
  - reflexivity.
  - rewrite app_nil_r. reflexivity.
Qed.

Lemma review_yes (w : World) (message : jsstring) (st : State) :
  confirm (user w) = Some true ->
  exists after,
    trace (snd (review w message st))
    = trace st
      ++ [PromptConfirm (str "Do you want to use this message?") (Some true);
          Exec (commitCommand message (argv_S (argv w)))]
      ++ after
    /\ quiet after.
Proof.
  intros Hyes. unfold review, promptConfirm. rewrite Hyes.
  unfold bind, emit, ret, console_log. cbn [fs trace].
  rewrite makeCommit_run. cbv zeta. cbn [fs trace].
  destruct (error (child_process w (commitCommand message (argv_S (argv w))))).
  - exists []. cbn [snd trace]. rewrite <- !app_assoc. split; reflexivity.
  - cbn [snd trace fs].
    destruct (truthy (stderr (child_process w (commitCommand message (argv_S (argv w)))))).
    + eexists [_; _]. unfold emit. cbn [snd trace fs].
      rewrite <- !app_assoc. split; reflexivity.
    + eexists [_]. unfold emit. cbn [snd trace fs].
      rewrite <- !app_assoc. split; reflexivity.
Qed.

Lemma review_no (w : World) (message : jsstring) (st : State) :
  confirm (user w) = Some false ->
  review w message st
  = (Fulfilled tt,
     {| fs := fs st;
        trace := trace st
                 ++ [PromptConfirm (str "Do you want to use this message?")
                       (Some false);
                     ConsoleLog (chalk Yellow (str "Commit cancelled."))] |}).
Proof.
  intros Hno. unfold review. run. step Hno. rewrite <- app_assoc. reflexivity.
Qed.

(** The command line of an approved commit.  When the flow reaches the
    review with the generated text [message] and the user approves, the
    trace holds the confirmation and, right after it, the one invocation
    of the commit operation: the command line
    [git commit [-S ]-m "<message>"] with the generated text between the
    quotes; what was shown as subject and body plays no part in it.  What
    the shell makes of the text between the quotes is another matter. *)
Theorem approved_message_committed_verbatim (w : World)
    (files : jsstring -> fnode) (config : jsval) (paths : list jsstring)
    (diff : jsstring) (content : jsstring -> jsstring) (request : event)
    (message : jsstring) :
  configured w files config -> staged w paths diff ->
  nothingStaged paths = false -> readable files paths content ->
  generates w config
    (List.concat (List.map (fun p => labeledBlock p (content p)) paths))
    diff request message ->
  confirm (user w) = Some true ->
  exists before after,
    trace (snd (defaultCommand w (init files)))
    = before
      ++ [PromptConfirm (str "Do you want to use this message?") (Some true);
          Exec (str "git commit "
                ++ (if match argv_S (argv w) with Some b => b | None => false end
                    then str "-S " else [])
                ++ str "-m " ++ [DQUOTE] ++ message ++ [DQUOTE])]
      ++ after
    /\ quiet before /\ quiet after.
Proof.
  intros Hcfg Hst Hsome Hread Hgen Hyes.
  rewrite (defaultCommand_review Hcfg Hst Hsome Hread Hgen).
  destruct (review_yes w message
              {| fs := files;
                 trace := queryEvents w ++ List.map FsReadFile paths
                          ++ [request] ++ displayEvents message |} Hyes)
    as (after & E & Hafter).
  eexists _, after. split; [exact E|]. split; [|exact Hafter].
  cbn [trace]. apply quiet_app; [reflexivity|].
  apply quiet_app; [apply quiet_reads|].
  destruct Hgen as (token & types & create & rendered & rest & _ & _ & _ & _
                    & -> & _).
  apply quiet_app; [reflexivity|].
  unfold displayEvents. destruct (0 <? _)%nat; reflexivity.
Qed.

Lemma scenario_configured (setupFlag answer : option bool) :
  configured (scenario_world setupFlag answer) (scenario_store scenario_text)
    (jsConfiguration scenario_config).
Proof.
  exists scenario_text. repeat split; vm_compute; reflexivity.
Qed.

Lemma scenario_staged (setupFlag answer : option bool) :
  staged (scenario_world setupFlag answer) [str "a.js"] (str "+console.log(1)").
Proof. repeat split; vm_compute; reflexivity. Qed.

Lemma scenario_readable :
  readable (scenario_store scenario_text) [str "a.js"]
    (fun _ => str "console.log(1)" ++ [LF]).
Proof.
  intros p [<- | []]. vm_compute. reflexivity.
Qed.

Lemma scenario_generates (setupFlag answer : option bool) :
  generates (scenario_world setupFlag answer) (jsConfiguration scenario_config)
    (List.concat
       (List.map (fun p => labeledBlock p (str "console.log(1)" ++ [LF]))
          [str "a.js"]))
    (str "+console.log(1)") scenario_request scenario_message.
Proof.
  exists (VStr (str "sk-test")),
    (VArr [jsCommitType (defaultType "feat" "A new feature" true)]),
    (fun _ => inr [TextBlock scenario_message]),
    (str "- feat: A new feature"), [].
  repeat split; vm_compute; reflexivity.
Qed.

Lemma approved_message_committed_verbatim_witness :
  exists before after,
    trace (snd (defaultCommand (scenario_world None (Some true))
                  (init (scenario_store scenario_text))))
    = before
      ++ [PromptConfirm (str "Do you want to use this message?") (Some true);
          Exec (str "git commit " ++ [] ++ str "-m " ++ [DQUOTE]
                  ++ scenario_message ++ [DQUOTE])]
      ++ after
    /\ quiet before /\ quiet after.
Proof.
  exact (approved_message_committed_verbatim
           (scenario_configured None (Some true))
           (scenario_staged None (Some true))
           eq_refl scenario_readable
           (scenario_generates None (Some true)) eq_refl).
Defined.

(** C2.  The generated text is not always what is committed.  The
    service answers with the message [fix: handle "quoted" names] and the
    user approves: the run is fulfilled and invokes the commit operation
    once, after the confirmation, with the message between the quotes of
    the command line; the shell ends the quoted text at the first quote
    of the message, and the message that the commit operation receives
    is [fix: handle quoted names]. *)
Theorem quoted_message_reaches_git_changed :
  let w := service_world (fun _ => inr [TextBlock quoted_message]) in
  let command :=
    str "git commit -m " ++ [DQUOTE] ++ quoted_message ++ [DQUOTE] in
  let run := cli w (init (scenario_store scenario_text)) in
  fst run = Fulfilled tt
  /\ (exists before after,
        trace (snd run)
        = before
          ++ [PromptConfirm (str "Do you want to use this message?")
                (Some true);
              Exec command]
          ++ after
        /\ quiet before /\ quiet after)
  /\ Sh.words command
     = Some [str "git"; str "commit"; str "-m"; unquoted_message]
  /\ unquoted_message <> quoted_message.
Proof.
  intros w command run.
  split; [vm_compute; reflexivity|].
  split.
  - exists (firstn 11 (trace (snd run))), (skipn 13 (trace (snd run))).
    repeat split; vm_compute; reflexivity.
  - split; [vm_compute; reflexivity|].
    intros E. vm_compute in E. discriminate E.
Qed.

(** ** Nothing staged *)

(** C4.  When the configuration is in place, both queries succeed and the
    staged-path list is empty or is the single empty string, the command
    is fulfilled and its whole trace is: the opening line, the check and
    the reading of the configuration file, the two queries and the
    nothing-staged notice.  No staged file is read, no request is built
    or sent, nothing is committed. *)
Theorem nothing_staged_short_circuit (w : World) (files : jsstring -> fnode)
    (config : jsval) (paths : list jsstring) (diff : jsstring) :
  configured w files config -> staged w paths diff ->
  paths = [] \/ paths = [[]] ->
  defaultCommand w (init files)
  = (Fulfilled tt,
     {| fs := files;
        trace :=
          [ConsoleLog (chalk Blue (str "Executing commit..."));
           FsAccess (getGlobalConfigPath w);
           FsReadFile (getGlobalConfigPath w);
           Exec (str "git diff --cached --name-only");
           Exec (str "git diff --cached");
           ConsoleLog
             (chalk Yellow
                (str "No files in staging. Add files before committing."))] |}).
Proof.
  intros Hcfg Hst Hnone.
  apply (defaultCommand_queries Hcfg Hst).
  destruct Hnone as [-> | ->]; reflexivity.
Qed.

Lemma idle_configured :
  configured idle_world (scenario_store scenario_text)
    (jsConfiguration scenario_config).
Proof. exists scenario_text. repeat split; vm_compute; reflexivity. Qed.

Lemma idle_staged : staged idle_world [[]] [].
Proof. repeat split; vm_compute; reflexivity. Qed.

Lemma nothing_staged_short_circuit_witness :
  defaultCommand idle_world (init (scenario_store scenario_text))
  = (Fulfilled tt,
     {| fs := scenario_store scenario_text;
        trace :=
          [ConsoleLog (chalk Blue (str "Executing commit..."));
           FsAccess (getGlobalConfigPath idle_world);
           FsReadFile (getGlobalConfigPath idle_world);
           Exec (str "git diff --cached --name-only");
           Exec (str "git diff --cached");
           ConsoleLog
             (chalk Yellow
                (str "No files in staging. Add files before committing."))] |}).
Proof.
  exact (nothing_staged_short_circuit idle_configured idle_staged
           (or_intror eq_refl)).
Defined.

(** C10.  The path list that the staged-files query returns is never
    empty: it is the trimmed output cut at the line breaks, which has at
    least one piece.  The length test of the nothing-staged check is
    therefore never the one that decides: the check is the test of the
    first path being the empty string, and it holds exactly when the list
    is the single empty string, as it is when the tool prints nothing. *)
Theorem staged_paths_never_empty (w : World) (st st' : State)
    (paths : list jsstring) (diff : jsstring) :
  getStagedFilesAndDiff w st = (Fulfilled (paths, diff), st') ->
  paths <> []
  /\ (List.length paths =? 0)%nat = false
  /\ nothingStaged paths = jseq (hd [] paths) []
  /\ (nothingStaged paths = true <-> paths = [[]])
  /\ (trim (stdout (child_process w (str "git diff --cached --name-only"))) = []
      -> paths = [[]]).
Proof.
  intros H. apply getStagedFilesAndDiff_files in H. destruct H as [-> _].
  unfold stagedQuery.
  set (out := stdout (child_process w (str "git diff --cached --name-only"))).
  split; [apply split_nonempty|].
  split.
  { destruct (split_cons_inv LF (trim out)) as (x & xs & ->). reflexivity. }
  split; [apply nothingStaged_split|].
  split; [apply nothingStaged_iff|].
  intros ->. reflexivity.
Qed.

Lemma staged_paths_never_empty_witness :
  let paths : list jsstring := [[]] in
  getStagedFilesAndDiff idle_world (init (fun _ => Absent))
  = (Fulfilled (paths, []),
     {| fs := fun _ => Absent; trace := [Exec stagedQuery; Exec diffQuery] |})
  /\ (paths <> []
      /\ (List.length paths =? 0)%nat = false
      /\ nothingStaged paths = jseq (hd [] paths) []
      /\ (nothingStaged paths = true <-> paths = [[]])
      /\ (trim (stdout (child_process idle_world
                          (str "git diff --cached --name-only"))) = []
          -> paths = [[]])).
Proof.
  intros paths.
  assert (H : getStagedFilesAndDiff idle_world (init (fun _ => Absent))
              = (Fulfilled (paths, []),
                 {| fs := fun _ => Absent;
                    trace := [Exec stagedQuery; Exec diffQuery] |}))
    by reflexivity.
  split; [exact H|].
  exact (staged_paths_never_empty idle_world (init (fun _ => Absent)) H).
Defined.

(** ** The collected contents *)

(** C5.  For staged paths that are all readable, the collected string is
    the concatenation of the labeled blocks [File: <path>\n<content>\n\n],
    one per path, in the order of the list; the only actions are the
    readings of the files, in that order. *)
Theorem collected_contents_are_labeled_blocks (paths : list jsstring)
    (content : jsstring -> jsstring) (st : State) :
  readable (fs st) paths content ->
  let blocks :=
    List.map (fun p => str "File: " ++ p ++ [LF] ++ content p ++ [LF; LF])
      paths in
  getFilesContent paths st
  = (Fulfilled (List.concat blocks),
     {| fs := fs st; trace := trace st ++ List.map FsReadFile paths |})
  /\ List.length blocks = List.length paths.
Proof.
  intros Hread blocks. split.
  - unfold getFilesContent.
    rewrite (getFilesContent_from_readable content paths [] st Hread).
    reflexivity.
  - apply length_map.
Qed.

Lemma collected_contents_are_labeled_blocks_witness :
  readable (fs (init (scenario_store []))) [str "a.js"; str "a.js"]
    (fun _ => str "console.log(1)" ++ [LF])
  /\ getFilesContent [str "a.js"; str "a.js"] (init (scenario_store []))
     = (Fulfilled
          (str "File: a.js" ++ [LF] ++ str "console.log(1)" ++ [LF; LF; LF]
             ++ str "File: a.js" ++ [LF] ++ str "console.log(1)"
             ++ [LF; LF; LF]),
        {| fs := scenario_store [];
           trace := [FsReadFile (str "a.js"); FsReadFile (str "a.js")] |}).
Proof.
  assert (Hread : readable (fs (init (scenario_store [])))
                    [str "a.js"; str "a.js"]
                    (fun _ => str "console.log(1)" ++ [LF])).
  { intros p [<- | [<- | []]]; vm_compute; reflexivity. }
  split; [exact Hread|].
  exact (proj1 (@collected_contents_are_labeled_blocks _ _ _ Hread)).
Defined.

(** ** Diagnostic output *)

Lemma getStagedFilesAndDiff_failed (w : World) (st : State) :
  (failed (child_process w stagedQuery) = true ->
   exists reason,
     getStagedFilesAndDiff w st
     = (Rejected (Reason (str "Error getting staged files: " ++ reason)),
        {| fs := fs st; trace := trace st ++ [Exec stagedQuery] |}))
  /\ (failed (child_process w stagedQuery) = false ->
      failed (child_process w diffQuery) = true ->
      exists reason,
        getStagedFilesAndDiff w st
        = (Rejected (Reason (str "Error getting diff: " ++ reason)),
           {| fs := fs st;
              trace := trace st ++ [Exec stagedQuery; Exec diffQuery] |})).
Proof.
  unfold failed, getStagedFilesAndDiff. fold stagedQuery diffQuery. run.
  split.
  - destruct (error (child_process w stagedQuery)) as [m|]; intros H.
    + exists m. reflexivity.
    + rewrite H. exists (stderr (child_process w stagedQuery)). reflexivity.
  - destruct (error (child_process w stagedQuery)) as [m|]; [discriminate|].
    intros ->. run.
    destruct (error (child_process w diffQuery)) as [m|]; intros H.
    + exists m. rewrite <- app_assoc. reflexivity.
    + rewrite H. exists (stderr (child_process w diffQuery)).
      rewrite <- app_assoc. reflexivity.
Qed.

Lemma defaultCommand_query_failed (w : World) (files : jsstring -> fnode)
    (config : jsval) :
  configured w files config ->
  failed (child_process w stagedQuery) = true
  \/ failed (child_process w diffQuery) = true ->
  exists reason, fst (defaultCommand w (init files)) = Rejected (Reason reason).
Proof.
  intros (text & Hfile & Hparse & Hprov) Hfail.
  unfold defaultCommand. run.
  step Hfile. step Hfile. step Hparse. step Hprov. step jseq_refl.
  match goal with
  | |- context [getStagedFilesAndDiff w ?s] =>
      destruct (getStagedFilesAndDiff_failed w s) as [H1 H2];
      destruct (failed (child_process w stagedQuery)) eqn:E1;
      [ destruct (H1 eq_refl) as [reason ->]
      | destruct Hfail as [Hfail | Hfail]; [discriminate|];
        destruct (H2 eq_refl Hfail) as [reason ->] ]
  end; eexists; reflexivity.
Qed.

Lemma review_commit_run (w : World) (message : jsstring) (st : State) :
  confirm (user w) = Some true ->
  review w message st
  = let r := child_process w (commitCommand message (argv_S (argv w))) in
    let asked :=
      trace st
      ++ [PromptConfirm (str "Do you want to use this message?") (Some true);
          Exec (commitCommand message (argv_S (argv w)))] in
    match error r with
    | Some m =>
        (Rejected (Reason (str "Error making commit: " ++ m)),
         {| fs := fs st; trace := asked |})
    | None =>
        (Fulfilled tt,
         {| fs := fs st;
            trace :=
              asked
              ++ (if truthy (stderr r)
                  then [ConsoleWarn
                          (chalk Yellow
                             (str "Warning while making commit: " ++ stderr r))]
                  else [])
              ++ [ConsoleLog (chalk Green (str "Commit successfully made."))] |})
    end.
Proof.
  intros Hyes. unfold review, promptConfirm. rewrite Hyes.
  unfold bind, emit, ret, console_log. cbn [fs trace].
  rewrite makeCommit_run. cbv zeta. cbn [fs trace].
  destruct (error (child_process w (commitCommand message (argv_S (argv w))))).
  - rewrite <- !app_assoc. reflexivity.
  - unfold emit. cbn [fs trace]. rewrite <- !app_assoc. reflexivity.
Qed.

(** C6.  A query of the change collector that reports an error or
    writes diagnostic output rejects with an [Error getting ...] reason,
    and with it the whole command; the commit invocation that writes
    diagnostic output without an error only logs a warning, after which
    the commit is reported as made; it rejects, with
    [Error making commit: ...], only on an error. *)
Theorem diagnostic_output_asymmetry (w : World) (files : jsstring -> fnode)
    (config : jsval) (st : State) (message : jsstring) :
  (failed (child_process w stagedQuery) = true ->
   exists reason,
     getStagedFilesAndDiff w st
     = (Rejected (Reason (str "Error getting staged files: " ++ reason)),
        {| fs := fs st; trace := trace st ++ [Exec stagedQuery] |}))
  /\ (failed (child_process w stagedQuery) = false ->
      failed (child_process w diffQuery) = true ->
      exists reason,
        getStagedFilesAndDiff w st
        = (Rejected (Reason (str "Error getting diff: " ++ reason)),
           {| fs := fs st;
              trace := trace st ++ [Exec stagedQuery; Exec diffQuery] |}))
  /\ (configured w files config ->
      failed (child_process w stagedQuery) = true
      \/ failed (child_process w diffQuery) = true ->
      exists reason,
        fst (defaultCommand w (init files)) = Rejected (Reason reason))
  /\ (confirm (user w) = Some true ->
      let r := child_process w (commitCommand message (argv_S (argv w))) in
      let asked :=
        trace st
        ++ [PromptConfirm (str "Do you want to use this message?") (Some true);
            Exec (commitCommand message (argv_S (argv w)))] in
      (error r = None ->
       review w message st
       = (Fulfilled tt,
          {| fs := fs st;
             trace :=
               asked
               ++ (if truthy (stderr r)
                   then [ConsoleWarn
                           (chalk Yellow
                              (str "Warning while making commit: "
                                 ++ stderr r))]
                   else [])
               ++ [ConsoleLog
                     (chalk Green (str "Commit successfully made."))] |}))
      /\ (forall m, error r = Some m ->
          review w message st
          = (Rejected (Reason (str "Error making commit: " ++ m)),
             {| fs := fs st; trace := asked |}))).
Proof.
  destruct (getStagedFilesAndDiff_failed w st) as [H1 H2].
  split; [exact H1|]. split; [exact H2|].
  split; [apply defaultCommand_query_failed|].
  intros Hyes r asked. rewrite (review_commit_run w message st Hyes).
  cbv zeta. subst r asked. split.
  - intros E. rewrite E. reflexivity.
  - intros m E. rewrite E. reflexivity.
Qed.

Lemma diagnostic_output_asymmetry_witness :
  let files := scenario_store scenario_text in
  let config := jsConfiguration scenario_config in
  let asked :=
    [PromptConfirm (str "Do you want to use this message?") (Some true);
     Exec (commitCommand scenario_message None)] in
  (exists reason,
     getStagedFilesAndDiff failing_world (init files)
     = (Rejected (Reason (str "Error getting staged files: " ++ reason)),
        {| fs := files; trace := [Exec stagedQuery] |}))
  /\ (exists reason,
        getStagedFilesAndDiff diff_failing_world (init files)
        = (Rejected (Reason (str "Error getting diff: " ++ reason)),
           {| fs := files; trace := [Exec stagedQuery; Exec diffQuery] |}))
  /\ (exists reason,
        fst (defaultCommand diff_failing_world (init files))
        = Rejected (Reason reason))
  /\ review (scenario_world None (Some true)) scenario_message (init files)
     = (Fulfilled tt,
        {| fs := files;
           trace :=
             asked
             ++ [ConsoleWarn
                   (chalk Yellow
                      (str "Warning while making commit: hint: hooks ran"));
                 ConsoleLog (chalk Green (str "Commit successfully made."))] |})
  /\ review commit_failing_world scenario_message (init files)
     = (Rejected
          (Reason (str "Error making commit: Command failed: git commit")),
        {| fs := files; trace := asked |}).
Proof.
  intros files config asked.
  assert (Hcfg : configured diff_failing_world files config).
  { exists scenario_text. repeat split; vm_compute; reflexivity. }
  destruct (diagnostic_output_asymmetry failing_world files config
              (init files) scenario_message) as (H1 & _).
  destruct (diagnostic_output_asymmetry diff_failing_world files config
              (init files) scenario_message) as (_ & H2 & H3 & _).
  destruct (diagnostic_output_asymmetry (scenario_world None (Some true))
              files config (init files) scenario_message) as (_ & _ & _ & H4).
  destruct (diagnostic_output_asymmetry commit_failing_world files config
              (init files) scenario_message) as (_ & _ & _ & H5).
  split; [exact (H1 eq_refl)|].
  split; [exact (H2 eq_refl eq_refl)|].
  split; [exact (H3 Hcfg (or_intror eq_refl))|].
  split; [exact (proj1 (H4 eq_refl) eq_refl)|].
  exact (proj2 (H5 eq_refl) _ eq_refl).
Defined.

(** ** Declining *)

Lemma cli_declined_quiet (w : World) (files : jsstring -> fnode) :
  confirm (user w) = Some false -> quiet (trace (snd (cli w (init files)))).
Proof.
  intros Hno.
  destruct (cli_approved w (init files)) as (evs & E & Hshape).
  cbn [init trace app] in E. rewrite E.
  destruct Hshape as [Hq | (pre & q & msg & tail & _ & Hc & _)].
  - exact Hq.
  - congruence.
Qed.

(** C8, as stated, at the message of the specification: the body that is
    shown is not ["body line"]. *)
Lemma review_body_keeps_blank_line :
  join [LF] (tl (split LF review_message)) <> str "body line".
Proof. vm_compute. discriminate. Qed.

(** C8, amended.  The text ["feat: add x\n\nbody line"] is cut at the
    line breaks into the subject ["feat: add x"] and the remaining lines
    [""] and ["body line"], which are shown rejoined as ["\nbody line"]:
    the blank line stays in the body.  When the user declines, no run
    invokes the commit operation, and the flow that reached the review
    ends, fulfilled, with the line [Commit cancelled.]. *)
Theorem review_split_and_decline (w : World) (files : jsstring -> fnode)
    (config : jsval) (paths : list jsstring) (diff : jsstring)
    (content : jsstring -> jsstring) (request : event) (message : jsstring) :
  (hd [] (split LF review_message) = str "feat: add x"
   /\ tl (split LF review_message) = [[]; str "body line"]
   /\ join [LF] (tl (split LF review_message)) = [LF] ++ str "body line")
  /\ (confirm (user w) = Some false ->
      quiet (trace (snd (cli w (init files)))))
  /\ (configured w files config -> staged w paths diff ->
      nothingStaged paths = false -> readable files paths content ->
      generates w config
        (List.concat (List.map (fun p => labeledBlock p (content p)) paths))
        diff request message ->
      confirm (user w) = Some false ->
      defaultCommand w (init files)
      = (Fulfilled tt,
         {| fs := files;
            trace :=
              (queryEvents w ++ List.map FsReadFile paths
                 ++ [request] ++ displayEvents message)
              ++ [PromptConfirm (str "Do you want to use this message?")
                    (Some false);
                  ConsoleLog (chalk Yellow (str "Commit cancelled."))] |})).
Proof.
  split; [repeat split; vm_compute; reflexivity|].
  split; [apply cli_declined_quiet|].
  intros Hcfg Hst Hsome Hread Hgen Hno.
  rewrite (defaultCommand_review Hcfg Hst Hsome Hread Hgen).
  rewrite (review_no _ _ _ Hno). reflexivity.
Qed.

Lemma review_split_and_decline_witness :
  quiet (trace (snd (cli (scenario_world None (Some false))
                       (init (scenario_store scenario_text)))))
  /\ defaultCommand (scenario_world None (Some false))
       (init (scenario_store scenario_text))
     = (Fulfilled tt,
        {| fs := scenario_store scenario_text;
           trace :=
             (queryEvents (scenario_world None (Some false))
                ++ List.map FsReadFile [str "a.js"]
                ++ [scenario_request] ++ displayEvents scenario_message)
             ++ [PromptConfirm (str "Do you want to use this message?")
                   (Some false);
                 ConsoleLog (chalk Yellow (str "Commit cancelled."))] |}).
Proof.
  destruct (review_split_and_decline
              (scenario_world None (Some false)) (scenario_store scenario_text)
              (jsConfiguration scenario_config) [str "a.js"]
              (str "+console.log(1)") (fun _ => str "console.log(1)" ++ [LF])
              scenario_request scenario_message) as (_ & Hquiet & Hrun).
  split.
  - exact (Hquiet eq_refl).
  - exact (Hrun (scenario_configured None (Some false))
             (scenario_staged None (Some false)) eq_refl scenario_readable
             (scenario_generates None (Some false)) eq_refl).
Defined.

(** ** A configuration that does not parse *)

(** C7, as stated, at a configuration file that is not JSON: the error is
    not turned into a message; the command is rejected. *)
Lemma corrupt_config_is_not_handled :
  ~ handled (cli (scenario_world None (Some true))
               (init (scenario_store corrupt_text))).
Proof.
  intros [H _]. vm_compute in H. discriminate H.
Qed.

(** C7, amended.  When the configuration file exists and its content is
    not valid JSON, parsing throws a SyntaxError that nothing catches:
    the command, and with it the run started without the setup flag, is
    rejected with it right after the file has been read, and prints
    nothing about it. *)
Theorem corrupt_config_is_rejected (w : World) (files : jsstring -> fnode)
    (text : jsstring) :
  files (getGlobalConfigPath w) = File text ->
  JSON.parse text = JSON.SyntaxError ->
  match argv_setup (argv w) with Some b => b | None => false end = false ->
  cli w (init files)
  = (Rejected JSONSyntaxError,
     {| fs := files;
        trace := [ConsoleLog (chalk Blue (str "Executing commit..."));
                  FsAccess (getGlobalConfigPath w);
                  FsReadFile (getGlobalConfigPath w)] |})
  /\ ~ handled (cli w (init files)).
Proof.
  intros Hfile Hparse Hflag.
  assert (E : cli w (init files)
              = (Rejected JSONSyntaxError,
                 {| fs := files;
                    trace := [ConsoleLog (chalk Blue (str "Executing commit..."));
                              FsAccess (getGlobalConfigPath w);
                              FsReadFile (getGlobalConfigPath w)] |})).
  { unfold cli. rewrite Hflag. unfold defaultCommand. run.
    step Hfile. step Hfile. step Hparse. reflexivity. }
  split; [exact E|]. rewrite E. intros [H _]. discriminate H.
Qed.

Lemma corrupt_config_is_rejected_witness :
  let w := scenario_world None (Some true) in
  let files := scenario_store corrupt_text in
  (files (getGlobalConfigPath w) = File corrupt_text
   /\ JSON.parse corrupt_text = JSON.SyntaxError)
  /\ cli w (init files)
     = (Rejected JSONSyntaxError,
        {| fs := files;
           trace := [ConsoleLog (chalk Blue (str "Executing commit..."));
                     FsAccess (getGlobalConfigPath w);
                     FsReadFile (getGlobalConfigPath w)] |}).
Proof.
  intros w files.
  assert (H1 : files (getGlobalConfigPath w) = File corrupt_text)
    by (vm_compute; reflexivity).
  assert (H2 : JSON.parse corrupt_text = JSON.SyntaxError)
    by (vm_compute; reflexivity).
  split; [split; assumption|].
  exact (proj1 (corrupt_config_is_rejected w files H1 H2 eq_refl)).
Defined.

(** ** The custom commit types *)

Lemma split_breakAt (sep : N) (s : jsstring) :
  split sep s
  = match breakAt sep s with
    | None => [s]
    | Some (a, r) => a :: split sep r
    end.
Proof.
  induction s as [|c s IH]; simpl; [reflexivity|].
  destruct (N.eqb c sep); [reflexivity|].
  rewrite IH. destruct (breakAt sep s) as [[a r]|]; reflexivity.
Qed.

Lemma filter_map_flat_map {A B : Type} (p : B -> bool) (f : A -> B)
    (l : list A) :
  List.filter p (List.map f l)
  = flat_map (fun a => if p (f a) then [f a] else []) l.
Proof.
  induction l as [|a l IH]; simpl; [reflexivity|].
  rewrite IH. destruct (p (f a)); reflexivity.
Qed.

Lemma customFilter_colon (input : jsstring) :
  customFilter input = colonCustomTypes input.
Proof.
  unfold customFilter, colonCustomTypes. rewrite filter_map_flat_map.
  apply flat_map_ext. intros pair. unfold colonCustomType.
  rewrite (split_breakAt COLON pair).
  destruct (breakAt COLON pair) as [[n rest]|].
  - rewrite (split_breakAt COLON rest).
    destruct (breakAt COLON rest) as [[d more]|];
      cbn [List.map nth nth_error name description truthy_opt]; reflexivity.
  - cbn [List.map nth nth_error name description truthy_opt].
    rewrite andb_false_r. reflexivity.
Qed.

Lemma stringify_object (props : list (jsstring * jsval)) :
  exists data, JSON.stringify (VObj props) = Some data.
Proof.
  unfold JSON.stringify. cbn [JSON.serialize].
  destruct (flat_map _ props); [eauto|].
  destruct (truthy (str "  ")); eauto.
Qed.

Lemma setup_run (w : World) (files : jsstring -> fnode) (token : jsstring)
    (types : list CommitType) (input : jsstring) :
  find validateToken (tokens (user w)) = Some token ->
  find validateTypes (List.map (checkbox typeChoices) (selections (user w)))
  = Some types ->
  customTypes (user w) = Some input ->
  files (getGlobalConfigPath w) <> Denied ->
  exists data,
    JSON.stringify
      (jsConfiguration
         {| aiProvider := str "Anthropic";
            apiToken := token;
            commitTypes := types ++ customFilter input |})
    = Some data
    /\ setup w (init files)
       = (Fulfilled tt,
          {| fs := fun p => if jseq p (getGlobalConfigPath w)
                            then File (toWellFormed data) else files p;
             trace :=
               [ConsoleLog (chalk Blue (str "Running setup..."));
                PromptSetup;
                FsWriteFile (getGlobalConfigPath w) data;
                ConsoleLog
                  (chalk Green
                     (str "Configuration saved in "
                        ++ getGlobalConfigPath w))] |}).
Proof.
  intros Htoken Htypes Hinput Hwrite.
  destruct (stringify_object
              [(str "aiProvider", VStr (str "Anthropic"));
               (str "apiToken", VStr token);
               (str "commitTypes",
                VArr (List.map jsCommitType (types ++ customFilter input)))])
    as [data Hdata].
  exists data. split; [exact Hdata|].
  unfold setup. run. step Htoken. step Htypes. step Hinput.
  unfold jsConfiguration.
  cbn [aiProvider apiToken commitTypes ans_aiProvider ans_apiToken
       ans_commitTypes ans_customCommitTypes].
  step Hdata.
  destruct (files (getGlobalConfigPath w)); [reflexivity | congruence | reflexivity].
Qed.

(** C3, as stated, at a pair with two colons: splitting on the first
    colon keeps what follows the second one, the program does not. *)
Lemma custom_type_with_two_colons :
  customFilter (str "build:ci:tweaks") <> specCustomTypes (str "build:ci:tweaks").
Proof. vm_compute. discriminate. Qed.

(** C3, amended.  The custom-type input is cut at the commas and each
    pair at its colons: the name is what stands before the first colon,
    the description what stands between the first colon and the second
    (or the end of the pair), both trimmed; a pair without a non-empty
    name or description is dropped.  The configuration that setup writes
    has, as its commit types, the selected defaults followed by the
    parsed custom types, in order. *)
Theorem custom_types_parsed_and_appended (w : World)
    (files : jsstring -> fnode) (token : jsstring) (types : list CommitType)
    (input : jsstring) :
  customFilter input = colonCustomTypes input
  /\ (find validateToken (tokens (user w)) = Some token ->
      find validateTypes
        (List.map (checkbox typeChoices) (selections (user w)))
      = Some types ->
      customTypes (user w) = Some input ->
      files (getGlobalConfigPath w) <> Denied ->
      (exists toggled,
         In toggled (selections (user w))
         /\ types = checkbox typeChoices toggled)
      /\ exists data,
           JSON.stringify
             (jsConfiguration
                {| aiProvider := str "Anthropic";
                   apiToken := token;
                   commitTypes := types ++ colonCustomTypes input |})
           = Some data
           /\ setup w (init files)
              = (Fulfilled tt,
                 {| fs := fun p => if jseq p (getGlobalConfigPath w)
                                   then File (toWellFormed data) else files p;
                    trace :=
                      [ConsoleLog (chalk Blue (str "Running setup..."));
                       PromptSetup;
                       FsWriteFile (getGlobalConfigPath w) data;
                       ConsoleLog
                         (chalk Green
                            (str "Configuration saved in "
                               ++ getGlobalConfigPath w))] |})).
Proof.
  split; [apply customFilter_colon|].
  intros Htoken Htypes Hinput Hwrite. split.
  - apply find_some in Htypes. destruct Htypes as [Hin _].
    apply in_map_iff in Hin. destruct Hin as (toggled & <- & Hin). eauto.
  - rewrite <- customFilter_colon.
    exact (setup_run w files Htoken Htypes Hinput Hwrite).
Qed.

Lemma custom_types_parsed_and_appended_witness :
  let w := scenario_world (Some true) None in
  let files : jsstring -> fnode := fun _ => Absent in
  exists data,
    JSON.stringify
      (jsConfiguration
         {| aiProvider := str "Anthropic";
            apiToken := str "sk-test";
            commitTypes :=
              [defaultType "feat" "A new feature" true;
               defaultType "fix" "A bug fix" true;
               {| name := str "build"; description := Some (str "ci tweaks");
                  checked := None |}] |})
    = Some data
    /\ setup w (init files)
       = (Fulfilled tt,
          {| fs := fun p => if jseq p (getGlobalConfigPath w)
                            then File (toWellFormed data) else files p;
             trace :=
               [ConsoleLog (chalk Blue (str "Running setup..."));
                PromptSetup;
                FsWriteFile (getGlobalConfigPath w) data;
                ConsoleLog
                  (chalk Green
                     (str "Configuration saved in "
                        ++ getGlobalConfigPath w))] |}).
Proof.
  intros w files.
  assert (Hwrite : files (getGlobalConfigPath w) <> Denied) by discriminate.
  exact (proj2 (proj2 (custom_types_parsed_and_appended w files
                         (str "sk-test")
                         [defaultType "feat" "A new feature" true;
                          defaultType "fix" "A bug fix" true]
                         (str "build:ci tweaks"))
                  eq_refl eq_refl eq_refl Hwrite)).
Defined.

(** ** JSON: a string literal is read back *)

Lemma hexValue_hexDigit (n : N) :
  (n < 16)%N -> JSON.hexValue (JSON.hexDigit n) = Some n.
Proof.
  intros H. unfold JSON.hexDigit, JSON.hexValue.
  destruct (n <? 10)%N eqn:E.
  - apply N.ltb_lt in E.
    replace ((48 <=? 48 + n)%N && (48 + n <=? 57)%N) with true
      by (symmetry; apply andb_true_iff; split; apply N.leb_le; lia).
    f_equal. lia.
  - apply N.ltb_ge in E.
    replace ((48 <=? 87 + n)%N && (87 + n <=? 57)%N) with false
      by (symmetry; apply andb_false_iff; right; apply N.leb_gt; lia).
    replace ((97 <=? 87 + n)%N && (87 + n <=? 102)%N) with true
      by (symmetry; apply andb_true_iff; split; apply N.leb_le; lia).
    f_equal. lia.
Qed.

Lemma hex_digits_sum (c : N) :
  (c < 65536)%N ->
  (4096 * ((c / 4096) mod 16) + 256 * ((c / 256) mod 16)
   + 16 * ((c / 16) mod 16) + c mod 16 = c)%N.
Proof.
  intros H.
  replace (c / 256)%N with (c / 16 / 16)%N
    by (rewrite N.Div0.div_div; reflexivity).
  replace (c / 4096)%N with (c / 16 / 16 / 16)%N
    by (rewrite !N.Div0.div_div; reflexivity).
  pose proof (N.div_mod c 16 ltac:(discriminate)) as E1.
  pose proof (N.div_mod (c / 16) 16 ltac:(discriminate)) as E2.
  pose proof (N.div_mod (c / 16 / 16) 16 ltac:(discriminate)) as E3.
  pose proof (N.div_mod (c / 16 / 16 / 16) 16 ltac:(discriminate)) as E4.
  pose proof (N.mod_lt c 16 ltac:(discriminate)).
  pose proof (N.mod_lt (c / 16) 16 ltac:(discriminate)).
  pose proof (N.mod_lt (c / 16 / 16) 16 ltac:(discriminate)).
  pose proof (N.mod_lt (c / 16 / 16 / 16) 16 ltac:(discriminate)).
  generalize dependent (c mod 16)%N.
  generalize dependent ((c / 16) mod 16)%N.
  generalize dependent ((c / 16 / 16) mod 16)%N.
  generalize dependent ((c / 16 / 16 / 16) mod 16)%N.
  generalize dependent (c / 16 / 16 / 16 / 16)%N.
  generalize dependent (c / 16 / 16 / 16)%N.
  generalize dependent (c / 16 / 16)%N.
  generalize dependent (c / 16)%N.
  intros. lia.
Qed.

Lemma unhex4_hex4 (c : N) :
  (c < 65536)%N ->
  match JSON.hex4 c with
  | [h1; h2; h3; h4] => JSON.unhex4 h1 h2 h3 h4 = Some c
  | _ => False
  end.
Proof.
  intros H. unfold JSON.hex4, JSON.unhex4.
  rewrite !hexValue_hexDigit by (apply N.mod_lt; discriminate).
  f_equal. apply hex_digits_sum. exact H.
Qed.

(** An escape [\uXXXX] is read back as the code unit. *)
Lemma parseString_unicodeEscape (c : N) (tail : jsstring) :
  (c < 65536)%N ->
  JSON.parseString (JSON.unicodeEscape c ++ tail)
  = JSON.consTo c (JSON.parseString tail).
Proof.
  intros H. pose proof (unhex4_hex4 H) as E.
  unfold JSON.unicodeEscape. destruct (JSON.hex4 c) as [|h1 [|h2 [|h3 [|h4 [|]]]]];
    try contradiction.
  cbn. rewrite E. reflexivity.
Qed.

Lemma not_surrogate_literal (c : N) (tail : jsstring) :
  (c =? 34)%N = false -> (c =? 92)%N = false -> (c <? 32)%N = false ->
  JSON.parseString (c :: tail) = JSON.consTo c (JSON.parseString tail).
Proof. intros H1 H2 H3. cbn. rewrite H1, H2, H3. reflexivity. Qed.

Lemma parseString_escapeUnit (c : N) (tail : jsstring) :
  JSON.isHighSurrogate c = false -> JSON.isLowSurrogate c = false ->
  JSON.parseString (JSON.escapeUnit c ++ tail)
  = JSON.consTo c (JSON.parseString tail).
Proof.
  intros Hh Hl. unfold JSON.escapeUnit.
  destruct (c =? 8)%N eqn:E8; [apply N.eqb_eq in E8; subst; reflexivity|].
  destruct (c =? 9)%N eqn:E9; [apply N.eqb_eq in E9; subst; reflexivity|].
  destruct (c =? 10)%N eqn:E10; [apply N.eqb_eq in E10; subst; reflexivity|].
  destruct (c =? 12)%N eqn:E12; [apply N.eqb_eq in E12; subst; reflexivity|].
  destruct (c =? 13)%N eqn:E13; [apply N.eqb_eq in E13; subst; reflexivity|].
  destruct (c =? 34)%N eqn:E34; [apply N.eqb_eq in E34; subst; reflexivity|].
  destruct (c =? 92)%N eqn:E92; [apply N.eqb_eq in E92; subst; reflexivity|].
  destruct (c <? 32)%N eqn:E32.
  - apply parseString_unicodeEscape. apply N.ltb_lt in E32. lia.
  - apply not_surrogate_literal; assumption.
Qed.

Lemma surrogate_bounds (c : N) :
  JSON.isHighSurrogate c = true \/ JSON.isLowSurrogate c = true ->
  (55296 <= c /\ c < 65536)%N.
Proof.
  unfold JSON.isHighSurrogate, JSON.isLowSurrogate.
  rewrite !andb_true_iff, !N.leb_le. lia.
Qed.

Lemma surrogate_literal (c : N) (tail : jsstring) :
  JSON.isHighSurrogate c = true \/ JSON.isLowSurrogate c = true ->
  JSON.parseString (c :: tail) = JSON.consTo c (JSON.parseString tail).
Proof.
  intros H. apply surrogate_bounds in H.
  apply not_surrogate_literal;
    [apply N.eqb_neq | apply N.eqb_neq | apply N.ltb_ge]; lia.
Qed.

(** Induction on strings two code units at a time, as [quoteChars] and
    [toWellFormed] go. *)
Lemma jsstring_pair_ind (P : jsstring -> Prop) :
  P [] ->
  (forall c, P [c]) ->
  (forall c d r, P r -> P (d :: r) -> P (c :: d :: r)) ->
  forall s, P s.
Proof.
  intros H0 H1 H2 s.
  assert (H : P s /\ forall c, P (c :: s)).
  { induction s as [|d r [IH1 IH2]].
    - split; [exact H0 | exact H1].
    - split; [apply IH2|]. intros c. apply H2; [exact IH1 | apply IH2]. }
  exact (proj1 H).
Qed.

Lemma parseString_quoteChars (s rest : jsstring) :
  JSON.parseString (JSON.quoteChars s ++ DQUOTE :: rest) = Some (s, rest).
Proof.
  revert rest. induction s as [|c|c d r IHr IHdr] using jsstring_pair_ind;
    intros rest.
  - reflexivity.
  - cbn [JSON.quoteChars].
    destruct (JSON.isHighSurrogate c) eqn:Hh.
    + rewrite parseString_unicodeEscape
        by (apply surrogate_bounds; auto). reflexivity.
    + destruct (JSON.isLowSurrogate c) eqn:Hl.
      * rewrite app_nil_r, parseString_unicodeEscape
          by (apply surrogate_bounds; auto). reflexivity.
      * rewrite app_nil_r, parseString_escapeUnit by assumption. reflexivity.
  - specialize (IHdr rest).
    change (JSON.quoteChars (c :: d :: r))
      with (if JSON.isHighSurrogate c then
              if JSON.isLowSurrogate d then c :: d :: JSON.quoteChars r
              else JSON.unicodeEscape c ++ JSON.quoteChars (d :: r)
            else if JSON.isLowSurrogate c
                 then JSON.unicodeEscape c ++ JSON.quoteChars (d :: r)
                 else JSON.escapeUnit c ++ JSON.quoteChars (d :: r)).
    destruct (JSON.isHighSurrogate c) eqn:Hh.
    + destruct (JSON.isLowSurrogate d) eqn:Hd.
      * cbn [app]. rewrite surrogate_literal by auto.
        rewrite surrogate_literal by auto. rewrite IHr. reflexivity.
      * rewrite <- app_assoc, parseString_unicodeEscape
          by (apply surrogate_bounds; auto).
        rewrite IHdr. reflexivity.
    + destruct (JSON.isLowSurrogate c) eqn:Hl.
      * rewrite <- app_assoc, parseString_unicodeEscape
          by (apply surrogate_bounds; auto).
        rewrite IHdr. reflexivity.
      * rewrite <- app_assoc, parseString_escapeUnit by assumption.
        rewrite IHdr. reflexivity.
Qed.

(** ** JSON: a serialized value is read back *)

Lemma skipWS_ws_app (pre x : jsstring) :
  forallb JSON.isJSONWhiteSpace pre = true ->
  JSON.skipWS (pre ++ x) = JSON.skipWS x.
Proof.
  induction pre as [|c pre IH]; simpl; [reflexivity|].
  destruct (JSON.isJSONWhiteSpace c); [exact IH | discriminate].
Qed.

Lemma skipWS_startsValue (t x : jsstring) :
  startsValue t = true -> JSON.skipWS (t ++ x) = t ++ x.
Proof.
  destruct t as [|c t]; [discriminate|]. simpl.
  destruct (JSON.isJSONWhiteSpace c); [discriminate | reflexivity].
Qed.

Lemma skipWS_pre_value (pre t x : jsstring) :
  forallb JSON.isJSONWhiteSpace pre = true -> startsValue t = true ->
  JSON.skipWS (pre ++ t ++ x) = t ++ x.
Proof.
  intros Hpre Ht. rewrite skipWS_ws_app by exact Hpre.
  apply skipWS_startsValue. exact Ht.
Qed.

Lemma obj_define_new (k : jsstring) (v : jsval) (acc : list (jsstring * jsval)) :
  obj_has k acc = false -> arrayIndex k = None ->
  obj_define k v acc = acc ++ [(k, v)].
Proof. intros H1 H2. unfold obj_define. rewrite H1, H2. reflexivity. Qed.

Lemma parseElements_step (fuel : nat) (s : jsstring) :
  JSON.parseElements (S fuel) s
  = match JSON.parseValue fuel s with
    | None => None
    | Some (v, r) =>
        match JSON.skipWS r with
        | c :: r' =>
            if (c =? 44)%N then
              match JSON.parseElements fuel r' with
              | Some (vs, rest) => Some (v :: vs, rest)
              | None => None
              end
            else if (c =? 93)%N then Some ([v], r')
            else None
        | [] => None
        end
    end.
Proof. reflexivity. Qed.

Lemma parseMembers_step (fuel : nat) (acc : list (jsstring * jsval))
    (s : jsstring) :
  JSON.parseMembers (S fuel) acc s
  = match JSON.skipWS s with
    | q :: r =>
        if (q =? 34)%N then
          match JSON.parseString r with
          | None => None
          | Some (k, r1) =>
              match JSON.skipWS r1 with
              | c :: r2 =>
                  if (c =? 58)%N then
                    match JSON.parseValue fuel r2 with
                    | None => None
                    | Some (v, r3) =>
                        match JSON.skipWS r3 with
                        | d :: r4 =>
                            if (d =? 44)%N then
                              JSON.parseMembers fuel (obj_define k v acc) r4
                            else if (d =? 125)%N then
                              Some (obj_define k v acc, r4)
                            else None
                        | [] => None
                        end
                    end
                  else None
              | [] => None
              end
          end
        else None
    | [] => None
    end.
Proof. reflexivity. Qed.

Lemma parseValue_array (fuel : nat) (pre r : jsstring) :
  forallb JSON.isJSONWhiteSpace pre = true ->
  JSON.parseValue (S fuel) (pre ++ 91%N :: r)
  = match JSON.skipWS r with
    | d :: r' =>
        if (d =? 93)%N then Some (VArr [], r')
        else
          match JSON.parseElements fuel r with
          | Some (elems, rest) => Some (VArr elems, rest)
          | None => None
          end
    | [] => None
    end.
Proof.
  intros Hpre. cbn [JSON.parseValue]. rewrite skipWS_ws_app by exact Hpre.
  reflexivity.
Qed.

Lemma parseValue_object (fuel : nat) (pre r : jsstring) :
  forallb JSON.isJSONWhiteSpace pre = true ->
  JSON.parseValue (S fuel) (pre ++ 123%N :: r)
  = match JSON.skipWS r with
    | d :: r' =>
        if (d =? 125)%N then Some (VObj [], r')
        else
          match JSON.parseMembers fuel [] r with
          | Some (props, rest) => Some (VObj props, rest)
          | None => None
          end
    | [] => None
    end.
Proof.
  intros Hpre. cbn [JSON.parseValue]. rewrite skipWS_ws_app by exact Hpre.
  reflexivity.
Qed.

Lemma parseValue_string (fuel : nat) (pre r : jsstring) :
  forallb JSON.isJSONWhiteSpace pre = true ->
  JSON.parseValue (S fuel) (pre ++ DQUOTE :: r)
  = match JSON.parseString r with
    | Some (t, rest) => Some (VStr t, rest)
    | None => None
    end.
Proof.
  intros Hpre. cbn [JSON.parseValue]. rewrite skipWS_ws_app by exact Hpre.
  reflexivity.
Qed.

Lemma parseValue_literal (fuel : nat) (pre rest : jsstring) :
  forallb JSON.isJSONWhiteSpace pre = true ->
  JSON.parseValue (S fuel) (pre ++ str "null" ++ rest) = Some (VNull, rest)
  /\ JSON.parseValue (S fuel) (pre ++ str "true" ++ rest)
     = Some (VBool true, rest)
  /\ JSON.parseValue (S fuel) (pre ++ str "false" ++ rest)
     = Some (VBool false, rest).
Proof.
  intros Hpre. cbn [JSON.parseValue].
  repeat split; rewrite skipWS_ws_app by exact Hpre; reflexivity.
Qed.

Lemma join_cons2 (sep x y : jsstring) (r : list jsstring) :
  join sep (x :: y :: r) = x ++ sep ++ join sep (y :: r).
Proof. reflexivity. Qed.

Lemma insertable_cons (acc : list (jsstring * jsval)) (k : jsstring)
    (v : jsval) (r : list (jsstring * jsval)) :
  insertable acc ((k, v) :: r) = true ->
  obj_define k v acc = acc ++ [(k, v)]
  /\ insertable (acc ++ [(k, v)]) r = true.
Proof.
  cbn [insertable]. rewrite !andb_true_iff, negb_true_iff.
  intros [[H1 H2] H3]. split; [|exact H3].
  apply obj_define_new; [exact H1|]. destruct (arrayIndex k); [discriminate|reflexivity].
Qed.

Section RoundTrip.

Variable gap : jsstring.
Hypothesis gap_ws : forallb JSON.isJSONWhiteSpace gap = true.
Hypothesis gap_truthy : truthy gap = true.

Lemma readBack_elementText (indent : jsstring) (e : jsval) :
  readBack gap indent e ->
  startsValue (elementText gap indent e) = true
  /\ cost e <= List.length (elementText gap indent e)
  /\ forall pre rest fuel,
       forallb JSON.isJSONWhiteSpace pre = true ->
       cost e <= fuel ->
       JSON.parseValue fuel (pre ++ elementText gap indent e ++ rest)
       = Some (e, rest).
Proof.
  intros (t & E & H). unfold elementText. rewrite E. exact H.
Qed.

Lemma parseElements_texts (indent stepback : jsstring) (elems : list jsval) :
  forallb JSON.isJSONWhiteSpace indent = true ->
  forallb JSON.isJSONWhiteSpace stepback = true ->
  elems <> [] ->
  Forall (readBack gap indent) elems ->
  forall rest fuel,
    list_sum (List.map (fun e => S (cost e)) elems) <= fuel ->
    JSON.parseElements fuel
      ([LF] ++ indent
         ++ join ([COMMA; LF] ++ indent) (List.map (elementText gap indent) elems)
         ++ [LF] ++ stepback ++ 93%N :: rest)
    = Some (elems, rest).
Proof.
  intros Hind Hstep Hne Hall.
  assert (Hpre : forallb JSON.isJSONWhiteSpace ([LF] ++ indent) = true)
    by (cbn; exact Hind).
  induction Hall as [|e l He Hl IH]; [contradiction|].
  intros rest fuel Hfuel.
  change (S (cost e) + list_sum (List.map (fun e => S (cost e)) l) <= fuel)
    in Hfuel.
  destruct fuel as [|fuel]; [lia|].
  destruct (readBack_elementText He) as (_ & _ & Hparse).
  rewrite parseElements_step.
  destruct l as [|e2 l].
  - cbn [List.map join].
    rewrite (app_assoc [LF] indent).
    rewrite (Hparse ([LF] ++ indent)) by (auto; lia).
    cbn [app]. replace (JSON.skipWS (LF :: stepback ++ 93%N :: rest))
      with (93%N :: rest); [reflexivity|].
    change (LF :: stepback ++ 93%N :: rest)
      with ((LF :: stepback) ++ 93%N :: rest).
    rewrite skipWS_ws_app by (cbn; exact Hstep). reflexivity.
  - cbn [List.map]. rewrite join_cons2.
    rewrite <- !app_assoc. rewrite (app_assoc [LF] indent).
    rewrite (Hparse ([LF] ++ indent)) by (auto; lia).
    cbn [app JSON.skipWS]. change (JSON.isJSONWhiteSpace COMMA) with false.
    change (COMMA =? 44)%N with true. cbv iota.
    specialize (IH ltac:(discriminate) rest fuel ltac:(lia)).
    cbn [List.map app] in IH. rewrite <- ?app_assoc in IH. cbn [app] in IH.
    rewrite IH. reflexivity.
Qed.

Lemma parseMembers_member (indent : jsstring) (k : jsstring) (v : jsval)
    (acc : list (jsstring * jsval)) (more : jsstring) (fuel : nat) :
  forallb JSON.isJSONWhiteSpace indent = true ->
  readBack gap indent v -> cost v <= fuel ->
  JSON.parseMembers (S fuel) acc
    ([LF] ++ indent ++ memberText gap indent (k, v) ++ more)
  = match JSON.skipWS more with
    | d :: r4 =>
        if (d =? 44)%N then JSON.parseMembers fuel (obj_define k v acc) r4
        else if (d =? 125)%N then Some (obj_define k v acc, r4)
        else None
    | [] => None
    end.
Proof.
  intros Hind Hv Hfuel.
  destruct (readBack_elementText Hv) as (_ & _ & Hparse).
  rewrite parseMembers_step. unfold memberText, JSON.quote. cbn [fst snd].
  rewrite <- !app_assoc. rewrite (app_assoc [LF] indent).
  rewrite skipWS_ws_app by (cbn; exact Hind).
  cbn [app JSON.skipWS]. change (JSON.isJSONWhiteSpace DQUOTE) with false.
  change (DQUOTE =? 34)%N with true. cbv iota.
  rewrite parseString_quoteChars.
  cbn [JSON.skipWS]. change (JSON.isJSONWhiteSpace COLON) with false.
  change (COLON =? 58)%N with true. cbv iota.
  rewrite (Hparse (str " ")) by auto. reflexivity.
Qed.

Lemma parseMembers_texts (indent stepback : jsstring)
    (props : list (jsstring * jsval)) :
  forallb JSON.isJSONWhiteSpace indent = true ->
  forallb JSON.isJSONWhiteSpace stepback = true ->
  props <> [] ->
  Forall (fun kv => readBack gap indent (snd kv)) props ->
  forall acc rest fuel,
    insertable acc props = true ->
    list_sum (List.map (fun kv => S (cost (snd kv))) props) <= fuel ->
    JSON.parseMembers fuel acc
      ([LF] ++ indent
         ++ join ([COMMA; LF] ++ indent) (List.map (memberText gap indent) props)
         ++ [LF] ++ stepback ++ 125%N :: rest)
    = Some (acc ++ props, rest).
Proof.
  intros Hind Hstep Hne Hall.
  induction Hall as [|[k v] l Hv Hl IH]; [contradiction|].
  intros acc rest fuel Hins Hfuel.
  change (S (cost v) + list_sum (List.map (fun kv => S (cost (snd kv))) l)
          <= fuel) in Hfuel.
  destruct fuel as [|fuel]; [lia|].
  destruct (insertable_cons _ _ _ _ Hins) as [Hdef Hins'].
  destruct l as [|kv2 l].
  - cbn [List.map join].
    rewrite parseMembers_member by (auto; lia).
    replace (JSON.skipWS ([LF] ++ stepback ++ 125%N :: rest))
      with (125%N :: rest).
    + cbn. rewrite Hdef. reflexivity.
    + rewrite (app_assoc [LF] stepback).
      rewrite skipWS_ws_app by (cbn; exact Hstep). reflexivity.
  - cbn [List.map]. rewrite join_cons2. rewrite <- !app_assoc.
    rewrite parseMembers_member by (auto; lia).
    cbn [app JSON.skipWS]. change (JSON.isJSONWhiteSpace COMMA) with false.
    change (COMMA =? 44)%N with true. cbv iota.
    rewrite Hdef.
    specialize (IH ltac:(discriminate) (acc ++ [(k, v)]) rest fuel Hins'
                  ltac:(lia)).
    cbn [List.map app] in IH. rewrite <- ?app_assoc in IH. cbn [app] in IH.
    rewrite IH. reflexivity.
Qed.

(** The elements and the separators between them make the text at least
    as long as the fuel the elements take. *)
Lemma join_length (sep : jsstring) (texts : list jsstring) (costs : list nat) :
  1 <= List.length sep ->
  Forall2 (fun c t => c <= List.length t) costs texts ->
  list_sum (List.map S costs) <= S (List.length (join sep texts)).
Proof.
  intros Hsep H. induction H as [|c t cs ts Hc Hrest IH]; [cbn; lia|].
  destruct Hrest as [|c2 t2 cs ts Hc2 Hrest].
  - cbn. lia.
  - rewrite join_cons2, !length_app.
    change (list_sum (List.map S (c :: c2 :: cs)))
      with (S c + list_sum (List.map S (c2 :: cs))).
    set (J := List.length (join sep (t2 :: ts))) in *.
    set (X := list_sum (List.map S (c2 :: cs))) in *.
    set (T := List.length t) in *. set (L := List.length sep) in *.
    change (S c + X <= S (T + (L + J))). lia.
Qed.

Lemma join_head (sep x : jsstring) (l : list jsstring) :
  exists more, join sep (x :: l) = x ++ more.
Proof.
  destruct l as [|y l].
  - exists []. cbn. rewrite app_nil_r. reflexivity.
  - eexists. apply join_cons2.
Qed.

Lemma members_flat_map (indent : jsstring) (props : list (jsstring * jsval)) :
  Forall (fun kv => readBack gap indent (snd kv)) props ->
  flat_map
    (fun kv => match JSON.serialize gap indent (snd kv) with
               | None => []
               | Some t =>
                   [JSON.quote (fst kv) ++ [COLON]
                      ++ (if truthy gap then str " " else []) ++ t]
               end) props
  = List.map (memberText gap indent) props.
Proof.
  induction 1 as [|kv l (t & E & _) _ IH]; [reflexivity|].
  cbn [flat_map List.map]. rewrite IH. unfold memberText, elementText.
  rewrite E, gap_truthy. reflexivity.
Qed.

Lemma ws_indent (indent : jsstring) :
  forallb JSON.isJSONWhiteSpace indent = true ->
  forallb JSON.isJSONWhiteSpace (indent ++ gap) = true.
Proof. intros H. rewrite forallb_app, H, gap_ws. reflexivity. Qed.

Lemma readBack_costs (indent : jsstring) (elems : list jsval) :
  Forall (readBack gap indent) elems ->
  Forall2 (fun c t => c <= List.length t) (List.map cost elems)
    (List.map (elementText gap indent) elems).
Proof.
  induction 1 as [|e l He _ IH]; cbn [List.map]; constructor; [|exact IH].
  apply (readBack_elementText He).
Qed.

Lemma readBack_member_costs (indent : jsstring)
    (props : list (jsstring * jsval)) :
  Forall (fun kv => readBack gap indent (snd kv)) props ->
  Forall2 (fun c t => c <= List.length t)
    (List.map (fun kv => cost (snd kv)) props)
    (List.map (memberText gap indent) props).
Proof.
  induction 1 as [|kv l He _ IH]; cbn [List.map]; constructor; [|exact IH].
  destruct (readBack_elementText He) as (_ & Hlen & _).
  unfold memberText. rewrite !length_app. lia.
Qed.

Lemma serialize_readBack (v : jsval) :
  plain v = true ->
  forall indent,
    forallb JSON.isJSONWhiteSpace indent = true -> readBack gap indent v.
Proof.
  induction v as [| |b|lit|s|elems IH|props IH] using jsval_nested_ind;
    intros Hplain indent Hind; try discriminate Hplain.
  - (* null *)
    exists (str "null"). repeat split; [vm_compute; lia|].
    intros pre rest [|fuel] Hpre Hfuel; [cbn in Hfuel; lia|].
    apply parseValue_literal. exact Hpre.
  - (* true, false *)
    destruct b.
    + exists (str "true"). repeat split; [vm_compute; lia|].
      intros pre rest [|fuel] Hpre Hfuel; [cbn in Hfuel; lia|].
      apply parseValue_literal. exact Hpre.
    + exists (str "false"). repeat split; [vm_compute; lia|].
      intros pre rest [|fuel] Hpre Hfuel; [cbn in Hfuel; lia|].
      apply parseValue_literal. exact Hpre.
  - (* a string *)
    exists (JSON.quote s). repeat split; [cbn; lia|].
    intros pre rest [|fuel] Hpre Hfuel; [cbn in Hfuel; lia|].
    unfold JSON.quote. rewrite <- !app_assoc. cbn [app].
    rewrite parseValue_string by exact Hpre.
    rewrite parseString_quoteChars. reflexivity.
  - (* an array *)
    cbn [plain] in Hplain. rewrite forallb_forall in Hplain.
    assert (Hall : Forall (readBack gap (indent ++ gap)) elems).
    { rewrite Forall_forall in IH |- *. intros e He.
      apply IH; auto using ws_indent. }
    clear IH Hplain.
    destruct elems as [|e l].
    { exists (str "[]"). repeat split; [vm_compute; lia|].
      intros pre rest [|fuel] Hpre Hfuel; [cbn in Hfuel; lia|].
      change (str "[]" ++ rest) with (91%N :: 93%N :: rest).
      rewrite parseValue_array by exact Hpre. reflexivity. }
    pose proof (ws_indent _ Hind) as Hind'.
    set (ind := indent ++ gap) in *.
    exists (str "[" ++ [LF] ++ ind
              ++ join ([COMMA; LF] ++ ind) (List.map (elementText gap ind) (e :: l))
              ++ [LF] ++ indent ++ str "]").
    split; [cbn [JSON.serialize List.map]; rewrite gap_truthy; reflexivity|].
    split; [reflexivity|].
    split.
    { pose proof (join_length ([COMMA; LF] ++ ind)
                    ltac:(cbn; lia) (readBack_costs Hall)) as Hlen.
      rewrite map_map in Hlen. cbn [cost].
      rewrite !length_app. cbn [List.length]. lia. }
    intros pre rest [|fuel] Hpre Hfuel; [cbn in Hfuel; lia|].
    cbn [cost] in Hfuel.
    rewrite <- !app_assoc.
    change (str "[" ++ [LF] ++ ind ++ ?x) with (91%N :: [LF] ++ ind ++ x).
    change (str "]" ++ rest) with (93%N :: rest).
    rewrite parseValue_array by exact Hpre.
    match goal with
    | |- context [JSON.parseElements fuel ?R] => set (R0 := R)
    end.
    assert (Hskip : exists c0 t0,
               JSON.skipWS R0 = c0 :: t0 /\ (c0 =? 93)%N = false).
    { subst R0.
      destruct (join_head ([COMMA; LF] ++ ind) (elementText gap ind e)
                  (List.map (elementText gap ind) l)) as [more Ej].
      cbn [List.map]. rewrite Ej.
      inversion Hall as [|? ? He _]; subst.
      destruct (readBack_elementText He) as (Hstart & _ & _).
      rewrite (app_assoc [LF] ind), <- (app_assoc (elementText gap ind e)).
      rewrite skipWS_pre_value by (auto; cbn; exact Hind').
      destruct (elementText gap ind e) as [|c0 t0]; [discriminate|].
      exists c0. eexists. split; [reflexivity|].
      cbn in Hstart. rewrite !andb_true_iff, !negb_true_iff in Hstart.
      tauto. }
    destruct Hskip as (c0 & t0 & -> & ->). subst R0.
    rewrite parseElements_texts; auto; [discriminate | lia].
  - (* an object *)
    cbn [plain] in Hplain. apply andb_true_iff in Hplain.
    destruct Hplain as [Hplain Hins]. rewrite forallb_forall in Hplain.
    assert (Hall : Forall (fun kv => readBack gap (indent ++ gap) (snd kv)) props).
    { rewrite Forall_forall in IH |- *. intros kv Hkv.
      apply IH; auto using ws_indent. }
    clear IH Hplain.
    destruct props as [|[k v] l].
    { exists (str "{}"). repeat split; [vm_compute; lia|].
      intros pre rest [|fuel] Hpre Hfuel; [cbn in Hfuel; lia|].
      change (str "{}" ++ rest) with (123%N :: 125%N :: rest).
      rewrite parseValue_object by exact Hpre. reflexivity. }
    pose proof (ws_indent _ Hind) as Hind'.
    set (ind := indent ++ gap) in *.
    exists (str "{" ++ [LF] ++ ind
              ++ join ([COMMA; LF] ++ ind)
                   (List.map (memberText gap ind) ((k, v) :: l))
              ++ [LF] ++ indent ++ str "}").
    split.
    { cbn [JSON.serialize]. fold ind. rewrite (members_flat_map Hall).
      cbn [List.map]. rewrite gap_truthy. reflexivity. }
    split; [reflexivity|].
    split.
    { pose proof (join_length ([COMMA; LF] ++ ind)
                    ltac:(cbn; lia) (readBack_member_costs Hall)) as Hlen.
      rewrite map_map in Hlen. cbn [cost].
      rewrite !length_app. cbn [List.length]. lia. }
    intros pre rest [|fuel] Hpre Hfuel; [cbn in Hfuel; lia|].
    cbn [cost] in Hfuel.
    rewrite <- !app_assoc.
    change (str "{" ++ [LF] ++ ind ++ ?x) with (123%N :: [LF] ++ ind ++ x).
    change (str "}" ++ rest) with (125%N :: rest).
    rewrite parseValue_object by exact Hpre.
    match goal with
    | |- context [JSON.parseMembers fuel [] ?R] => set (R0 := R)
    end.
    assert (Hskip : exists t0, JSON.skipWS R0 = DQUOTE :: t0).
    { subst R0.
      destruct (join_head ([COMMA; LF] ++ ind) (memberText gap ind (k, v))
                  (List.map (memberText gap ind) l)) as [more Ej].
      cbn [List.map]. rewrite Ej.
      rewrite (app_assoc [LF] ind).
      rewrite skipWS_ws_app by (cbn; exact Hind').
      eexists. reflexivity. }
    destruct Hskip as (t0 & ->). change (DQUOTE =? 125)%N with false.
    cbv iota. subst R0.
    rewrite parseMembers_texts; auto; [discriminate | lia].
Qed.

End RoundTrip.

(** [JSON.parse] reads back what [JSON.stringify] has written, for the
    values JSON keeps. *)
Lemma parse_stringify (v : jsval) :
  plain v = true ->
  exists text, JSON.stringify v = Some text /\ JSON.parse text = JSON.Parsed v.
Proof.
  intros Hplain.
  destruct (@serialize_readBack (str "  ") eq_refl eq_refl v Hplain [] eq_refl)
    as (text & E & _ & Hlen & Hparse).
  exists text. split; [exact E|].
  unfold JSON.parse.
  specialize (Hparse [] [] (2 * List.length text + 2) eq_refl ltac:(lia)).
  cbn [app] in Hparse. rewrite app_nil_r in Hparse. rewrite Hparse.
  reflexivity.
Qed.

(** ** JSON: the fuel of the parser is enough *)

Lemma skipWS_length (s : jsstring) :
  List.length (JSON.skipWS s) <= List.length s.
Proof.
  induction s as [|c s IH]; simpl; [lia|].
  destruct (JSON.isJSONWhiteSpace c); simpl; lia.
Qed.

Lemma skipWS_cons_length (s : jsstring) (c : N) (r : jsstring) :
  JSON.skipWS s = c :: r -> List.length r < List.length s.
Proof.
  intros H. pose proof (skipWS_length s) as L. rewrite H in L. simpl in L. lia.
Qed.

Lemma stripPrefix_length (p s r : jsstring) :
  JSON.stripPrefix p s = Some r ->
  List.length s = List.length p + List.length r.
Proof.
  revert s. induction p as [|x p IH]; intros [|y s] H; simpl in *;
    try discriminate; try (injection H as <-; reflexivity).
  destruct (N.eqb x y); [|discriminate]. rewrite (IH _ H). reflexivity.
Qed.

Lemma consTo_Some (c : N) (x : option (jsstring * jsstring))
    (t r : jsstring) :
  JSON.consTo c x = Some (t, r) -> exists t', x = Some (t', r).
Proof.
  destruct x as [[t' r']|]; simpl; [|discriminate].
  intros H; injection H as _ <-. eauto.
Qed.

Lemma parseString_length (s t r : jsstring) :
  JSON.parseString s = Some (t, r) -> List.length r < List.length s.
Proof.
  remember (List.length s) as n eqn:En.
  assert (Hn : List.length s <= n) by lia. clear En.
  revert s t Hn. induction n as [|n IH]; intros s t Hn H.
  - destruct s; [discriminate | simpl in Hn; lia].
  - destruct s as [|c s]; [discriminate|]. simpl in Hn.
    cbn [JSON.parseString] in H.
    destruct (c =? 34)%N; [injection H as _ <-; simpl; lia|].
    destruct (c =? 92)%N.
    + destruct s as [|e s1]; [discriminate|].
      destruct (e =? 117)%N.
      * destruct s1 as [|h1 [|h2 [|h3 [|h4 s2]]]]; try discriminate.
        destruct (JSON.unhex4 h1 h2 h3 h4); [|discriminate].
        apply consTo_Some in H. destruct H as [t' H].
        apply IH in H; simpl in *; lia.
      * destruct (JSON.unescape e); [|discriminate].
        apply consTo_Some in H. destruct H as [t' H].
        apply IH in H; simpl in *; lia.
    + destruct (c <? 32)%N; [discriminate|].
      apply consTo_Some in H. destruct H as [t' H].
      apply IH in H; simpl in *; lia.
Qed.

Lemma spanDigits_length (s : jsstring) :
  List.length (fst (JSON.spanDigits s)) + List.length (snd (JSON.spanDigits s))
  = List.length s.
Proof.
  induction s as [|c s IH]; simpl; [reflexivity|].
  destruct (isDigit c); [|reflexivity].
  destruct (JSON.spanDigits s) as [d rest]. simpl in *. lia.
Qed.

Lemma lexSign_length (s : jsstring) :
  List.length (snd (JSON.lexSign s)) <= List.length s.
Proof.
  destruct s as [|c r]; simpl; [lia|]. destruct (c =? 45)%N; simpl; lia.
Qed.

Lemma lexInteger_length (s i r : jsstring) :
  JSON.lexInteger s = Some (i, r) -> List.length r < List.length s.
Proof.
  unfold JSON.lexInteger. pose proof (spanDigits_length s) as L.
  destruct (JSON.spanDigits s) as [digits rest]. cbn [fst snd] in L.
  destruct digits as [|c more]; [discriminate|].
  destruct ((c =? 48)%N && truthy more); intros H; injection H as _ <-.
  - destruct s; simpl in *; lia.
  - simpl in L. lia.
Qed.

Lemma lexFraction_length (s t r : jsstring) :
  JSON.lexFraction s = Some (t, r) -> List.length r <= List.length s.
Proof.
  unfold JSON.lexFraction. destruct s as [|c s]; intros H.
  - injection H as _ <-. simpl; lia.
  - destruct (c =? 46)%N.
    + pose proof (spanDigits_length s) as L.
      destruct (JSON.spanDigits s) as [[|d ds] rest]; [discriminate|].
      injection H as _ <-. simpl in *. lia.
    + injection H as _ <-. simpl; lia.
Qed.

Lemma lexExponent_length (s t r : jsstring) :
  JSON.lexExponent s = Some (t, r) -> List.length r <= List.length s.
Proof.
  unfold JSON.lexExponent. destruct s as [|c s]; intros H.
  - injection H as _ <-. simpl; lia.
  - destruct ((c =? 101)%N || (c =? 69)%N).
    + destruct s as [|x s'].
      * simpl in H. discriminate.
      * destruct ((x =? 43)%N || (x =? 45)%N).
        -- pose proof (spanDigits_length s') as L.
           destruct (JSON.spanDigits s') as [[|d ds] rest]; [discriminate|].
           injection H as _ <-. simpl in *. lia.
        -- pose proof (spanDigits_length (x :: s')) as L.
           destruct (JSON.spanDigits (x :: s')) as [[|d ds] rest];
             [discriminate|].
           injection H as _ <-. simpl in *. lia.
    + injection H as _ <-. simpl; lia.
Qed.

Lemma lexNumber_length (s lit r : jsstring) :
  JSON.lexNumber s = Some (lit, r) -> List.length r < List.length s.
Proof.
  unfold JSON.lexNumber. pose proof (lexSign_length s) as L0.
  destruct (JSON.lexSign s) as [sign s1]. cbn [snd] in L0.
  destruct (JSON.lexInteger s1) as [[int s2]|] eqn:E1; [|discriminate].
  destruct (JSON.lexFraction s2) as [[fr s3]|] eqn:E2; [|discriminate].
  destruct (JSON.lexExponent s3) as [[ex s4]|] eqn:E3; [|discriminate].
  intros H; injection H as _ <-.
  apply lexInteger_length in E1. apply lexFraction_length in E2.
  apply lexExponent_length in E3. lia.
Qed.

(** The goal of a case of the parser, once its tests are known. *)
Ltac known_tests :=
  repeat match goal with
         | E : ?x = _ |- context [match ?x with _ => _ end] => rewrite E
         | E : ?x = _ |- context [if ?x then _ else _] => rewrite E
         end.

(** A parse consumes text, and succeeds again with any fuel that is at
    least twice the text it consumes. *)
Lemma parse_fuel (fuel : nat) :
  (forall s v r,
     JSON.parseValue fuel s = Some (v, r) ->
     List.length r < List.length s
     /\ forall fuel', 2 * (List.length s - List.length r) <= fuel' ->
                      JSON.parseValue fuel' s = Some (v, r))
  /\ (forall s vs r,
        JSON.parseElements fuel s = Some (vs, r) ->
        List.length r < List.length s
        /\ forall fuel', 1 + 2 * (List.length s - List.length r) <= fuel' ->
                         JSON.parseElements fuel' s = Some (vs, r))
  /\ (forall acc s ps r,
        JSON.parseMembers fuel acc s = Some (ps, r) ->
        List.length r < List.length s
        /\ forall fuel', 1 + 2 * (List.length s - List.length r) <= fuel' ->
                         JSON.parseMembers fuel' acc s = Some (ps, r)).
Proof.
  induction fuel as [|f (IHv & IHe & IHm)].
  { repeat split; intros; discriminate. }
  split; [|split].
  - (* a value *)
    intros s v r H. cbn [JSON.parseValue] in H.
    destruct (JSON.skipWS s) as [|c r0] eqn:Es; [discriminate|].
    pose proof (skipWS_cons_length _ Es) as Ls.
    destruct (c =? 123)%N eqn:E1.
    { destruct (JSON.skipWS r0) as [|d r1] eqn:Er; [discriminate|].
      pose proof (skipWS_cons_length _ Er) as Lr.
      destruct (d =? 125)%N eqn:E2.
      - injection H as <- <-. split; [lia|].
        intros [|g] Hg; [lia|]. cbn [JSON.parseValue]. known_tests.
        reflexivity.
      - destruct (JSON.parseMembers f [] r0) as [[props rest]|] eqn:Em;
          [|discriminate].
        injection H as <- <-. destruct (IHm _ _ _ _ Em) as [Lm Hm].
        split; [lia|].
        intros [|g] Hg; [lia|]. cbn [JSON.parseValue]. known_tests.
        rewrite (Hm g) by lia. reflexivity. }
    destruct (c =? 91)%N eqn:E2.
    { destruct (JSON.skipWS r0) as [|d r1] eqn:Er; [discriminate|].
      pose proof (skipWS_cons_length _ Er) as Lr.
      destruct (d =? 93)%N eqn:E3.
      - injection H as <- <-. split; [lia|].
        intros [|g] Hg; [lia|]. cbn [JSON.parseValue]. known_tests.
        reflexivity.
      - destruct (JSON.parseElements f r0) as [[elems rest]|] eqn:Ee;
          [|discriminate].
        injection H as <- <-. destruct (IHe _ _ _ Ee) as [Le He].
        split; [lia|].
        intros [|g] Hg; [lia|]. cbn [JSON.parseValue]. known_tests.
        rewrite (He g) by lia. reflexivity. }
    destruct (c =? 34)%N eqn:E3.
    { destruct (JSON.parseString r0) as [[t rest]|] eqn:Ep; [|discriminate].
      injection H as <- <-. pose proof (parseString_length _ Ep).
      split; [lia|].
      intros [|g] Hg; [lia|]. cbn [JSON.parseValue]. known_tests.
      reflexivity. }
    destruct (c =? 116)%N eqn:E4.
    { destruct (JSON.stripPrefix (str "true") (c :: r0)) as [rest|] eqn:Ep;
        [|discriminate].
      injection H as <- <-. pose proof (stripPrefix_length _ _ Ep) as Lp.
      change (List.length (str "true")) with 4 in Lp. cbn in Lp.
      split; [lia|].
      intros [|g] Hg; [lia|]. cbn [JSON.parseValue]. known_tests.
      reflexivity. }
    destruct (c =? 102)%N eqn:E5.
    { destruct (JSON.stripPrefix (str "false") (c :: r0)) as [rest|] eqn:Ep;
        [|discriminate].
      injection H as <- <-. pose proof (stripPrefix_length _ _ Ep) as Lp.
      change (List.length (str "false")) with 5 in Lp. cbn in Lp.
      split; [lia|].
      intros [|g] Hg; [lia|]. cbn [JSON.parseValue]. known_tests.
      reflexivity. }
    destruct (c =? 110)%N eqn:E6.
    { destruct (JSON.stripPrefix (str "null") (c :: r0)) as [rest|] eqn:Ep;
        [|discriminate].
      injection H as <- <-. pose proof (stripPrefix_length _ _ Ep) as Lp.
      change (List.length (str "null")) with 4 in Lp. cbn in Lp.
      split; [lia|].
      intros [|g] Hg; [lia|]. cbn [JSON.parseValue]. known_tests.
      reflexivity. }
    destruct (JSON.lexNumber (c :: r0)) as [[lit rest]|] eqn:Ep;
      [|discriminate].
    injection H as <- <-. pose proof (lexNumber_length _ Ep) as Lp.
    cbn in Lp. split; [lia|].
    intros [|g] Hg; [lia|]. cbn [JSON.parseValue]. known_tests.
    reflexivity.
  - (* the elements of an array *)
    intros s vs r H. rewrite parseElements_step in H.
    destruct (JSON.parseValue f s) as [[v r1]|] eqn:Ev; [|discriminate].
    destruct (IHv _ _ _ Ev) as [Lv Hv].
    destruct (JSON.skipWS r1) as [|c r2] eqn:Es; [discriminate|].
    pose proof (skipWS_cons_length _ Es) as Ls.
    destruct (c =? 44)%N eqn:E1.
    + destruct (JSON.parseElements f r2) as [[more rest]|] eqn:Ee;
        [|discriminate].
      injection H as <- <-. destruct (IHe _ _ _ Ee) as [Le He].
      split; [lia|].
      intros [|g] Hg; [lia|]. rewrite parseElements_step.
      rewrite (Hv g) by lia. known_tests. rewrite (He g) by lia.
      reflexivity.
    + destruct (c =? 93)%N eqn:E2; [|discriminate].
      injection H as <- <-. split; [lia|].
      intros [|g] Hg; [lia|]. rewrite parseElements_step.
      rewrite (Hv g) by lia. known_tests. reflexivity.
  - (* the members of an object *)
    intros acc s ps r H. rewrite parseMembers_step in H.
    destruct (JSON.skipWS s) as [|q r0] eqn:Es; [discriminate|].
    pose proof (skipWS_cons_length _ Es) as Ls.
    destruct (q =? 34)%N eqn:E1; [|discriminate].
    destruct (JSON.parseString r0) as [[k r1]|] eqn:Ep; [|discriminate].
    pose proof (parseString_length _ Ep) as Lp.
    destruct (JSON.skipWS r1) as [|c r2] eqn:Es1; [discriminate|].
    pose proof (skipWS_cons_length _ Es1) as Ls1.
    destruct (c =? 58)%N eqn:E2; [|discriminate].
    destruct (JSON.parseValue f r2) as [[v r3]|] eqn:Ev; [|discriminate].
    destruct (IHv _ _ _ Ev) as [Lv Hv].
    destruct (JSON.skipWS r3) as [|d r4] eqn:Es3; [discriminate|].
    pose proof (skipWS_cons_length _ Es3) as Ls3.
    destruct (d =? 44)%N eqn:E3.
    + destruct (IHm _ _ _ _ H) as [Lm Hm].
      split; [lia|].
      intros [|g] Hg; [lia|]. rewrite parseMembers_step. known_tests.
      rewrite (Hv g) by lia. known_tests. apply Hm. lia.
    + destruct (d =? 125)%N eqn:E4; [|discriminate].
      injection H as <- <-. split; [lia|].
      intros [|g] Hg; [lia|]. rewrite parseMembers_step. known_tests.
      rewrite (Hv g) by lia. known_tests. reflexivity.
Qed.

(** The fuel that [JSON.parse] gives is enough: a text that some fuel
    reads as a value is read so by [JSON.parse], and a text it rejects is
    rejected with every fuel. *)
Lemma parse_fuel_enough (text : jsstring) (fuel : nat) (v : jsval)
    (rest : jsstring) :
  JSON.parseValue fuel text = Some (v, rest) ->
  JSON.parseValue (2 * List.length text + 2) text = Some (v, rest).
Proof.
  intros H. destruct (parse_fuel fuel) as (Hv & _ & _).
  destruct (Hv _ _ _ H) as [_ Hf]. apply Hf. lia.
Qed.

Lemma parse_accepts (text : jsstring) (v : jsval) :
  JSON.parse text = JSON.Parsed v
  <-> exists fuel rest,
        JSON.parseValue fuel text = Some (v, rest) /\ JSON.skipWS rest = [].
Proof.
  unfold JSON.parse. split.
  - destruct (JSON.parseValue _ text) as [[v' rest]|] eqn:E; [|discriminate].
    destruct (JSON.skipWS rest) eqn:Er; [|discriminate].
    intros H; injection H as <-. eauto.
  - intros (fuel & rest & H & Hr). rewrite (parse_fuel_enough _ _ H), Hr.
    reflexivity.
Qed.

(** ** JSON: the written text is well formed *)

Lemma surrogate_not_replacement (c : N) :
  isSurrogate c = true -> c <> 65533%N.
Proof.
  unfold isSurrogate, JSON.isHighSurrogate, JSON.isLowSurrogate.
  rewrite orb_true_iff, !andb_true_iff, !N.leb_le. lia.
Qed.

Lemma toWellFormed_cons (c : N) (r : jsstring) :
  isSurrogate c = false -> toWellFormed (c :: r) = c :: toWellFormed r.
Proof.
  unfold isSurrogate. rewrite orb_false_iff. intros [Hh Hl].
  cbn [toWellFormed]. rewrite Hh, Hl. reflexivity.
Qed.

Lemma toWellFormed_unfold2 (c d : N) (r : jsstring) :
  toWellFormed (c :: d :: r)
  = if JSON.isHighSurrogate c then
      if JSON.isLowSurrogate d then c :: d :: toWellFormed r
      else 65533%N :: toWellFormed (d :: r)
    else if JSON.isLowSurrogate c then 65533%N :: toWellFormed (d :: r)
         else c :: toWellFormed (d :: r).
Proof. reflexivity. Qed.

(** After a well-formed string, the rest is treated on its own. *)
Lemma toWellFormed_app (a b : jsstring) :
  wellFormed a -> toWellFormed (a ++ b) = a ++ toWellFormed b.
Proof.
  unfold wellFormed.
  induction a as [|c|c d r IHr IHdr] using jsstring_pair_ind; intros Ha.
  - reflexivity.
  - destruct (isSurrogate c) eqn:Hs.
    + exfalso. apply (surrogate_not_replacement Hs).
      unfold isSurrogate in Hs. cbn [toWellFormed] in Ha.
      destruct (JSON.isHighSurrogate c); [congruence|].
      cbn in Hs. rewrite Hs in Ha. congruence.
    + cbn [app]. apply toWellFormed_cons. exact Hs.
  - rewrite toWellFormed_unfold2 in Ha.
    change ((c :: d :: r) ++ b) with (c :: d :: r ++ b).
    rewrite toWellFormed_unfold2.
    destruct (JSON.isHighSurrogate c) eqn:Hh.
    + destruct (JSON.isLowSurrogate d) eqn:Hd.
      * injection Ha as Ha. rewrite (IHr Ha). reflexivity.
      * exfalso. apply (@surrogate_not_replacement c);
          [unfold isSurrogate; rewrite Hh; reflexivity | congruence].
    + destruct (JSON.isLowSurrogate c) eqn:Hl.
      * exfalso. apply (@surrogate_not_replacement c);
          [unfold isSurrogate; rewrite Hl; apply orb_true_r | congruence].
      * injection Ha as Ha. change (d :: r ++ b) with ((d :: r) ++ b).
        rewrite (IHdr Ha). reflexivity.
Qed.

Lemma wellFormed_app (a b : jsstring) :
  wellFormed a -> wellFormed b -> wellFormed (a ++ b).
Proof.
  intros Ha Hb. unfold wellFormed. rewrite toWellFormed_app by exact Ha.
  rewrite Hb. reflexivity.
Qed.

Lemma wellFormed_plain (a : jsstring) :
  forallb (fun c => negb (isSurrogate c)) a = true -> wellFormed a.
Proof.
  unfold wellFormed. induction a as [|c a IH]; [reflexivity|].
  cbn [forallb]. rewrite andb_true_iff, negb_true_iff. intros [Hc Ha].
  rewrite toWellFormed_cons by exact Hc. rewrite IH by exact Ha. reflexivity.
Qed.

Lemma wellFormed_ws (a : jsstring) :
  forallb JSON.isJSONWhiteSpace a = true -> wellFormed a.
Proof.
  intros H. apply wellFormed_plain. rewrite forallb_forall in H |- *.
  intros c Hc. specialize (H c Hc). unfold JSON.isJSONWhiteSpace in H.
  rewrite !orb_true_iff, !N.eqb_eq in H.
  destruct H as [[[-> | ->] | ->] | ->]; reflexivity.
Qed.

Lemma hexDigit_plain (n : N) :
  (n < 16)%N -> isSurrogate (JSON.hexDigit n) = false.
Proof.
  intros H. unfold isSurrogate, JSON.isHighSurrogate, JSON.isLowSurrogate,
    JSON.hexDigit.
  rewrite orb_false_iff, !andb_false_iff, !N.leb_gt.
  destruct (n <? 10)%N; lia.
Qed.

Lemma wellFormed_unicodeEscape (c : N) : wellFormed (JSON.unicodeEscape c).
Proof.
  apply wellFormed_plain. unfold JSON.unicodeEscape, JSON.hex4.
  cbn [app forallb].
  rewrite !hexDigit_plain by (apply N.mod_lt; discriminate). reflexivity.
Qed.

Lemma wellFormed_escapeUnit (c : N) :
  isSurrogate c = false -> wellFormed (JSON.escapeUnit c).
Proof.
  intros Hc. unfold JSON.escapeUnit.
  repeat match goal with
         | |- wellFormed (if ?b then _ else _) => destruct b
         end;
    try reflexivity; try apply wellFormed_unicodeEscape.
  apply wellFormed_plain. cbn. rewrite Hc. reflexivity.
Qed.

Lemma wellFormed_quoteChars (s : jsstring) : wellFormed (JSON.quoteChars s).
Proof.
  induction s as [|c|c d r IHr IHdr] using jsstring_pair_ind.
  - reflexivity.
  - cbn [JSON.quoteChars].
    destruct (JSON.isHighSurrogate c) eqn:Hh;
      [apply wellFormed_unicodeEscape|].
    destruct (JSON.isLowSurrogate c) eqn:Hl; rewrite app_nil_r;
      [apply wellFormed_unicodeEscape|].
    apply wellFormed_escapeUnit. unfold isSurrogate. rewrite Hh, Hl.
    reflexivity.
  - change (JSON.quoteChars (c :: d :: r))
      with (if JSON.isHighSurrogate c then
              if JSON.isLowSurrogate d then c :: d :: JSON.quoteChars r
              else JSON.unicodeEscape c ++ JSON.quoteChars (d :: r)
            else if JSON.isLowSurrogate c
                 then JSON.unicodeEscape c ++ JSON.quoteChars (d :: r)
                 else JSON.escapeUnit c ++ JSON.quoteChars (d :: r)).
    destruct (JSON.isHighSurrogate c) eqn:Hh.
    + destruct (JSON.isLowSurrogate d) eqn:Hd.
      * unfold wellFormed. rewrite toWellFormed_unfold2, Hh, Hd, IHr.
        reflexivity.
      * apply wellFormed_app; [apply wellFormed_unicodeEscape | exact IHdr].
    + destruct (JSON.isLowSurrogate c) eqn:Hl.
      * apply wellFormed_app; [apply wellFormed_unicodeEscape | exact IHdr].
      * apply wellFormed_app; [|exact IHdr].
        apply wellFormed_escapeUnit. unfold isSurrogate. rewrite Hh, Hl.
        reflexivity.
Qed.

Lemma wellFormed_quote (s : jsstring) : wellFormed (JSON.quote s).
Proof.
  unfold JSON.quote.
  apply wellFormed_app; [reflexivity|].
  apply wellFormed_app; [apply wellFormed_quoteChars | reflexivity].
Qed.

Lemma wellFormed_join (sep : jsstring) (texts : list jsstring) :
  wellFormed sep -> Forall wellFormed texts -> wellFormed (join sep texts).
Proof.
  intros Hsep H. induction H as [|t ts Ht Hts IH]; [reflexivity|].
  destruct ts as [|t2 ts]; [exact Ht|].
  rewrite join_cons2. auto using wellFormed_app.
Qed.

Lemma Some_eq {A : Type} (a b : A) : Some a = Some b -> a = b.
Proof. intros H; injection H; auto. Qed.

Lemma wellFormed_bracketed (opening closing ind stepback : jsstring)
    (texts : list jsstring) :
  wellFormed opening -> wellFormed closing ->
  forallb JSON.isJSONWhiteSpace ind = true ->
  forallb JSON.isJSONWhiteSpace stepback = true ->
  Forall wellFormed texts ->
  wellFormed (opening ++ [LF] ++ ind ++ join ([COMMA; LF] ++ ind) texts
                ++ [LF] ++ stepback ++ closing).
Proof.
  intros Ho Hc Hi Hs Ht.
  apply wellFormed_app; [exact Ho|].
  apply wellFormed_app; [reflexivity|].
  apply wellFormed_app; [apply wellFormed_ws; exact Hi|].
  apply wellFormed_app.
  - apply wellFormed_join; [|exact Ht].
    apply wellFormed_app; [reflexivity | apply wellFormed_ws; exact Hi].
  - apply wellFormed_app; [reflexivity|].
    apply wellFormed_app; [apply wellFormed_ws; exact Hs | exact Hc].
Qed.

Lemma serialize_wellFormed (gap : jsstring) (v : jsval) :
  forallb JSON.isJSONWhiteSpace gap = true ->
  plain v = true ->
  forall indent t,
    forallb JSON.isJSONWhiteSpace indent = true ->
    JSON.serialize gap indent v = Some t -> wellFormed t.
Proof.
  intros Hgap.
  induction v as [| |b|lit|s|elems IH|props IH] using jsval_nested_ind;
    intros Hplain indent t Hind E; try discriminate Hplain;
    cbn [JSON.serialize] in E.
  - injection E as <-. reflexivity.
  - destruct b; injection E as <-; reflexivity.
  - injection E as <-. apply wellFormed_quote.
  - cbn [plain] in Hplain. rewrite forallb_forall in Hplain.
    assert (Hind' : forallb JSON.isJSONWhiteSpace (indent ++ gap) = true)
      by (rewrite forallb_app, Hind, Hgap; reflexivity).
    set (ind := indent ++ gap) in *.
    assert (Hall : Forall wellFormed
                     (List.map (fun e => match JSON.serialize gap ind e with
                                         | None => str "null"
                                         | Some t => t
                                         end) elems)).
    { apply Forall_map. rewrite Forall_forall in IH |- *. intros e He.
      destruct (JSON.serialize gap ind e) as [te|] eqn:Ee; [|reflexivity].
      exact (IH e He (Hplain e He) ind te Hind' Ee). }
    destruct (List.map _ elems) as [|t1 ts];
      [apply Some_eq in E; subst t; reflexivity|].
    destruct (truthy gap); apply Some_eq in E; subst t.
    + apply wellFormed_bracketed;
        [reflexivity | reflexivity | exact Hind' | exact Hind | exact Hall].
    + apply wellFormed_app; [reflexivity|].
      apply wellFormed_app; [|reflexivity].
      apply wellFormed_join; [reflexivity | exact Hall].
  - cbn [plain] in Hplain. apply andb_true_iff in Hplain.
    destruct Hplain as [Hplain _]. rewrite forallb_forall in Hplain.
    assert (Hind' : forallb JSON.isJSONWhiteSpace (indent ++ gap) = true)
      by (rewrite forallb_app, Hind, Hgap; reflexivity).
    set (ind := indent ++ gap) in *.
    match type of E with
    | context [flat_map ?f props] =>
        assert (Hall : Forall wellFormed (flat_map f props))
    end.
    { clear E. induction props as [|kv l IHl]; [constructor|].
      cbn [flat_map]. apply Forall_app. split.
      - destruct (JSON.serialize gap ind (snd kv)) as [te|] eqn:Ee;
          [|constructor].
        constructor; [|constructor].
        inversion IH as [|? ? H1 _]; subst.
        pose proof (H1 (Hplain kv (or_introl eq_refl)) ind te Hind' Ee).
        apply wellFormed_app; [apply wellFormed_quote|].
        apply wellFormed_app; [reflexivity|].
        apply wellFormed_app; [destruct (truthy gap); reflexivity | assumption].
      - apply IHl.
        + inversion IH; assumption.
        + intros x Hx. apply Hplain. right. exact Hx. }
    destruct (flat_map _ props) as [|t1 ts];
      [apply Some_eq in E; subst t; reflexivity|].
    destruct (truthy gap); apply Some_eq in E; subst t.
    + apply wellFormed_bracketed;
        [reflexivity | reflexivity | exact Hind' | exact Hind | exact Hall].
    + apply wellFormed_app; [reflexivity|].
      apply wellFormed_app; [|reflexivity].
      apply wellFormed_join; [reflexivity | exact Hall].
Qed.

(** ** The configuration round trip *)

Lemma plain_jsCommitType (t : CommitType) :
  description t <> None -> plain (jsCommitType t) = true.
Proof.
  destruct t as [n [d|] [c|]]; cbn [description]; intros H;
    try congruence; reflexivity.
Qed.

Lemma plain_jsConfiguration (c : Configuration) :
  validConfiguration c -> plain (jsConfiguration c) = true.
Proof.
  unfold validConfiguration. intros H.
  assert (Htypes : forallb plain (List.map jsCommitType (commitTypes c)) = true).
  { induction H as [|t l Ht _ IH]; [reflexivity|].
    cbn [List.map forallb]. rewrite plain_jsCommitType by exact Ht. exact IH. }
  unfold jsConfiguration. cbn [plain forallb snd]. rewrite Htypes. reflexivity.
Qed.

(** C9.  For a valid configuration record, when the file can be
    written, saving is fulfilled and loading from the resulting file
    store yields the JavaScript value of the same record: the same
    properties, in the same order, with the same values. *)
Theorem config_save_load_round_trip (w : World) (st : State)
    (c : Configuration) :
  validConfiguration c ->
  fs st (getGlobalConfigPath w) <> Denied ->
  exists st',
    saveConfig w c st = (Fulfilled tt, st')
    /\ fst (loadConfig w st') = Fulfilled (jsConfiguration c).
Proof.
  intros Hvalid Hwrite.
  pose proof (plain_jsConfiguration Hvalid) as Hplain.
  destruct (parse_stringify _ Hplain) as (text & Hs & Hp).
  assert (Hwf : toWellFormed text = text)
    by exact (@serialize_wellFormed (str "  ") _ eq_refl Hplain [] text
                eq_refl Hs).
  destruct st as [files events]. cbn [fs] in Hwrite.
  unfold saveConfig. run. rewrite Hs. run.
  destruct (files (getGlobalConfigPath w)) eqn:Hnode; [|congruence|];
    (eexists; split; [reflexivity|]);
    unfold loadConfig; run; rewrite jseq_refl, Hwf; run; rewrite Hp;
    reflexivity.
Qed.

Lemma config_save_load_round_trip_witness :
  let w := scenario_world (Some true) None in
  let st := init (fun _ => Absent) in
  (validConfiguration scenario_config
   /\ fs st (getGlobalConfigPath w) <> Denied)
  /\ exists st',
       saveConfig w scenario_config st = (Fulfilled tt, st')
       /\ fst (loadConfig w st') = Fulfilled (jsConfiguration scenario_config).
Proof.
  intros w st.
  assert (H1 : validConfiguration scenario_config)
    by (repeat constructor; discriminate).
  assert (H2 : fs st (getGlobalConfigPath w) <> Denied) by discriminate.
  split; [split; assumption|].
  exact (config_save_load_round_trip w st H1 H2).
Defined.

(** ** The configuration checks of the commit flow *)

(** X1.  Without a configuration file the command says that setup has to
    be run and stops, fulfilled: it reads no file, runs no tool, asks
    nothing and sends nothing. *)
Theorem missing_configuration_stops (w : World) (files : jsstring -> fnode) :
  files (getGlobalConfigPath w) = Absent ->
  defaultCommand w (init files)
  = (Fulfilled tt,
     {| fs := files;
        trace :=
          [ConsoleLog (chalk Blue (str "Executing commit..."));
           FsAccess (getGlobalConfigPath w);
           ConsoleLog
             (chalk Red
                (str "Configuration not found. Please run " ++ [DQUOTE]
                   ++ str "commit --setup" ++ [DQUOTE] ++ str " first."))] |}).
Proof.
  intros Hfile. unfold defaultCommand. run. step Hfile. reflexivity.
Qed.

Lemma missing_configuration_stops_witness :
  let w := scenario_world None (Some true) in
  empty_store (getGlobalConfigPath w) = Absent
  /\ defaultCommand w (init empty_store)
     = (Fulfilled tt,
        {| fs := empty_store;
           trace :=
             [ConsoleLog (chalk Blue (str "Executing commit..."));
              FsAccess (getGlobalConfigPath w);
              ConsoleLog
                (chalk Red
                   (str "Configuration not found. Please run " ++ [DQUOTE]
                      ++ str "commit --setup" ++ [DQUOTE]
                      ++ str " first."))] |}).
Proof.
  intros w. split; [reflexivity|].
  exact (missing_configuration_stops w empty_store eq_refl).
Defined.

(** X2.  When the configuration parses to a value other than [null] whose
    [aiProvider] is not the string [Anthropic] (a missing key reads as
    [undefined]), the command says that only Anthropic is supported and
    stops, fulfilled, before any query of the version-control tool. *)
Theorem unsupported_provider_stops (w : World) (files : jsstring -> fnode)
    (text : jsstring) (config provider : jsval) :
  files (getGlobalConfigPath w) = File text ->
  JSON.parse text = JSON.Parsed config ->
  get_prop config (str "aiProvider") = Some provider ->
  provider <> VStr (str "Anthropic") ->
  defaultCommand w (init files)
  = (Fulfilled tt,
     {| fs := files;
        trace :=
          [ConsoleLog (chalk Blue (str "Executing commit..."));
           FsAccess (getGlobalConfigPath w);
           FsReadFile (getGlobalConfigPath w);
           ConsoleLog
             (chalk Yellow
                (str "This command only works with Anthropic for now."))] |}).
Proof.
  intros Hfile Hparse Hprov Hother.
  assert (Htest : match provider with
                  | VStr s => jseq s (str "Anthropic")
                  | _ => false
                  end = false).
  { destruct provider as [| | | |s| |]; try reflexivity.
    destruct (jseq s (str "Anthropic")) eqn:E; [|reflexivity].
    apply jseq_spec in E. congruence. }
  unfold defaultCommand. run.
  step Hfile. step Hfile. step Hparse. step Hprov. step Htest. reflexivity.
Qed.

Lemma unsupported_provider_stops_witness :
  let w := scenario_world None (Some true) in
  let files := scenario_store (str "{}") in
  (files (getGlobalConfigPath w) = File (str "{}")
   /\ JSON.parse (str "{}") = JSON.Parsed (VObj [])
   /\ get_prop (VObj []) (str "aiProvider") = Some VUndefined
   /\ VUndefined <> VStr (str "Anthropic"))
  /\ defaultCommand w (init files)
     = (Fulfilled tt,
        {| fs := files;
           trace :=
             [ConsoleLog (chalk Blue (str "Executing commit..."));
              FsAccess (getGlobalConfigPath w);
              FsReadFile (getGlobalConfigPath w);
              ConsoleLog
                (chalk Yellow
                   (str "This command only works with Anthropic for now."))] |}).
Proof.
  intros w files.
  assert (H1 : files (getGlobalConfigPath w) = File (str "{}"))
    by (vm_compute; reflexivity).
  assert (H2 : JSON.parse (str "{}") = JSON.Parsed (VObj []))
    by (vm_compute; reflexivity).
  assert (H3 : get_prop (VObj []) (str "aiProvider") = Some VUndefined)
    by reflexivity.
  assert (H4 : VUndefined <> VStr (str "Anthropic")) by discriminate.
  split; [repeat split; assumption|].
  exact (unsupported_provider_stops w files H1 H2 H3 H4).
Defined.

(** X3.  When the configuration file holds the JSON value [null], reading
    [config.aiProvider] throws a TypeError that nothing catches: the
    command is rejected right after the file has been read. *)
Theorem null_configuration_is_rejected (w : World)
    (files : jsstring -> fnode) (text : jsstring) :
  files (getGlobalConfigPath w) = File text ->
  JSON.parse text = JSON.Parsed VNull ->
  defaultCommand w (init files)
  = (Rejected TypeError,
     {| fs := files;
        trace :=
          [ConsoleLog (chalk Blue (str "Executing commit..."));
           FsAccess (getGlobalConfigPath w);
           FsReadFile (getGlobalConfigPath w)] |}).
Proof.
  intros Hfile Hparse. unfold defaultCommand. run.
  step Hfile. step Hfile. step Hparse. reflexivity.
Qed.

Lemma null_configuration_is_rejected_witness :
  let w := scenario_world None (Some true) in
  let files := scenario_store (str " null ") in
  (files (getGlobalConfigPath w) = File (str " null ")
   /\ JSON.parse (str " null ") = JSON.Parsed VNull)
  /\ defaultCommand w (init files)
     = (Rejected TypeError,
        {| fs := files;
           trace :=
             [ConsoleLog (chalk Blue (str "Executing commit..."));
              FsAccess (getGlobalConfigPath w);
              FsReadFile (getGlobalConfigPath w)] |}).
Proof.
  intros w files.
  assert (H1 : files (getGlobalConfigPath w) = File (str " null "))
    by (vm_compute; reflexivity).
  assert (H2 : JSON.parse (str " null ") = JSON.Parsed VNull)
    by (vm_compute; reflexivity).
  split; [split; assumption|].
  exact (null_configuration_is_rejected w files H1 H2).
Defined.

(** ** A staged file that cannot be read *)

Lemma getFilesContent_from_unreadable (content : jsstring -> jsstring)
    (p : jsstring) (after before : list jsstring) :
  forall (acc : jsstring) (st : State),
    readable (fs st) before content ->
    (forall text, fs st p <> File text) ->
    getFilesContent_from acc (before ++ p :: after) st
    = (Rejected (FsError p),
       {| fs := fs st;
          trace := trace st ++ List.map FsReadFile (before ++ [p]) |}).
Proof.
  induction before as [|file rest IH]; intros acc st Hread Hnot.
  - cbn [app getFilesContent_from List.map]. unfold bind at 1.
    unfold fs_readFile, bind, emit. cbn [fs trace].
    destruct (fs st p) as [| |text] eqn:E; try reflexivity.
    exfalso. exact (Hnot text eq_refl).
  - cbn [app getFilesContent_from]. unfold bind at 1.
    unfold fs_readFile, bind, emit. cbn [fs trace].
    rewrite (Hread file (or_introl eq_refl)).
    rewrite IH.
    + cbn [fs trace List.map app]. rewrite <- app_assoc. reflexivity.
    + intros q Hq. cbn [fs]. apply Hread. right. exact Hq.
    + exact Hnot.
Qed.

(** X4.  When a staged path cannot be read (the file is gone, or access
    is denied), collecting the contents is rejected with the error of that
    path; the paths before it have been read, in order, and no path after
    it is touched. *)
Theorem unreadable_file_stops_collection (content : jsstring -> jsstring)
    (before after : list jsstring) (p : jsstring) (st : State) :
  readable (fs st) before content ->
  (forall text, fs st p <> File text) ->
  getFilesContent (before ++ p :: after) st
  = (Rejected (FsError p),
     {| fs := fs st;
        trace := trace st ++ List.map FsReadFile (before ++ [p]) |}).
Proof.
  intros Hread Hnot. unfold getFilesContent.
  apply (@getFilesContent_from_unreadable content); assumption.
Qed.

Lemma unreadable_file_stops_collection_witness :
  let st := init (scenario_store []) in
  (readable (fs st) [str "a.js"] (fun _ => str "console.log(1)" ++ [LF])
   /\ forall text, fs st (str "gone.js") <> File text)
  /\ getFilesContent ([str "a.js"] ++ str "gone.js" :: [str "a.js"]) st
     = (Rejected (FsError (str "gone.js")),
        {| fs := scenario_store [];
           trace := [FsReadFile (str "a.js"); FsReadFile (str "gone.js")] |}).
Proof.
  intros st.
  assert (H1 : readable (fs st) [str "a.js"]
                 (fun _ => str "console.log(1)" ++ [LF])).
  { intros q [<- | []]. vm_compute. reflexivity. }
  assert (H2 : forall text, fs st (str "gone.js") <> File text).
  { intros text. vm_compute. discriminate. }
  split; [split; assumption|].
  exact (@unreadable_file_stops_collection _ [str "a.js"] [str "a.js"]
           (str "gone.js") st H1 H2).
Defined.

(** The steps of the commit flow up to the collection of the contents. *)
Ltac run_to_collection Hcfg Hst Hsome :=
  destruct Hcfg as (text & Hfile & Hparse & Hprov);
  destruct Hst as (Hq1 & Hq2 & Hpaths & Hdiff);
  apply failed_false in Hq1, Hq2;
  destruct Hq1 as [He1 Hs1], Hq2 as [He2 Hs2];
  unfold defaultCommand, getStagedFilesAndDiff; run;
  step Hfile; step Hfile; step Hparse; step Hprov; step jseq_refl;
  fold stagedQuery diffQuery; step He1; step Hs1; step He2; step Hs2;
  rewrite <- Hpaths, <- Hdiff; step Hsome;
  unfold getFilesContent.

(** X5.  In the commit flow, a staged path that cannot be read rejects
    the run with the error of that path: the run ends with the reading of
    that path, no request is sent, nothing is shown or asked, nothing is
    committed. *)
Theorem unreadable_file_rejects_run (w : World) (files : jsstring -> fnode)
    (config : jsval) (before after : list jsstring) (p diff : jsstring)
    (content : jsstring -> jsstring) :
  configured w files config ->
  staged w (before ++ p :: after) diff ->
  nothingStaged (before ++ p :: after) = false ->
  readable files before content ->
  (forall text, files p <> File text) ->
  defaultCommand w (init files)
  = (Rejected (FsError p),
     {| fs := files;
        trace := queryEvents w ++ List.map FsReadFile (before ++ [p]) |}).
Proof.
  intros Hcfg Hst Hsome Hread Hnot.
  run_to_collection Hcfg Hst Hsome.
  rewrite (@getFilesContent_from_unreadable content); [| exact Hread | exact Hnot].
  reflexivity.
Qed.

Lemma unreadable_file_rejects_run_witness :
  let w := tool_world deleted_process in
  let files := scenario_store scenario_text in
  defaultCommand w (init files)
  = (Rejected (FsError (str "gone.js")),
     {| fs := files;
        trace := queryEvents w
                 ++ [FsReadFile (str "a.js"); FsReadFile (str "gone.js")] |}).
Proof.
  intros w files.
  assert (Hcfg : configured w files (jsConfiguration scenario_config)).
  { exists scenario_text. repeat split; vm_compute; reflexivity. }
  assert (Hst : staged w ([str "a.js"] ++ str "gone.js" :: [])
                  (str "+console.log(1)")).
  { repeat split; vm_compute; reflexivity. }
  assert (Hread : readable files [str "a.js"]
                    (fun _ => str "console.log(1)" ++ [LF])).
  { intros q [<- | []]. vm_compute. reflexivity. }
  assert (Hnot : forall text, files (str "gone.js") <> File text).
  { intros text. vm_compute. discriminate. }
  exact (@unreadable_file_rejects_run w files _ [str "a.js"] [] (str "gone.js")
           _ _ Hcfg Hst eq_refl Hread Hnot).
Defined.

(** ** The request *)

(** X6.  A configuration whose [commitTypes] is not an array (the key is
    missing, say) makes the rendering of the types throw a TypeError that
    nothing catches: the run is rejected after the staged files have been
    read, and no request is sent. *)
Theorem missing_commit_types_rejects (w : World) (files : jsstring -> fnode)
    (config token types : jsval) (paths : list jsstring) (diff : jsstring)
    (content : jsstring -> jsstring)
    (create : jsstring -> jserror + list block) :
  configured w files config -> staged w paths diff ->
  nothingStaged paths = false -> readable files paths content ->
  get_prop config (str "apiToken") = Some token ->
  get_prop config (str "commitTypes") = Some types ->
  anthropic w token = Some create ->
  (forall elems, types <> VArr elems) ->
  defaultCommand w (init files)
  = (Rejected TypeError,
     {| fs := files;
        trace := queryEvents w ++ List.map FsReadFile paths |}).
Proof.
  intros Hcfg Hst Hsome Hread Htoken Htypes Hnew Hnot.
  assert (Hrender : renderTypes types = None).
  { destruct types; try reflexivity. exfalso. exact (Hnot _ eq_refl). }
  run_to_collection Hcfg Hst Hsome.
  rewrite (@getFilesContent_from_readable content) by exact Hread.
  run. step Htoken. step Htypes.
  unfold generateCommitMessage. step Hnew. step Hrender. reflexivity.
Qed.

Lemma missing_commit_types_rejects_witness :
  let w := scenario_world None (Some true) in
  let files := scenario_store provider_only_text in
  defaultCommand w (init files)
  = (Rejected TypeError,
     {| fs := files;
        trace := queryEvents w ++ [FsReadFile (str "a.js")] |}).
Proof.
  intros w files.
  assert (Hcfg : configured w files
                   (VObj [(str "aiProvider", VStr (str "Anthropic"))])).
  { exists provider_only_text. repeat split; vm_compute; reflexivity. }
  assert (Hread : readable files [str "a.js"]
                    (fun _ => str "console.log(1)" ++ [LF])).
  { intros q [<- | []]. vm_compute. reflexivity. }
  assert (Hnot : forall elems, VUndefined <> VArr elems) by discriminate.
  exact (@missing_commit_types_rejects w files _ VUndefined VUndefined
           [str "a.js"] (str "+console.log(1)") _
           (fun _ => inr [TextBlock scenario_message])
           Hcfg (scenario_staged None (Some true)) eq_refl Hread
           eq_refl eq_refl eq_refl Hnot).
Defined.

(** The steps of the commit flow up to the answer of the service. *)
Ltac run_to_answer content Hcfg Hst Hsome Hread Hask :=
  destruct Hask as (token & types & create & rendered & Htoken & Htypes
                    & Hnew & Hrender & -> & Hcreate);
  run_to_collection Hcfg Hst Hsome;
  rewrite (@getFilesContent_from_readable content) by exact Hread;
  run; step Htoken; step Htypes;
  unfold generateCommitMessage; step Hnew; step Hrender; step Hcreate.

(** X7.  When the generation service fails, the run is rejected with its
    error; when its response has no content block, or a first block that
    is not text, the run is rejected with a TypeError (in the second case
    after the two header lines of the review).  In each case the request
    is the last thing the run does outside the console: the user is asked
    nothing and nothing is committed. *)
Theorem response_without_text_rejects (w : World) (files : jsstring -> fnode)
    (config : jsval) (paths : list jsstring) (diff : jsstring)
    (content : jsstring -> jsstring) (request : event)
    (response : jserror + list block) :
  configured w files config -> staged w paths diff ->
  nothingStaged paths = false -> readable files paths content ->
  asks w config
    (List.concat (List.map (fun p => labeledBlock p (content p)) paths))
    diff request response ->
  let sent := queryEvents w ++ List.map FsReadFile paths ++ [request] in
  (forall e, response = inl e ->
     defaultCommand w (init files)
     = (Rejected e, {| fs := files; trace := sent |}))
  /\ (response = inr [] ->
      defaultCommand w (init files)
      = (Rejected TypeError, {| fs := files; trace := sent |}))
  /\ (forall rest, response = inr (OtherBlock :: rest) ->
      defaultCommand w (init files)
      = (Rejected TypeError,
         {| fs := files;
            trace :=
              sent
              ++ [ConsoleLog
                    (chalk Cyan ([LF] ++ str "=== Generated Commit Message ==="));
                  ConsoleLog (chalk White rule)] |})).
Proof.
  intros Hcfg Hst Hsome Hread Hask sent. subst sent.
  split; [|split].
  - intros e ->. run_to_answer content Hcfg Hst Hsome Hread Hask.
    unfold queryEvents. cbn [app]. reflexivity.
  - intros ->. run_to_answer content Hcfg Hst Hsome Hread Hask.
    unfold queryEvents. cbn [app]. reflexivity.
  - intros rest ->. run_to_answer content Hcfg Hst Hsome Hread Hask.
    unfold queryEvents. cbn [app]. rewrite <- !app_assoc. reflexivity.
Qed.

Lemma service_configured (service : jsstring -> jserror + list block) :
  configured (service_world service) (scenario_store scenario_text)
    (jsConfiguration scenario_config).
Proof. exists scenario_text. repeat split; vm_compute; reflexivity. Qed.

Lemma service_staged (service : jsstring -> jserror + list block) :
  staged (service_world service) [str "a.js"] (str "+console.log(1)").
Proof. repeat split; vm_compute; reflexivity. Qed.

Lemma service_asks (response : jserror + list block) :
  asks (service_world (fun _ => response)) (jsConfiguration scenario_config)
    (List.concat
       (List.map (fun p => labeledBlock p (str "console.log(1)" ++ [LF]))
          [str "a.js"]))
    (str "+console.log(1)") scenario_request response.
Proof.
  exists (VStr (str "sk-test")),
    (VArr [jsCommitType (defaultType "feat" "A new feature" true)]),
    (fun _ => response), (str "- feat: A new feature").
  repeat split; vm_compute; reflexivity.
Qed.

Lemma response_without_text_rejects_witness :
  let files := scenario_store scenario_text in
  let sent (w : World) :=
    queryEvents w ++ [FsReadFile (str "a.js")] ++ [scenario_request] in
  let failing := service_world (fun _ => inl (ApiError (str "overloaded"))) in
  let silent := service_world (fun _ => inr []) in
  let other := service_world (fun _ => inr [OtherBlock]) in
  defaultCommand failing (init files)
  = (Rejected (ApiError (str "overloaded")),
     {| fs := files; trace := sent failing |})
  /\ defaultCommand silent (init files)
     = (Rejected TypeError, {| fs := files; trace := sent silent |})
  /\ defaultCommand other (init files)
     = (Rejected TypeError,
        {| fs := files;
           trace :=
             sent other
             ++ [ConsoleLog
                   (chalk Cyan ([LF] ++ str "=== Generated Commit Message ==="));
                 ConsoleLog (chalk White rule)] |}).
Proof.
  intros files sent failing silent other.
  split; [|split].
  - exact (proj1 (response_without_text_rejects
                    (service_configured _) (service_staged _) eq_refl
                    scenario_readable
                    (service_asks (inl (ApiError (str "overloaded")))))
             _ eq_refl).
  - exact (proj1 (proj2 (response_without_text_rejects
                    (service_configured _) (service_staged _) eq_refl
                    scenario_readable (service_asks (inr []))))
             eq_refl).
  - exact (proj2 (proj2 (response_without_text_rejects
                    (service_configured _) (service_staged _) eq_refl
                    scenario_readable (service_asks (inr [OtherBlock]))))
             _ eq_refl).
Defined.

(** X8.  The request lists the commit types of the configuration in their
    order, one line [- name: description] each, the lines joined by a line
    break and twenty spaces. *)
Theorem rendered_types_keep_order (c : Configuration) :
  exists types,
    get_prop (jsConfiguration c) (str "commitTypes") = Some types
    /\ renderTypes types
       = Some (join ([LF] ++ str "                    ")
                 (List.map typeLine (commitTypes c))).
Proof.
  exists (VArr (List.map jsCommitType (commitTypes c))).
  split; [reflexivity|].
  unfold renderTypes.
  assert (H : mapM renderType (List.map jsCommitType (commitTypes c))
              = Some (List.map typeLine (commitTypes c))).
  { induction (commitTypes c) as [|t l IH]; [reflexivity|].
    cbn [List.map mapM]. rewrite IH.
    destruct t as [n d ch]. unfold renderType, jsCommitType, typeLine.
    cbn [get_prop name description checked app obj_get].
    rewrite jseq_refl.
    change (jseq (str "description") (str "name")) with false.
    cbv iota. rewrite jseq_refl.
    destruct d as [d|]; reflexivity. }
  rewrite H. reflexivity.
Qed.

(** ** Cutting and joining *)

Lemma join_split (sep : N) (s : jsstring) : join [sep] (split sep s) = s.
Proof.
  induction s as [|c r IH]; [reflexivity|].
  cbn [split]. destruct (N.eqb c sep) eqn:E.
  - apply N.eqb_eq in E. subst c.
    destruct (split_cons_inv sep r) as (x & xs & Er). rewrite Er in IH |- *.
    rewrite join_cons2, IH. reflexivity.
  - destruct (split sep r) as [|x xs] eqn:Er.
    + exfalso. exact (split_nonempty _ _ Er).
    + destruct xs as [|y l].
      * cbn [join] in IH |- *. rewrite IH. reflexivity.
      * rewrite join_cons2 in IH |- *. rewrite <- IH. reflexivity.
Qed.

Lemma split_pieces_clean (sep : N) (s piece : jsstring) :
  In piece (split sep s) -> ~ In sep piece.
Proof.
  revert piece. induction s as [|c r IH]; intros piece H.
  - destruct H as [<- | []]. intros [].
  - cbn [split] in H. destruct (N.eqb c sep) eqn:E.
    + destruct H as [<- | H]; [intros [] | exact (IH _ H)].
    + destruct (split sep r) as [|x xs] eqn:Er.
      * exfalso. exact (split_nonempty _ _ Er).
      * destruct H as [<- | H].
        -- intros [-> | Hin].
           ++ rewrite N.eqb_refl in E. discriminate.
           ++ exact (IH x (or_introl eq_refl) Hin).
        -- exact (IH piece (or_intror H)).
Qed.

Lemma split_pieces_within (sep : N) (s piece : jsstring) (c : N) :
  In piece (split sep s) -> In c piece -> In c s.
Proof.
  revert piece. induction s as [|d r IH]; intros piece H Hc.
  - destruct H as [<- | []]. exact Hc.
  - cbn [split] in H. destruct (N.eqb d sep).
    + destruct H as [<- | H]; [destruct Hc | right; exact (IH _ H Hc)].
    + destruct (split sep r) as [|x xs] eqn:Er.
      * exfalso. exact (split_nonempty _ _ Er).
      * destruct H as [<- | H].
        -- destruct Hc as [-> | Hc]; [left; reflexivity|].
           right. exact (IH x (or_introl eq_refl) Hc).
        -- right. exact (IH piece (or_intror H) Hc).
Qed.

Lemma split_absent (sep : N) (s : jsstring) :
  ~ In sep s -> split sep s = [s].
Proof.
  induction s as [|c r IH]; intros H; [reflexivity|].
  cbn [split]. destruct (N.eqb c sep) eqn:E.
  - apply N.eqb_eq in E. subst c. exfalso. apply H. left. reflexivity.
  - rewrite IH by (intros Hin; apply H; right; exact Hin). reflexivity.
Qed.

Lemma split_app (sep : N) (a b : jsstring) :
  split sep (a ++ sep :: b) = split sep a ++ split sep b.
Proof.
  induction a as [|c a IH].
  - cbn [app split]. rewrite N.eqb_refl. reflexivity.
  - cbn [app split]. rewrite IH.
    destruct (N.eqb c sep); [reflexivity|].
    destruct (split sep a) as [|x xs] eqn:Ea.
    + exfalso. exact (split_nonempty _ _ Ea).
    + reflexivity.
Qed.

(** X9.  Cutting a message at the line breaks loses nothing of it: the
    subject has no line break, and the subject followed, when there are
    further lines, by a line break and the body as it is shown (the
    further lines joined by line breaks) is the message. *)
Theorem shown_message_is_whole (commitMessage : jsstring) :
  let lines := split LF commitMessage in
  let subject := hd [] lines in
  let body := tl lines in
  ~ In LF subject
  /\ commitMessage
     = subject ++ (if (0 <? List.length body)%nat
                   then [LF] ++ join [LF] body
                   else []).
Proof.
  intros lines subject body. subst subject body lines.
  pose proof (join_split LF commitMessage) as Hjoin.
  pose proof (@split_pieces_clean LF commitMessage) as Hclean.
  destruct (split LF commitMessage) as [|x xs] eqn:E.
  - exfalso. exact (split_nonempty _ _ E).
  - cbn [hd tl]. split; [apply Hclean; left; reflexivity|].
    destruct xs as [|y l].
    + cbn in Hjoin |- *. rewrite app_nil_r. congruence.
    + rewrite join_cons2 in Hjoin. cbn [List.length Nat.ltb Nat.leb].
      congruence.
Qed.

(** X10.  When the two queries succeed, the paths are the pieces of the
    trimmed output of the first between its line breaks: no path holds a
    line break, and the paths joined by line breaks are the trimmed
    output; the diff is the output of the second query, untrimmed; and the
    two queries are all that happened. *)
Theorem staged_paths_are_the_lines (w : World) (st st' : State)
    (paths : list jsstring) (diff : jsstring) :
  getStagedFilesAndDiff w st = (Fulfilled (paths, diff), st') ->
  Forall (fun p => ~ In LF p) paths
  /\ join [LF] paths
     = trim (stdout (child_process w (str "git diff --cached --name-only")))
  /\ diff = stdout (child_process w (str "git diff --cached"))
  /\ st' = {| fs := fs st;
              trace := trace st
                       ++ [Exec (str "git diff --cached --name-only");
                           Exec (str "git diff --cached")] |}.
Proof.
  intros H. pose proof (getStagedFilesAndDiff_files _ _ H) as [-> ->].
  split; [|split; [|split]].
  - apply Forall_forall. intros p Hp. exact (split_pieces_clean _ _ _ Hp).
  - apply join_split.
  - reflexivity.
  - revert H. unfold getStagedFilesAndDiff. fold stagedQuery diffQuery. run.
    destruct (error (child_process w stagedQuery)); [discriminate|].
    destruct (truthy (stderr (child_process w stagedQuery))); [discriminate|].
    run.
    destruct (error (child_process w diffQuery)); [discriminate|].
    destruct (truthy (stderr (child_process w diffQuery))); [discriminate|].
    intros H; injection H as <-. rewrite <- app_assoc. reflexivity.
Qed.

Lemma staged_paths_are_the_lines_witness :
  let w := scenario_world None (Some true) in
  let st := init empty_store in
  let st' := {| fs := empty_store;
                trace := [Exec (str "git diff --cached --name-only");
                          Exec (str "git diff --cached")] |} in
  getStagedFilesAndDiff w st
  = (Fulfilled ([str "a.js"], str "+console.log(1)"), st')
  /\ Forall (fun p => ~ In LF p) [str "a.js"]
  /\ join [LF] [str "a.js"] = str "a.js".
Proof.
  intros w st st'.
  assert (H : getStagedFilesAndDiff w st
              = (Fulfilled ([str "a.js"], str "+console.log(1)"), st'))
    by (vm_compute; reflexivity).
  destruct (staged_paths_are_the_lines w st H) as (H1 & H2 & _).
  split; [exact H|]. split; [exact H1|]. exact H2.
Defined.

(** ** The custom types that are kept *)

Lemma trimStart_fixed (x : jsstring) :
  (forall c r, x = c :: r -> isWhiteSpace c = false) -> trimStart x = x.
Proof.
  destruct x as [|c r]; intros H; [reflexivity|].
  cbn [trimStart]. rewrite (H c r eq_refl). reflexivity.
Qed.

Lemma trimStart_idempotent (x : jsstring) :
  trimStart (trimStart x) = trimStart x.
Proof.
  apply trimStart_fixed. intros c r E. exact (trimStart_head _ E).
Qed.

Lemma trimEnd_idempotent (x : jsstring) : trimEnd (trimEnd x) = trimEnd x.
Proof.
  unfold trimEnd. rewrite rev_involutive, trimStart_idempotent. reflexivity.
Qed.

Lemma trim_idempotent (s : jsstring) : trim (trim s) = trim s.
Proof.
  assert (H : trimStart (trim s) = trim s).
  { apply trimStart_fixed. intros c r E. exact (trim_head _ E). }
  unfold trim at 1. rewrite H. unfold trim. apply trimEnd_idempotent.
Qed.

Lemma filter_none {A : Type} (p : A -> bool) (l : list A) :
  (forall x, In x l -> p x = false) -> List.filter p l = [].
Proof.
  induction l as [|a l IH]; intros H; [reflexivity|].
  cbn [List.filter]. rewrite (H a (or_introl eq_refl)).
  apply IH. intros x Hx. apply H. right. exact Hx.
Qed.

Lemma customFilter_clean (input : jsstring) :
  Forall (fun t =>
            name t <> [] /\ trimmed (name t)
            /\ (exists d, description t = Some d /\ d <> [] /\ trimmed d)
            /\ checked t = None)
    (customFilter input).
Proof.
  apply Forall_forall. intros t Ht. unfold customFilter in Ht.
  apply filter_In in Ht. destruct Ht as [Hin Hkeep].
  apply in_map_iff in Hin. destruct Hin as (pair & <- & _).
  cbn [name description checked] in Hkeep |- *.
  destruct (split_cons_inv COLON pair) as (x & xs & E). rewrite E in *.
  cbn [List.map nth] in Hkeep |- *.
  apply andb_true_iff in Hkeep. destruct Hkeep as [Hn Hd].
  split; [intros E0; rewrite E0 in Hn; discriminate|].
  split; [apply trim_idempotent|].
  split; [|reflexivity].
  destruct xs as [|y ys]; [discriminate Hd|].
  cbn [List.map nth_error] in Hd |- *.
  exists (trim y). split; [reflexivity|].
  split; [intros E0; cbn [truthy_opt] in Hd; rewrite E0 in Hd; discriminate|].
  apply trim_idempotent.
Qed.

(** X11.  Every custom type that the filter keeps has a name and a
    description that are not empty and that [trim] leaves as they are (no
    white space at either end), and has no [checked] property. *)
Theorem custom_types_are_clean (input : jsstring) :
  Forall (fun t =>
            name t <> [] /\ trimmed (name t)
            /\ (exists d, description t = Some d /\ d <> [] /\ trimmed d)
            /\ checked t = None)
    (customFilter input).
Proof. exact (customFilter_clean input). Qed.

(** X12.  The filter treats the pairs one by one: the custom types of two
    inputs put together with a comma are those of the first followed by
    those of the second. *)
Theorem custom_types_of_joined_inputs (a b : jsstring) :
  customFilter (a ++ COMMA :: b) = customFilter a ++ customFilter b.
Proof.
  unfold customFilter. rewrite split_app, map_app, filter_app. reflexivity.
Qed.

(** X13.  An input without a colon gives no custom type: a pair that
    does not separate a name from a description is dropped, the empty
    input included. *)
Theorem custom_types_need_a_colon (input : jsstring) :
  ~ In COLON input -> customFilter input = [].
Proof.
  intros Hno. unfold customFilter. apply filter_none.
  intros t Ht. apply in_map_iff in Ht. destruct Ht as (pair & <- & Hpair).
  cbn [name description].
  rewrite split_absent.
  - cbn [List.map nth_error truthy_opt]. apply andb_false_r.
  - intros Hin. apply Hno. exact (split_pieces_within _ _ _ _ Hpair Hin).
Qed.

Lemma custom_types_need_a_colon_witness :
  ~ In COLON (str "wip, docs - manuals ,")
  /\ customFilter (str "wip, docs - manuals ,") = [].
Proof.
  assert (H : ~ In COLON (str "wip, docs - manuals ,")).
  { vm_compute. intros Hin.
    repeat (destruct Hin as [Hin | Hin]; [discriminate Hin|]). exact Hin. }
  split; [exact H|]. exact (@custom_types_need_a_colon _ H).
Defined.

(** ** What setup writes *)

Lemma checkbox_values (choices : list Choice) (toggled : list bool)
    (t : CommitType) :
  In t (checkbox choices toggled) -> In t (List.map choice_value choices).
Proof.
  revert toggled. induction choices as [|c cs IH]; intros toggled H.
  - destruct H.
  - cbn [checkbox] in H. cbn [List.map].
    destruct (xorb (choice_checked c) (hd false toggled)).
    + destruct H as [<- | H]; [left; reflexivity | right; exact (IH _ H)].
    + right. exact (IH _ H).
Qed.

Lemma assembled_valid (token : jsstring) (toggled : list bool)
    (input : jsstring) :
  validConfiguration (assembled token (checkbox typeChoices toggled) input).
Proof.
  unfold validConfiguration, assembled. cbn [commitTypes].
  apply Forall_app. split.
  - apply Forall_forall. intros t Ht. apply checkbox_values in Ht.
    change (List.map choice_value typeChoices) with defaultCommitTypes in Ht.
    unfold defaultCommitTypes in Ht.
    repeat (destruct Ht as [<- | Ht]; [discriminate|]). destruct Ht.
  - pose proof (customFilter_clean input) as H.
    apply Forall_forall. intros t Ht. rewrite Forall_forall in H.
    destruct (H t Ht) as (_ & _ & (d & -> & _) & _). discriminate.
Qed.

Lemma stringify_valid (c : Configuration) :
  validConfiguration c ->
  exists text,
    JSON.stringify (jsConfiguration c) = Some text
    /\ toWellFormed text = text
    /\ JSON.parse text = JSON.Parsed (jsConfiguration c).
Proof.
  intros Hvalid. pose proof (plain_jsConfiguration Hvalid) as Hplain.
  destruct (parse_stringify _ Hplain) as (text & Hs & Hp).
  exists text. split; [exact Hs|]. split; [|exact Hp].
  exact (@serialize_wellFormed (str "  ") _ eq_refl Hplain [] text eq_refl Hs).
Qed.

(** What a fulfilled setup has done. *)
Lemma setup_fulfilled (w : World) (st st' : State) :
  setup w st = (Fulfilled tt, st') ->
  exists token toggled input text,
    find validateToken (tokens (user w)) = Some token
    /\ find validateTypes
         (List.map (checkbox typeChoices) (selections (user w)))
       = Some (checkbox typeChoices toggled)
    /\ In toggled (selections (user w))
    /\ customTypes (user w) = Some input
    /\ JSON.stringify
         (jsConfiguration (assembled token (checkbox typeChoices toggled) input))
       = Some text
    /\ toWellFormed text = text
    /\ JSON.parse text
       = JSON.Parsed
           (jsConfiguration
              (assembled token (checkbox typeChoices toggled) input))
    /\ fs st' = (fun p => if jseq p (getGlobalConfigPath w)
                          then File text else fs st p).
Proof.
  destruct st as [files events]. unfold setup. run.
  destruct (find validateToken (tokens (user w))) as [token|] eqn:Et;
    [|discriminate].
  destruct (find validateTypes _) as [types|] eqn:Ey; [|discriminate].
  destruct (customTypes (user w)) as [input|] eqn:Ei; [|discriminate].
  run.
  pose proof (find_some _ _ Ey) as [Hin _].
  apply in_map_iff in Hin. destruct Hin as (toggled & <- & Hin).
  destruct (stringify_valid (assembled_valid token toggled input))
    as (text & Hs & Hwf & Hp).
  unfold assembled in Hs, Hp |- *.
  cbn [ans_aiProvider ans_apiToken ans_commitTypes ans_customCommitTypes].
  rewrite Hs. run.
  destruct (files (getGlobalConfigPath w)); try discriminate;
    intros H; injection H as <-; cbn [fs]; rewrite Hwf;
    exists token, toggled, input, text; repeat split; auto.
Qed.

(** X14.  When setup is fulfilled, the configuration file holds the
    serialization of a record with the provider [Anthropic], the first
    entry of the user that passed the token check, which is not empty, and
    the commit types of the first selection that passed its check, which
    is not empty, followed by the custom types; every commit type of the
    record has a description.  Every other path of the file store is as
    it was. *)
Theorem setup_writes_valid_configuration (w : World) (st st' : State) :
  setup w st = (Fulfilled tt, st') ->
  exists token toggled input text,
    find validateToken (tokens (user w)) = Some token
    /\ token <> []
    /\ In toggled (selections (user w))
    /\ checkbox typeChoices toggled <> []
    /\ customTypes (user w) = Some input
    /\ validConfiguration
         (assembled token (checkbox typeChoices toggled) input)
    /\ JSON.stringify
         (jsConfiguration (assembled token (checkbox typeChoices toggled) input))
       = Some text
    /\ fs st' = (fun p => if jseq p (getGlobalConfigPath w)
                          then File text else fs st p).
Proof.
  intros H.
  destruct (setup_fulfilled _ _ H)
    as (token & toggled & input & text & Ht & Hy & Hin & Hi & Hs & _ & _ & Hfs).
  exists token, toggled, input, text.
  pose proof (find_some _ _ Ht) as [_ Hvt].
  pose proof (find_some _ _ Hy) as [_ Hvy].
  repeat split; auto using assembled_valid.
  - intros ->. discriminate Hvt.
  - intros E. rewrite E in Hvy. discriminate Hvy.
Qed.

Lemma setup_writes_valid_configuration_witness :
  let w := scenario_world (Some true) None in
  let st := init empty_store in
  let st' := snd (setup w st) in
  setup w st = (Fulfilled tt, st')
  /\ exists token toggled input text,
       find validateToken (tokens (user w)) = Some token
       /\ token <> []
       /\ In toggled (selections (user w))
       /\ checkbox typeChoices toggled <> []
       /\ customTypes (user w) = Some input
       /\ validConfiguration
            (assembled token (checkbox typeChoices toggled) input)
       /\ JSON.stringify
            (jsConfiguration
               (assembled token (checkbox typeChoices toggled) input))
          = Some text
       /\ fs st' = (fun p => if jseq p (getGlobalConfigPath w)
                             then File text else fs st p).
Proof.
  intros w st st'.
  assert (H : setup w st = (Fulfilled tt, st')) by (vm_compute; reflexivity).
  split; [exact H|].
  exact (setup_writes_valid_configuration w st H).
Defined.

(** X15.  What a fulfilled setup has written is what a later commit run
    finds.  The record is the one of the user's answers: the first entry
    that passed the token check, the types of the first selection that
    passed its check, and the custom types of the input.  For any run with
    the same configuration path, the file is there in the resulting store,
    it parses to that record, the record passes the provider check, and
    reading the configuration yields it. *)
Theorem setup_configures_the_commit_run (w w' : World) (st st' : State) :
  setup w st = (Fulfilled tt, st') ->
  getGlobalConfigPath w' = getGlobalConfigPath w ->
  exists token toggled input,
    find validateToken (tokens (user w)) = Some token
    /\ find validateTypes
         (List.map (checkbox typeChoices) (selections (user w)))
       = Some (checkbox typeChoices toggled)
    /\ customTypes (user w) = Some input
    /\ configured w' (fs st')
         (jsConfiguration
            (assembled token (checkbox typeChoices toggled) input))
    /\ forall events,
         loadConfig w' {| fs := fs st'; trace := events |}
         = (Fulfilled
              (jsConfiguration
                 (assembled token (checkbox typeChoices toggled) input)),
            {| fs := fs st';
               trace := events ++ [FsReadFile (getGlobalConfigPath w')] |}).
Proof.
  intros H Hpath.
  destruct (setup_fulfilled _ _ H)
    as (token & toggled & input & text & Ht & Hy & _ & Hi & _ & _ & Hp & Hfs).
  exists token, toggled, input.
  destruct st' as [files' events']. cbn [fs] in Hfs |- *.
  assert (Hfile : files' (getGlobalConfigPath w') = File text)
    by (rewrite Hfs, Hpath, jseq_refl; reflexivity).
  repeat split; try assumption.
  - exists text. repeat split; assumption.
  - intros events. unfold loadConfig. run. rewrite Hfile. run.
    rewrite Hp. reflexivity.
Qed.

Lemma setup_configures_the_commit_run_witness :
  let w := scenario_world (Some true) None in
  let w' := scenario_world None (Some true) in
  let st := init empty_store in
  let st' := snd (setup w st) in
  (setup w st = (Fulfilled tt, st')
   /\ getGlobalConfigPath w' = getGlobalConfigPath w)
  /\ exists token toggled input,
       find validateToken (tokens (user w)) = Some token
       /\ find validateTypes
            (List.map (checkbox typeChoices) (selections (user w)))
          = Some (checkbox typeChoices toggled)
       /\ customTypes (user w) = Some input
       /\ configured w' (fs st')
            (jsConfiguration
               (assembled token (checkbox typeChoices toggled) input))
       /\ forall events,
            loadConfig w' {| fs := fs st'; trace := events |}
            = (Fulfilled
                 (jsConfiguration
                    (assembled token (checkbox typeChoices toggled) input)),
               {| fs := fs st';
                  trace := events ++ [FsReadFile (getGlobalConfigPath w')] |}).
Proof.
  intros w w' st st'.
  assert (H : setup w st = (Fulfilled tt, st')) by (vm_compute; reflexivity).
  assert (Hp : getGlobalConfigPath w' = getGlobalConfigPath w) by reflexivity.
  split; [split; assumption|].
  exact (setup_configures_the_commit_run w w' st H Hp).
Defined.

(** X16.  Setup touches the configuration file only: whatever the user
    does and however setup ends, every other path of the file store is as
    it was, and what setup does is to write on the console, to ask its
    questions and to write that file; it reads no file, runs no tool and
    sends no request. *)
Theorem setup_touches_only_the_configuration (w : World) (st : State) :
  (forall p, jseq p (getGlobalConfigPath w) = false ->
             fs (snd (setup w st)) p = fs st p)
  /\ exists evs,
       trace (snd (setup w st)) = trace st ++ evs
       /\ Forall (setupEvent (getGlobalConfigPath w)) evs.
Proof.
  destruct st as [files events]. unfold setup. run.
  destruct (find validateToken (tokens (user w))) as [token|];
    [|repeat split; try reflexivity; eexists; split;
        [rewrite <- app_assoc; reflexivity | repeat constructor]].
  destruct (find validateTypes _) as [types|];
    [|repeat split; try reflexivity; eexists; split;
        [rewrite <- app_assoc; reflexivity | repeat constructor]].
  destruct (customTypes (user w)) as [input|];
    [|repeat split; try reflexivity; eexists; split;
        [rewrite <- app_assoc; reflexivity | repeat constructor]].
  run.
  destruct (JSON.stringify _) as [data|]; run;
    [|repeat split; try reflexivity; eexists; split;
        [rewrite <- app_assoc; reflexivity | repeat constructor]].
  destruct (files (getGlobalConfigPath w)); cbn [fst snd fs trace].
  - split; [intros p Hp; rewrite Hp; reflexivity|].
    eexists. split; [rewrite <- !app_assoc; reflexivity|].
    repeat constructor.
  - split; [reflexivity|].
    eexists. split; [rewrite <- !app_assoc; reflexivity|].
    repeat constructor.
  - split; [intros p Hp; rewrite Hp; reflexivity|].
    eexists. split; [rewrite <- !app_assoc; reflexivity|].
    repeat constructor.
Qed.

Lemma setup_touches_only_the_configuration_witness :
  let w := scenario_world (Some true) None in
  let st := init (scenario_store scenario_text) in
  jseq (str "a.js") (getGlobalConfigPath w) = false
  /\ fs (snd (setup w st)) (str "a.js") = fs st (str "a.js").
Proof.
  intros w st.
  split; [reflexivity|].
  apply (proj1 (setup_touches_only_the_configuration w st)). reflexivity.
Defined.

(** ** What a command never does *)



























(** ** The line that announces the commit *)
















(** The second case is a real one: the service answers with the text of
    line 159, the user says no, and the text is on the console though
    nothing was committed. *)
Lemma echoed_success_text_without_commit :
  let w := echo_world (Some false) in
  let evs := trace (snd (cli w (init (scenario_store scenario_text)))) in
  In (ConsoleLog (chalk GreenBold successText)) evs
  /\ quiet evs
  /\ echoed w evs.
Proof.
  intros w evs.
  assert (E : evs = firstn 9 evs
                    ++ ConsoleLog (chalk GreenBold successText)
                    :: skipn 10 evs)
    by (vm_compute; reflexivity).
  split; [rewrite E; apply in_or_app; right; left; reflexivity|].
  split; [vm_compute; reflexivity|].
  assert (Hreq : exists content,
             nth_error evs 6
             = Some (MessagesCreate (VStr (str "sk-test")) model max_tokens
                       content))
    by (eexists; vm_compute; reflexivity).
  destruct Hreq as (content & Hreq).
  exists (VStr (str "sk-test")), (fun _ => inr [TextBlock successText]),
    content, successText, [].
  split; [exact (nth_error_In _ _ Hreq)|].
  repeat split. left. reflexivity.
Qed.

(** X19.  The command line of the commit carries the message and the
    signing choice without loss: two invocations of [makeCommit] run the
    same command line only when their messages are the same and they
    agree on signing. *)
Theorem commit_command_determines_message (m m' : jsstring)
    (s s' : option bool) :
  commitCommand m s = commitCommand m' s' ->
  m = m' /\ signs s = signs s'.
Proof.
  unfold commitCommand, signs. intros H. apply app_inv_head in H.
  destruct (match s with Some b => b | None => false end),
           (match s' with Some b => b | None => false end).
  - do 2 apply app_inv_head in H. injection H as H.
    apply app_inv_tail in H. auto.
  - vm_compute in H. discriminate H.
  - vm_compute in H. discriminate H.
  - cbn [app] in H. apply app_inv_head in H. injection H as H.
    apply app_inv_tail in H. auto.
Qed.

Lemma commit_command_determines_message_witness :
  commitCommand scenario_message None
  = commitCommand scenario_message (Some false)
  /\ scenario_message = scenario_message
  /\ signs None = signs (Some false).
Proof.
  split; [reflexivity|].
  apply (@commit_command_determines_message scenario_message scenario_message
           None (Some false)).
  reflexivity.
Defined.

(** ** What the shell passes on *)

Lemma read_quoted_plain (message : jsstring) :
  shellPlain message = true ->
  forall word,
    Sh.read true (Some word) (message ++ [DQUOTE]) = Some [word ++ message].
Proof.
  induction message as [|c r IH]; intros H word.
  - cbn. rewrite app_nil_r. reflexivity.
  - cbn [shellPlain forallb] in H. apply andb_true_iff in H.
    destruct H as [Hc Hr]. apply negb_true_iff in Hc.
    apply orb_false_iff in Hc. destruct Hc as [Hc _].
    apply orb_false_iff in Hc. destruct Hc as [Hc He].
    apply orb_false_iff in Hc. destruct Hc as [Hq Hb].
    cbn [app Sh.read]. rewrite Hq, Hb, He. unfold Sh.push.
    rewrite (IH Hr). rewrite <- app_assoc. reflexivity.
Qed.

Lemma shellPlain_no_nul (message : jsstring) :
  shellPlain message = true ->
  existsb (fun c => (c =? 0)%N) message = false.
Proof.
  induction message as [|c r IH]; intros H; [reflexivity|].
  cbn [shellPlain forallb] in H. apply andb_true_iff in H.
  destruct H as [Hc Hr]. apply negb_true_iff in Hc.
  apply orb_false_iff in Hc. destruct Hc as [_ Hz].
  cbn [existsb]. rewrite Hz. exact (IH Hr).
Qed.

(** The command line of [makeCommit] as the shell receives it. *)
Lemma commitCommand_received (message : jsstring) (sign : option bool) :
  shellPlain message = true -> wellFormed message ->
  Sh.words (commitCommand message sign)
  = Sh.read false None (commitCommand message sign).
Proof.
  intros H Hwf. unfold Sh.words.
  assert (Hnul : existsb (fun c => (c =? 0)%N) (commitCommand message sign)
                 = false).
  { unfold commitCommand. rewrite !existsb_app, (shellPlain_no_nul _ H).
    destruct (match sign with Some b => b | None => false end); reflexivity. }
  assert (Hsame : wellFormed (commitCommand message sign)).
  { unfold commitCommand.
    apply wellFormed_app; [reflexivity|].
    apply wellFormed_app;
      [destruct (match sign with Some b => b | None => false end);
         reflexivity|].
    apply wellFormed_app; [reflexivity|].
    apply wellFormed_app; [reflexivity|].
    apply wellFormed_app; [exact Hwf | reflexivity]. }
  rewrite Hnul, Hsame. reflexivity.
Qed.

(** X20.  A message without a double quote, a backslash, a dollar sign, a
    backquote and a NUL, and without a lone surrogate, reaches the commit
    operation as it is: the shell cuts the command line that [makeCommit]
    runs into [git], [commit], [-S] when signing is asked for, [-m] and
    the message, line breaks included. *)
Theorem plain_message_reaches_git_unchanged (message : jsstring)
    (sign : option bool) :
  shellPlain message = true -> wellFormed message ->
  Sh.words (commitCommand message sign)
  = Some ([str "git"; str "commit"]
          ++ (if signs sign then [str "-S"] else [])
          ++ [str "-m"; message]).
Proof.
  intros H Hwf. rewrite (commitCommand_received sign H Hwf).
  unfold commitCommand, signs.
  destruct (match sign with Some b => b | None => false end).
  - transitivity
      (option_map (cons (str "git"))
         (option_map (cons (str "commit"))
            (option_map (cons (str "-S"))
               (option_map (cons (str "-m"))
                  (Sh.read true (Some []) (message ++ [DQUOTE]))))));
      [reflexivity|].
    rewrite (read_quoted_plain _ H). reflexivity.
  - transitivity
      (option_map (cons (str "git"))
         (option_map (cons (str "commit"))
            (option_map (cons (str "-m"))
               (Sh.read true (Some []) (message ++ [DQUOTE])))));
      [reflexivity|].
    rewrite (read_quoted_plain _ H). reflexivity.
Qed.

Lemma plain_message_reaches_git_unchanged_witness :
  (shellPlain scenario_message = true /\ wellFormed scenario_message)
  /\ Sh.words (commitCommand scenario_message (Some true))
     = Some [str "git"; str "commit"; str "-S"; str "-m"; scenario_message].
Proof.
  split; [split; reflexivity|].
  exact (@plain_message_reaches_git_unchanged scenario_message (Some true)
           eq_refl eq_refl).
Defined.

(** ** Numbers as they are printed *)

(** A number of the configuration is printed as its value, not as it was
    written. *)
Example numbers_are_printed_by_value :
  List.map (fun lit => Number.toString (Number.ofLiteral (str lit)))
    ["1.0"; "1e2"; "-0"; "0.1"; "0.30000000000000004"; "1e21"; "1e-7";
     "123456789012345680000"; "9007199254740993"; "5e-324"; "-1e400"]%string
  = List.map str
      ["1"; "100"; "0"; "0.1"; "0.30000000000000004"; "1e+21"; "1e-7";
       "123456789012345680000"; "9007199254740992"; "5e-324";
       "-Infinity"]%string.
Proof. vm_compute. reflexivity. Qed.

Example numeric_type_is_rendered_by_value :
  let text :=
    str "[{" ++ [DQUOTE] ++ str "name" ++ [DQUOTE] ++ str ": 1.0, "
      ++ [DQUOTE] ++ str "description" ++ [DQUOTE] ++ str ": 1e2}]" in
  match JSON.parse text with
  | JSON.Parsed types => renderTypes types
  | JSON.SyntaxError => None
  end
  = Some (str "- 1: 100").
Proof. vm_compute. reflexivity. Qed.
